(** * route-vibes-run: route synthesis and live distance tracking

    A shallow embedding of the TypeScript sources of the running companion
    (geodesy helpers, the geometric and the directions-assisted route
    synthesizers, the position callback of the map component and the session
    controller of the index page), followed by the properties established
    about them.

    JavaScript numbers are idealised as real numbers: [+], [*], [/],
    [Math.sin], [Math.cos], [Math.sqrt] are the real operations, so NaN,
    the infinities (division by zero included) and binary rounding are
    outside the model.  [Math.floor],
    [Math.round] and [toFixed] are the exact functions of ECMAScript on a
    real argument; [toFixed] is modelled in its fixed-notation range
    (magnitudes below 1e21), which covers every distance the application
    handles (the distance input is clamped to 0.1 .. 10 miles). *)

From Stdlib Require Import Reals ZArith List String Ascii Bool Lia Lra.
Import ListNotations.

Local Open Scope R_scope.

(** ** JavaScript builtins over the reals *)

Module JS.

(** [x < y] as a JavaScript condition. *)
Definition lt (x y : R) : bool := if Rlt_dec x y then true else false.

(** [x >= y] as a JavaScript condition. *)
Definition ge (x y : R) : bool := if Rle_dec y x then true else false.

(** [x > y] as a JavaScript condition. *)
Definition gt (x y : R) : bool := if Rlt_dec y x then true else false.

Definition Math_floor (x : R) : Z := Zfloor x.

(** [Math.round] rounds to the nearest integer, ties towards +infinity. *)
Definition Math_round (x : R) : Z := Zfloor (x + 1 / 2).

Definition Math_max (a b : Z) : Z := Z.max a b.

(** [Math.atan2 y x], quadrant by quadrant. *)
Definition Math_atan2 (y x : R) : R :=
  if Rlt_dec 0 x then atan (y / x)
  else if Rlt_dec x 0 then
    (if Rle_dec 0 y then atan (y / x) + PI else atan (y / x) - PI)
  else if Rlt_dec 0 y then PI / 2
  else if Rlt_dec y 0 then - (PI / 2)
  else 0.

(** Decimal digits of a natural number, most significant first. *)
Definition digit (d : Z) : ascii := ascii_of_nat (48 + Z.to_nat d).

Fixpoint digits_fuel (fuel : nat) (n : Z) : list ascii :=
  match fuel with
  | O => []
  | S k =>
      if (n <? 10)%Z then [digit n]
      else digits_fuel k (n / 10) ++ [digit (n mod 10)]
  end.

Definition digits (n : Z) : list ascii :=
  digits_fuel (S (Z.to_nat (Z.log2 n))) n.

(** [String(n)] for an integer-valued number [n]. *)
Definition chars_of_int (n : Z) : list ascii :=
  if (n <? 0)%Z then "-"%char :: digits (- n) else digits n.

Definition string_of_int (n : Z) : string :=
  string_of_list_ascii (chars_of_int n).

(** [x.toFixed(f)], ECMAScript 21.1.3.3: [n] is the integer for which
    [n / 10^f - x] is as close to zero as possible, the larger one on a
    tie; its digits are padded with zeros to [f + 1] characters and the
    point is placed before the last [f]. *)
Definition toFixed_int (x : R) (f : nat) : Z :=
  Zfloor (x * 10 ^ f + 1 / 2).

Definition toFixed_chars (x : R) (f : nat) : list ascii :=
  let neg := lt x 0 in
  let ax := if neg then - x else x in
  let n := toFixed_int ax f in
  let m := if (n =? 0)%Z then ["0"%char] else digits n in
  let m :=
    match f with
    | O => m
    | _ =>
        let k := List.length m in
        let m := if (k <=? f)%nat then repeat "0"%char (f + 1 - k) ++ m else m in
        let k := List.length m in
        firstn (k - f) m ++ "."%char :: skipn (k - f) m
    end in
  if neg then "-"%char :: m else m.

Definition toFixed (x : R) (f : nat) : string :=
  string_of_list_ascii (toFixed_chars x f).

(** [parseFloat(x.toFixed(f))]: the number that the fixed notation
    denotes. *)
Definition parseFloat_toFixed (x : R) (f : nat) : R :=
  if lt x 0 then - (IZR (toFixed_int (- x) f) / 10 ^ f)
  else IZR (toFixed_int x f) / 10 ^ f.

(** Completion of a call: a returned value or a thrown error. *)
Inductive completion (A : Type) : Type :=
| Normal (a : A)
| Throw (message : string).
Arguments Normal {A} a.
Arguments Throw {A} message.

(** Computations over a mutable world [W] that may throw. *)
Definition M (W A : Type) : Type := W -> completion A * W.

Definition ret {W A} (a : A) : M W A := fun w => (Normal a, w).

Definition bind {W A B} (m : M W A) (k : A -> M W B) : M W B :=
  fun w =>
    match m w with
    | (Normal a, w') => k a w'
    | (Throw e, w') => (Throw e, w')
    end.

Definition throw {W A} (message : string) : M W A :=
  fun w => (Throw message, w).

End JS.

Notation "x <- m ;; k" := (JS.bind m (fun x => k))
  (at level 61, m at next level, right associativity).

(** ** src/utils/locationUtils.ts *)

Module LocationUtils.

(** Convert degrees to radians. *)
Definition toRad (value : R) : R := value * PI / 180.

(** Haversine distance in miles, rounded to two decimals on return. *)
Definition calculateDistance (lat1 lon1 lat2 lon2 : R) : R :=
  let R_ := 3958.8 in
  let dLat := toRad (lat2 - lat1) in
  let dLon := toRad (lon2 - lon1) in
  let a :=
    sin (dLat / 2) * sin (dLat / 2) +
    cos (toRad lat1) * cos (toRad lat2) *
    sin (dLon / 2) * sin (dLon / 2) in
  let c := 2 * JS.Math_atan2 (sqrt a) (sqrt (1 - a)) in
  let distance := R_ * c in
  JS.parseFloat_toFixed distance 2.

(** Format distance with appropriate units. *)
Definition formatDistance (distance : R) : string :=
  if JS.lt distance 0.1 then
    let feet := JS.Math_round (distance * 5280) in
    (JS.string_of_int feet ++ " ft")%string
  else
    (JS.toFixed distance 1 ++ " mi")%string.

End LocationUtils.

(** ** src/utils/mapUtils.ts, geometric synthesis *)

Module MapUtils.

Record Point : Type := { lat : R; lng : R }.

Record Route : Type := {
  id : string;
  points : list Point;
  distance : R;
  description : string;
  color : string
}.

Section WithRandomSource.

(** [rng n] is the value of the [n]-th call of [Math.random()]; the
    world is the number of draws made so far. *)
Variable rng : nat -> R.

Definition Math_random : JS.M nat R := fun n => (JS.Normal (rng n), S n).

(** Generate a random point at a specific distance from a center point. *)
Definition generatePointAtDistance (centerLat centerLng distance : R)
  : JS.M nat Point :=
  let milesPerDegree := 69 in
  let distanceFraction := distance / milesPerDegree in
  r <- Math_random ;;
  let angle := r * 2 * PI in
  let lat := centerLat + cos angle * distanceFraction in
  let lng :=
    centerLng + sin angle * distanceFraction / cos (centerLat * PI / 180) in
  JS.ret {| lat := lat; lng := lng |}.

(** The waypoint loop of [generateRoute], [n] iterations left. *)
Fixpoint generateRoute_loop (n : nat) (currentLat currentLng : R)
    (intervalDistance : R) (routePoints : list Point)
  : JS.M nat (list Point) :=
  match n with
  | O => JS.ret routePoints
  | S n' =>
      point <- generatePointAtDistance currentLat currentLng intervalDistance ;;
      generateRoute_loop n' (lat point) (lng point) intervalDistance
        (routePoints ++ [point])
  end.

(** Generate a route of a specific distance from a starting point. *)
Definition generateRoute (startLat startLng targetDistance : R)
  : JS.M nat (list Point) :=
  let routePoints := [{| lat := startLat; lng := startLng |}] in
  let numWaypoints := JS.Math_max 3 (JS.Math_floor (targetDistance * 3)) in
  let intervalDistance := targetDistance / IZR numWaypoints in
  routePoints <-
    generateRoute_loop (Z.to_nat (numWaypoints - 1)) startLat startLng
      intervalDistance routePoints ;;
  JS.ret (routePoints ++ [{| lat := startLat; lng := startLng |}]).

Definition colors : list string :=
  ["#1EAEDB"; "#4CD964"; "#9b87f5"]%string.

Definition descriptions : list string :=
  ["Loop around nearby area"; "Scenic neighborhood route";
   "Discover new paths"]%string.

(** [arr[i % arr.length]]. *)
Definition cycled (arr : list string) (i : Z) : string :=
  nth (Z.to_nat (i mod Z.of_nat (List.length arr))) arr EmptyString.

(** The loop of [generateRouteOptions]: [n] iterations left, index [i]. *)
Fixpoint generateRouteOptions_loop (n : nat) (i : Z)
    (startLat startLng targetDistance : R) (routes : list Route)
  : JS.M nat (list Route) :=
  match n with
  | O => JS.ret routes
  | S n' =>
      r <- Math_random ;;
      let variationFactor := 0.95 + r * 0.1 in
      let adjustedDistance := targetDistance * variationFactor in
      routePoints <- generateRoute startLat startLng adjustedDistance ;;
      generateRouteOptions_loop n' (i + 1) startLat startLng targetDistance
        (routes ++
           [{| id := ("route-" ++ JS.string_of_int i)%string;
               points := routePoints;
               distance := adjustedDistance;
               description := cycled descriptions i;
               color := cycled colors i |}])
  end.

(** Generate multiple route options.  [numRoutes] is an integer count
    (3 when the caller omits it). *)
Definition generateRouteOptions (startLat startLng targetDistance : R)
    (numRoutes : Z) : JS.M nat (list Route) :=
  generateRouteOptions_loop (Z.to_nat numRoutes) 0 startLat startLng
    targetDistance [].

End WithRandomSource.

End MapUtils.

(** ** src/utils/mapUtils.ts, directions-assisted synthesis *)

Module MapUtilsDirections.

Import MapUtils.

(** A walking-directions request: the two endpoints of the URL, each as
    longitude then latitude, and the access token. *)
Record Request : Type := {
  fromLng : R; fromLat : R;
  toLng : R; toLat : R;
  access_token : string
}.

(** What [response.json()] yields: unreadable (the promise rejects, or
    the route has no geometry to read), or an object whose [routes] field
    is absent or lists the coordinates ([lng], [lat]) of each route. *)
Inductive Body : Type :=
| Unreadable
| Directions (routes : option (list (list (R * R)))).

(** What [fetch] yields: a rejected promise or a response. *)
Inductive FetchOutcome : Type :=
| NetworkError
| Response (ok : bool) (body : Body).

(** The world: random draws made so far and the requests sent, in order. *)
Record World : Type := { draws : nat; requests : list Request }.

(** [actualDistance]: the sum over consecutive points of the Haversine
    distance, accumulated from the left. *)
Fixpoint actualDistance_loop (prev : Point) (rest : list Point) (acc : R) : R :=
  match rest with
  | [] => acc
  | p :: rest' =>
      actualDistance_loop p rest'
        (acc + LocationUtils.calculateDistance (lat prev) (lng prev) (lat p) (lng p))
  end.

Definition actualDistance (routePoints : list Point) : R :=
  match routePoints with
  | [] => 0
  | p :: rest => actualDistance_loop p rest 0
  end.

Section WithEnvironment.

(** [rng n] is the value of the [n]-th call of [Math.random()]. *)
Variable rng : nat -> R.

(** [service k req]: the outcome of request [req] when [k] requests
    were sent before it. *)
Variable service : nat -> Request -> FetchOutcome.

Definition fetch (req : Request) : JS.M World (bool * Body) :=
  fun w =>
    let w' := {| draws := draws w; requests := requests w ++ [req] |} in
    match service (List.length (requests w)) req with
    | NetworkError => (JS.Throw "TypeError: Failed to fetch", w')
    | Response ok body => (JS.Normal (ok, body), w')
    end.

Definition json (response : bool * Body)
  : JS.M World (option (list (list (R * R)))) :=
  match snd response with
  | Unreadable => JS.throw "SyntaxError"
  | Directions routes => JS.ret routes
  end.

(** Mapbox returns [lng, lat] pairs. *)
Definition toPoint (coord : R * R) : Point :=
  {| lng := fst coord; lat := snd coord |}.

(** The [try] block of [fetchRouteFromMapbox]. *)
Definition fetchRouteFromMapbox_try (startLat startLng targetDistance : R)
    (accessToken : string) (directionBias : R) : JS.M World (list Point) :=
  let milesPerDegree := 69 in
  let distanceFraction := targetDistance * 0.45 / milesPerDegree in
  let destLat := startLat + cos directionBias * distanceFraction in
  let destLng :=
    startLng + sin directionBias * distanceFraction / cos (startLat * PI / 180) in
  response <-
    fetch {| fromLng := startLng; fromLat := startLat;
             toLng := destLng; toLat := destLat;
             access_token := accessToken |} ;;
  if negb (fst response) then JS.throw "Failed to fetch route from Mapbox API"
  else
    data <- json response ;;
    match data with
    | None | Some [] => JS.throw "No routes found"
    | Some (coordinates :: _) =>
        let points := map toPoint coordinates in
        match nth_error points (List.length points - 1) with
        | None => JS.throw "TypeError: points[points.length - 1] is undefined"
        | Some lastPoint =>
            returnResponse <-
              fetch {| fromLng := lng lastPoint; fromLat := lat lastPoint;
                       toLng := startLng; toLat := startLat;
                       access_token := accessToken |} ;;
            if fst returnResponse then
              returnData <- json returnResponse ;;
              match returnData with
              | Some (returnRoute :: _) =>
                  let returnCoordinates := List.tl returnRoute in
                  let returnPoints := map toPoint returnCoordinates in
                  JS.ret (points ++ returnPoints)
              | _ => JS.ret points
              end
            else JS.ret points
        end
    end.

(** Fetch a route using the directions service.  The function calls
    itself from its own [catch] blocks; [fuel] bounds the depth of these
    calls and [None] is returned when it is exhausted. *)
Fixpoint fetchRouteFromMapbox (fuel : nat)
    (startLat startLng targetDistance : R) (accessToken : string)
    (directionBias : R) (w : World)
  : option (JS.completion (list Point)) * World :=
  match fuel with
  | O => (None, w)
  | S fuel' =>
      match
        fetchRouteFromMapbox_try startLat startLng targetDistance
          accessToken directionBias w
      with
      | (JS.Normal points, w1) => (Some (JS.Normal points), w1)
      | (JS.Throw _, w1) =>
          (* Try a different direction (90 degrees rotated) *)
          let newDirection := directionBias + PI / 2 in
          match
            fetchRouteFromMapbox fuel' startLat startLng targetDistance
              accessToken newDirection w1
          with
          | (None, w2) => (None, w2)
          | (Some (JS.Normal points), w2) => (Some (JS.Normal points), w2)
          | (Some (JS.Throw _), w2) =>
              (* Last resort: try with a shorter distance *)
              if JS.gt targetDistance 0.5 then
                match
                  fetchRouteFromMapbox fuel' startLat startLng
                    (targetDistance * 0.7) accessToken (directionBias + PI) w2
                with
                | (None, w3) => (None, w3)
                | (Some (JS.Normal points), w3) =>
                    (Some (JS.Normal points), w3)
                | (Some (JS.Throw _), w3) =>
                    (Some (JS.Normal [{| lat := startLat; lng := startLng |}]), w3)
                end
              else
                (Some (JS.Normal [{| lat := startLat; lng := startLng |}]), w2)
          end
      end
  end.

(** The loop of [generateRouteOptions]: [n] iterations left, index [i]. *)
Fixpoint generateRouteOptions_loop (fuel n : nat) (i : Z)
    (startLat startLng targetDistance : R) (numRoutes : Z)
    (mapboxToken : string) (routes : list Route) (w : World)
  : option (JS.completion (list Route)) * World :=
  match n with
  | O => (Some (JS.Normal routes), w)
  | S n' =>
      let angleStep := 2 * PI / IZR numRoutes in
      (* Math.random() *)
      let r := rng (draws w) in
      let w0 := {| draws := S (draws w); requests := requests w |} in
      let variationFactor := 0.85 + r * 0.3 in
      let adjustedDistance := targetDistance * variationFactor in
      let directionBias := IZR i * angleStep in
      match
        fetchRouteFromMapbox fuel startLat startLng adjustedDistance
          mapboxToken directionBias w0
      with
      | (None, w1) => (None, w1)
      | (Some (JS.Throw _), w1) =>
          (* caught and logged; the route is left out *)
          generateRouteOptions_loop fuel n' (i + 1) startLat startLng
            targetDistance numRoutes mapboxToken routes w1
      | (Some (JS.Normal routePoints), w1) =>
          let routes :=
            if (2 <? List.length routePoints)%nat then
              routes ++
                [{| id := ("route-" ++ JS.string_of_int i)%string;
                    points := routePoints;
                    distance :=
                      JS.parseFloat_toFixed (actualDistance routePoints) 2;
                    description := cycled descriptions i;
                    color := cycled colors i |}]
            else routes in
          generateRouteOptions_loop fuel n' (i + 1) startLat startLng
            targetDistance numRoutes mapboxToken routes w1
      end
  end.

(** Generate multiple route options; [storedToken] is the value of
    [localStorage.getItem('mapbox_token')]. *)
Definition generateRouteOptions (fuel : nat)
    (storedToken : option string)
    (startLat startLng targetDistance : R) (numRoutes : Z) (w : World)
  : option (JS.completion (list Route)) * World :=
  let mapboxToken :=
    match storedToken with
    | Some EmptyString | None => "YOUR_MAPBOX_TOKEN_HERE"%string
    | Some token => token
    end in
  generateRouteOptions_loop fuel (Z.to_nat numRoutes) 0 startLat startLng
    targetDistance numRoutes mapboxToken [] w.

End WithEnvironment.

End MapUtilsDirections.

(** ** src/components/Map.tsx, the location-tracking effect *)

Module MapComponent.

Import MapUtils.

(** The refs of the component that tracking reads and writes. *)
Record Tracker : Type := {
  lastPosition : option Point;
  accumulatedDistance : R;
  watching : bool
}.

(** What a position sample makes the component do. *)
Inductive Effect : Type :=
| SetLngLat (longitude latitude : R)
| EaseTo (longitude latitude : R) (duration : Z)
| OnLocationUpdate (latitude longitude distance : R).

(** The part of the environment that guards these effects: whether the
    marker and the map exist and whether the [onLocationUpdate] prop was
    given. *)
Record Env : Type := {
  userMarker : bool;
  map_ : bool;
  onLocationUpdate : bool
}.

(** The refs as the component creates them. *)
Definition initial : Tracker :=
{| lastPosition := None; accumulatedDistance := 0; watching := false |}.

(** [initializeMap] stores the position the map is centred on. *)
Definition initializeMap (t : Tracker) (latitude longitude : R) : Tracker :=
  {| lastPosition := Some {| lat := latitude; lng := longitude |};
     accumulatedDistance := accumulatedDistance t;
     watching := watching t |}.

(** The body of the tracking effect, run when [isTracking] or the
    callback prop changes. *)
Definition trackingEffect (env : Env) (isTracking : bool) (t : Tracker)
  : Tracker :=
  if negb (map_ env) || negb isTracking then
    {| lastPosition := lastPosition t;
       accumulatedDistance := accumulatedDistance t;
       watching := false |}
  else
    (* Reset accumulated distance when starting tracking *)
    {| lastPosition := lastPosition t;
       accumulatedDistance := 0;
       watching := true |}.

(** The success callback given to [watchPosition]. *)
Definition watchPosition_callback (env : Env) (t : Tracker)
    (latitude longitude : R) : Tracker * list Effect :=
  let e1 := if userMarker env then [SetLngLat longitude latitude] else [] in
  let e2 := if map_ env then [EaseTo longitude latitude 500] else [] in
  let '(acc, e3) :=
    match lastPosition t with
    | Some last =>
        let segmentDistance :=
          LocationUtils.calculateDistance (lat last) (lng last)
            latitude longitude in
        if JS.lt segmentDistance 0.1 then
          let acc := accumulatedDistance t + segmentDistance in
          (acc,
           if onLocationUpdate env
           then [OnLocationUpdate latitude longitude acc] else [])
        else (accumulatedDistance t, [])
    | None => (accumulatedDistance t, [])
    end in
  ({| lastPosition := Some {| lat := latitude; lng := longitude |};
      accumulatedDistance := acc;
      watching := watching t |},
   e1 ++ e2 ++ e3).

(** A stream of samples, delivered in order. *)
Fixpoint deliver (env : Env) (t : Tracker) (samples : list Point)
  : Tracker * list (list Effect) :=
  match samples with
  | [] => (t, [])
  | s :: rest =>
      let '(t1, es) := watchPosition_callback env t (lat s) (lng s) in
      let '(t2, ess) := deliver env t1 rest in
      (t2, es :: ess)
  end.

(** The distance updates among the effects of one sample. *)
Definition reported (es : list Effect) : list R :=
  flat_map (fun e => match e with
                     | OnLocationUpdate _ _ d => [d]
                     | _ => []
                     end) es.

End MapComponent.

(** ** src/pages/Index.tsx, the session controller *)

Module Index.

Import MapUtils.

Inductive Toast : Type :=
| LocationNotAvailable
| StartedTracking (distance : R)
| FailedToGenerateRoutes
| TargetReached (targetDistance : R)
| RunCompleted (currentDistance : R) (runningDuration : Z)
| StartedFollowing.

Inductive Effect : Type :=
| ToastError (t : Toast)
| ToastSuccess (t : Toast)
| ToastInfo (t : Toast)
| Vibrate (pattern : list Z).

(** The state of the page: its [useState] cells, the timer ref and the
    number of random draws made so far. *)
Record State : Type := {
  currentLocation : option Point;
  routes : list Route;
  activeRouteId : option string;
  isLoading : bool;
  showRoutePanel : bool;
  isPanelCollapsed : bool;
  isRunningMode : bool;
  targetDistance : R;
  currentDistance : R;
  runningDuration : Z;
  hasReachedTarget : bool;
  timerRef : bool;
  randomDraws : nat
}.

(** Start timer for run tracking: any previous interval is cleared and a
    new one is installed. *)
Definition startTimer (st : State) : State :=
  {| currentLocation := currentLocation st; routes := routes st;
     activeRouteId := activeRouteId st; isLoading := isLoading st;
     showRoutePanel := showRoutePanel st;
     isPanelCollapsed := isPanelCollapsed st;
     isRunningMode := isRunningMode st;
     targetDistance := targetDistance st;
     currentDistance := currentDistance st;
     runningDuration := runningDuration st;
     hasReachedTarget := hasReachedTarget st;
     timerRef := true; randomDraws := randomDraws st |}.

(** One firing of the interval. *)
Definition tick (st : State) : State :=
  {| currentLocation := currentLocation st; routes := routes st;
     activeRouteId := activeRouteId st; isLoading := isLoading st;
     showRoutePanel := showRoutePanel st;
     isPanelCollapsed := isPanelCollapsed st;
     isRunningMode := isRunningMode st;
     targetDistance := targetDistance st;
     currentDistance := currentDistance st;
     runningDuration := (runningDuration st + 1)%Z;
     hasReachedTarget := hasReachedTarget st;
     timerRef := timerRef st; randomDraws := randomDraws st |}.

(** The state changes shared by the two ways of starting a run. *)
Definition startRun (st : State) (target : R) : State :=
  startTimer
    {| currentLocation := currentLocation st; routes := routes st;
       activeRouteId := activeRouteId st; isLoading := isLoading st;
       showRoutePanel := false;
       isPanelCollapsed := isPanelCollapsed st;
       isRunningMode := true;
       targetDistance := target;
       currentDistance := 0;
       runningDuration := 0;
       hasReachedTarget := false;
       timerRef := timerRef st; randomDraws := randomDraws st |}.

Section WithRandomSource.

Variable rng : nat -> R.

(** Handle distance submission (route finding or target setting). *)
Definition handleDistanceSubmit (st : State) (distance : R)
    (isTargetDistance : bool) : State * list Effect :=
  match currentLocation st with
  | None => (st, [ToastError LocationNotAvailable])
  | Some loc =>
      if isTargetDistance then
        (startRun st distance, [ToastSuccess (StartedTracking distance)])
      else
        match
          generateRouteOptions rng (lat loc) (lng loc) distance 3
            (randomDraws st)
        with
        | (JS.Normal generatedRoutes, n) =>
            ({| currentLocation := currentLocation st;
                routes := generatedRoutes;
                activeRouteId :=
                  match generatedRoutes with
                  | r :: _ => Some (id r)
                  | [] => activeRouteId st
                  end;
                isLoading := false;
                showRoutePanel := true;
                isPanelCollapsed := false;
                isRunningMode := false;
                targetDistance := targetDistance st;
                currentDistance := currentDistance st;
                runningDuration := runningDuration st;
                hasReachedTarget := hasReachedTarget st;
                timerRef := timerRef st; randomDraws := n |},
             [])
        | (JS.Throw _, n) =>
            ({| currentLocation := currentLocation st;
                routes := routes st;
                activeRouteId := activeRouteId st;
                isLoading := false;
                showRoutePanel := showRoutePanel st;
                isPanelCollapsed := isPanelCollapsed st;
                isRunningMode := isRunningMode st;
                targetDistance := targetDistance st;
                currentDistance := currentDistance st;
                runningDuration := runningDuration st;
                hasReachedTarget := hasReachedTarget st;
                timerRef := timerRef st; randomDraws := n |},
             [ToastError FailedToGenerateRoutes])
        end
  end.

End WithRandomSource.

(** The click handler of the button that starts the selected route. *)
Definition startSelectedRoute (st : State) : State * list Effect :=
  match activeRouteId st with
  | None => (st, [])
  | Some rid =>
      match find (fun route => String.eqb (id route) rid) (routes st) with
      | Some selectedRoute =>
          (startRun st (distance selectedRoute), [ToastSuccess StartedFollowing])
      | None => (st, [])
      end
  end.

(** Handle location updates when tracking a run. *)
Definition handleLocationUpdate (st : State) (lat lng distance : R)
  : State * list Effect :=
  let reached :=
    negb (hasReachedTarget st) && JS.ge distance (targetDistance st) in
  ({| currentLocation := currentLocation st; routes := routes st;
      activeRouteId := activeRouteId st; isLoading := isLoading st;
      showRoutePanel := showRoutePanel st;
      isPanelCollapsed := isPanelCollapsed st;
      isRunningMode := isRunningMode st;
      targetDistance := targetDistance st;
      currentDistance := distance;
      runningDuration := runningDuration st;
      hasReachedTarget := if reached then true else hasReachedTarget st;
      timerRef := timerRef st; randomDraws := randomDraws st |},
   if reached then
     [Vibrate [200; 100; 200; 100; 200]%Z;
      ToastSuccess (TargetReached (targetDistance st))]
   else []).

(** [handleLocationUpdate] as the function object that one render makes.
    Its condition reads [hasReachedTarget] and [targetDistance] of the
    render that made it ([closure]); the setters act on the state the page
    has when the function is called ([st]).  Called in the render that
    made it, it is [handleLocationUpdate st]. *)
Definition handleLocationUpdate_of (closure st : State) (lat lng distance : R)
  : State * list Effect :=
  let reached :=
    negb (hasReachedTarget closure)
    && JS.ge distance (targetDistance closure) in
  ({| currentLocation := currentLocation st; routes := routes st;
      activeRouteId := activeRouteId st; isLoading := isLoading st;
      showRoutePanel := showRoutePanel st;
      isPanelCollapsed := isPanelCollapsed st;
      isRunningMode := isRunningMode st;
      targetDistance := targetDistance st;
      currentDistance := distance;
      runningDuration := runningDuration st;
      hasReachedTarget := if reached then true else hasReachedTarget st;
      timerRef := timerRef st; randomDraws := randomDraws st |},
   if reached then
     [Vibrate [200; 100; 200; 100; 200]%Z;
      ToastSuccess (TargetReached (targetDistance closure))]
   else []).

(** Location updates that reach one and the same function object: the
    position watch of the map keeps the [onLocationUpdate] it was started
    with until the tracking effect runs again. *)
Fixpoint handleLocationUpdates_of (closure st : State)
    (updates : list (R * R * R)) : State * list (list Effect) :=
  match updates with
  | [] => (st, [])
  | (lat, lng, distance) :: rest =>
      let '(st1, es) := handleLocationUpdate_of closure st lat lng distance in
      let '(st2, ess) := handleLocationUpdates_of closure st1 rest in
      (st2, es :: ess)
  end.

(** Handle ending a run. *)
Definition handleStopRun (st : State) : State * list Effect :=
  ({| currentLocation := currentLocation st; routes := routes st;
      activeRouteId := activeRouteId st; isLoading := isLoading st;
      showRoutePanel := true;
      isPanelCollapsed := false;
      isRunningMode := false;
      targetDistance := targetDistance st;
      currentDistance := currentDistance st;
      runningDuration := runningDuration st;
      hasReachedTarget := hasReachedTarget st;
      timerRef := false; randomDraws := randomDraws st |},
   [ToastInfo (RunCompleted (currentDistance st) (runningDuration st))]).

(** The location updates of one session, handled in delivery order, each
    by the handler of the render that follows the previous update. *)
Fixpoint handleLocationUpdates (st : State) (updates : list (R * R * R))
  : State * list (list Effect) :=
  match updates with
  | [] => (st, [])
  | (lat, lng, distance) :: rest =>
      let '(st1, es) := handleLocationUpdate st lat lng distance in
      let '(st2, ess) := handleLocationUpdates st1 rest in
      (st2, es :: ess)
  end.

(** Whether the effects of one update include the target-reached
    notification. *)
Definition firesTargetReached (es : list Effect) : bool :=
  existsb (fun e => match e with
                    | ToastSuccess (TargetReached _) => true
                    | _ => false
                    end) es.

End Index.

(** ** src/utils/mapUtils.ts, directions-assisted synthesis with the
    circular fallback *)

Module MapUtilsCircular.

Import MapUtils MapUtilsDirections.

(** The loop of the [catch] block: [n] iterations left, index [i]. *)
Fixpoint fallback_loop (n : nat) (i : Z) (startLat startLng : R)
    (angleStep radius : R) (routePoints : list Point) : list Point :=
  match n with
  | O => routePoints
  | S n' =>
      let angle := IZR i * angleStep in
      let lat := startLat + cos angle * radius in
      let lng := startLng + sin angle * radius / cos (startLat * PI / 180) in
      fallback_loop n' (i + 1) startLat startLng angleStep radius
        (routePoints ++ [{| lat := lat; lng := lng |}])
  end.

(** The [catch] block of [fetchRouteFromMapbox]: a simple circular route. *)
Definition fetchRouteFromMapbox_catch (startLat startLng targetDistance : R)
  : list Point :=
  let routePoints := [{| lat := startLat; lng := startLng |}] in
  let numWaypoints := JS.Math_max 3 (JS.Math_floor (targetDistance * 3)) in
  let angleStep := 2 * PI / IZR numWaypoints in
  let milesPerDegree := 69 in
  let radius := targetDistance / (2 * PI) / milesPerDegree in
  let routePoints :=
    fallback_loop (Z.to_nat numWaypoints) 0 startLat startLng angleStep radius
      routePoints in
  routePoints ++ [{| lat := startLat; lng := startLng |}].

Section WithEnvironment.

(** [rng n] is the value of the [n]-th call of [Math.random()]. *)
Variable rng : nat -> R.

(** [service k req]: the outcome of request [req] when [k] requests
    were sent before it. *)
Variable service : nat -> Request -> FetchOutcome.

Definition Math_random : JS.M World R :=
  fun w =>
    (JS.Normal (rng (draws w)),
     {| draws := S (draws w); requests := requests w |}).

(** The [try] block of [fetchRouteFromMapbox]. *)
Definition fetchRouteFromMapbox_try (startLat startLng targetDistance : R)
    (accessToken : string) : JS.M World (list Point) :=
  r <- Math_random ;;
  let angle := r * 2 * PI in
  let milesPerDegree := 69 in
  let distanceFraction := targetDistance * 0.45 / milesPerDegree in
  let destLat := startLat + cos angle * distanceFraction in
  let destLng :=
    startLng + sin angle * distanceFraction / cos (startLat * PI / 180) in
  response <-
    fetch service
      {| fromLng := startLng; fromLat := startLat;
         toLng := destLng; toLat := destLat;
         access_token := accessToken |} ;;
  if negb (fst response) then JS.throw "Failed to fetch route from Mapbox API"
  else
    data <- json response ;;
    match data with
    | None | Some [] => JS.throw "No routes found"
    | Some (coordinates :: _) =>
        let points := map toPoint coordinates in
        (* For loop routes, add the starting point at the end *)
        JS.ret (if (0 <? List.length points)%nat
                then points ++ [{| lat := startLat; lng := startLng |}]
                else points)
    end.

(** Fetch a route using the directions service, falling back to the
    circular route when the attempt fails. *)
Definition fetchRouteFromMapbox (startLat startLng targetDistance : R)
    (accessToken : string) : JS.M World (list Point) :=
  fun w =>
    match
      fetchRouteFromMapbox_try startLat startLng targetDistance accessToken w
    with
    | (JS.Normal points, w1) => (JS.Normal points, w1)
    | (JS.Throw _, w1) =>
        (JS.Normal (fetchRouteFromMapbox_catch startLat startLng targetDistance),
         w1)
    end.

(** The loop of [generateRouteOptions]: [n] iterations left, index [i]. *)
Fixpoint generateRouteOptions_loop (n : nat) (i : Z)
    (startLat startLng targetDistance : R) (mapboxToken : string)
    (routes : list Route) : JS.M World (list Route) :=
  match n with
  | O => JS.ret routes
  | S n' =>
      fun w =>
        match
          (r <- Math_random ;;
           let variationFactor := 0.85 + r * 0.3 in
           let adjustedDistance := targetDistance * variationFactor in
           routePoints <-
             fetchRouteFromMapbox startLat startLng adjustedDistance
               mapboxToken ;;
           JS.ret
             {| id := ("route-" ++ JS.string_of_int i)%string;
                points := routePoints;
                distance :=
                  JS.parseFloat_toFixed (actualDistance routePoints) 2;
                description := cycled descriptions i;
                color := cycled colors i |}) w
        with
        | (JS.Normal route, w1) =>
            generateRouteOptions_loop n' (i + 1) startLat startLng
              targetDistance mapboxToken (routes ++ [route]) w1
        | (JS.Throw _, w1) =>
            (* caught and logged; the route is left out *)
            generateRouteOptions_loop n' (i + 1) startLat startLng
              targetDistance mapboxToken routes w1
        end
  end.

(** Generate multiple route options; [storedToken] is the value of
    [localStorage.getItem('mapbox_token')]. *)
Definition generateRouteOptions (storedToken : option string)
    (startLat startLng targetDistance : R) (numRoutes : Z)
  : JS.M World (list Route) :=
  let mapboxToken :=
    match storedToken with
    | Some EmptyString | None => "YOUR_MAPBOX_TOKEN_HERE"%string
    | Some token => token
    end in
  generateRouteOptions_loop (Z.to_nat numRoutes) 0 startLat startLng
    targetDistance mapboxToken [].

End WithEnvironment.

End MapUtilsCircular.

(** ** src/pages/Index.tsx, route selection *)

Module IndexHandlers.

(** Handle route selection. *)
Definition handleRouteSelect (st : Index.State) (routeId : string)
  : Index.State :=
  {| Index.currentLocation := Index.currentLocation st;
     Index.routes := Index.routes st;
     Index.activeRouteId := Some routeId;
     Index.isLoading := Index.isLoading st;
     Index.showRoutePanel := Index.showRoutePanel st;
     Index.isPanelCollapsed := Index.isPanelCollapsed st;
     Index.isRunningMode := Index.isRunningMode st;
     Index.targetDistance := Index.targetDistance st;
     Index.currentDistance := Index.currentDistance st;
     Index.runningDuration := Index.runningDuration st;
     Index.hasReachedTarget := Index.hasReachedTarget st;
     Index.timerRef := Index.timerRef st;
     Index.randomDraws := Index.randomDraws st |}.

End IndexHandlers.

(** ** src/components/RunningStats.tsx *)

Module RunningStats.

(** [s.padStart(2, '0')]. *)
Definition padStart2 (chars : list ascii) : list ascii :=
  repeat "0"%char (2 - List.length chars) ++ chars.

(** Format duration as MM:SS; [seconds] is an integer count. *)
Definition formatDuration (seconds : Z) : string :=
  let mins := (seconds / 60)%Z in
  let secs := Z.rem seconds 60 in
  string_of_list_ascii
    (padStart2 (JS.chars_of_int mins) ++ ":"%char
     :: padStart2 (JS.chars_of_int secs)).

(** The width of the progress bar, in percent. *)
Definition progress (distance targetDistance : R) : R :=
  Rmin (distance / targetDistance * 100) 100.

End RunningStats.

(** ** src/components/DistanceInput.tsx *)

Module DistanceInput.

Record State : Type := { distance : R; isTargetMode : bool }.

(** The state as the component creates it. *)
Definition initial : State := {| distance := 1; isTargetMode := false |}.

(** The change handler of the number field; [value] is
    [parseFloat(e.target.value)], [None] when that is NaN. *)
Definition handleInputChange (st : State) (value : option R) : State :=
  match value with
  | Some v =>
      if JS.gt v 0 then
        {| distance := Rmin (Rmax v 0.1) 10; isTargetMode := isTargetMode st |}
      else st
  | None => st
  end.

Definition toggleMode (st : State) : State :=
  {| distance := distance st; isTargetMode := negb (isTargetMode st) |}.

(** The arguments [handleSubmit] passes to [onDistanceSubmit]. *)
Definition handleSubmit (st : State) : R * bool :=
  (distance st, isTargetMode st).

(** What the user does to the form, the slider apart. *)
Inductive Event : Type :=
| InputChange (value : option R)
| ToggleMode.

Definition handle (st : State) (e : Event) : State :=
  match e with
  | InputChange value => handleInputChange st value
  | ToggleMode => toggleMode st
  end.

End DistanceInput.

(** ** src/pages/Index.tsx rendering src/components/Map.tsx *)

Module Page.

Import MapUtils.

(** The page and the refs of the map component it renders with
    [isTracking={isRunningMode}] and
    [onLocationUpdate={handleLocationUpdate}]. *)
Record State : Type := {
  index : Index.State;
  tracker : MapComponent.Tracker
}.

(** A render of the page after a state change.  [handleLocationUpdate] is
    a new function in every render, so the tracking effect of the map,
    whose dependencies are [isTracking] and [onLocationUpdate], runs
    again. *)
Definition render (env : MapComponent.Env) (st : Index.State)
    (t : MapComponent.Tracker) : State :=
  {| index := st;
     tracker := MapComponent.trackingEffect env (Index.isRunningMode st) t |}.

(** The interval fires: [setRunningDuration(prev => prev + 1)]. *)
Definition onTick (env : MapComponent.Env) (p : State) : State :=
  if Index.timerRef (index p)
  then render env (Index.tick (index p)) (tracker p)
  else p.

(** The position watch delivers a sample.  The page renders again when
    the handler changes its state: a new [currentDistance], or the
    target-reached flag. *)
Definition onPosition (env : MapComponent.Env) (p : State)
    (latitude longitude : R) : State * list Index.Effect :=
  if MapComponent.watching (tracker p) then
    let '(t1, effects) :=
      MapComponent.watchPosition_callback env (tracker p) latitude longitude in
    match MapComponent.reported effects with
    | d :: _ =>
        let '(st1, shown) :=
          Index.handleLocationUpdate (index p) latitude longitude d in
        if Req_dec_T (Index.currentDistance (index p)) d then
          if Index.firesTargetReached shown
          then (render env st1 t1, shown)
          else ({| index := st1; tracker := t1 |}, shown)
        else (render env st1 t1, shown)
    | [] => ({| index := index p; tracker := t1 |}, [])
    end
  else (p, []).

Inductive Event : Type :=
| Tick
| Position (latitude longitude : R).

Definition handle (env : MapComponent.Env) (p : State) (e : Event)
  : State * list Index.Effect :=
  match e with
  | Tick => (onTick env p, [])
  | Position latitude longitude => onPosition env p latitude longitude
  end.

(** The stop button: [handleStopRun], then the render it causes. *)
Definition onStop (env : MapComponent.Env) (p : State)
  : State * list Index.Effect :=
  let '(st1, shown) := Index.handleStopRun (index p) in
  (render env st1 (tracker p), shown).

(** Events handled one at a time, each with the render it causes. *)
Fixpoint run (env : MapComponent.Env) (p : State) (events : list Event)
  : State * list Index.Effect :=
  match events with
  | [] => (p, [])
  | e :: rest =>
      let '(p1, es) := handle env p e in
      let '(p2, es') := run env p1 rest in
      (p2, es ++ es')
  end.

End Page.

(** ** Vocabulary of the statements *)

Module Spec.

Import MapUtils.

(** What [generateRouteOptions] records in a route: the distance field is
    the target scaled by the variation factor of some draw, and the points
    are those [generateRoute] makes for that scaled distance. *)
Definition route_as_generated (rng : nat -> R)
    (startLat startLng targetDistance : R) (r : Route) : Prop :=
  exists m m',
    distance r = targetDistance * (0.95 + rng m * 0.1)
    /\ generateRoute rng startLat startLng (distance r) (S m)
       = (JS.Normal (points r), m').

(** A polyline of at least four points that starts and ends at [o]. *)
Definition closed_loop_from (o : Point) (pts : list Point) : Prop :=
  (4 <= List.length pts)%nat
  /\ nth_error pts 0 = Some o
  /\ nth_error pts (List.length pts - 1) = Some o.

(** The distances between consecutive points as [calculateDistance]
    returns them: rounded to hundredths of a mile. *)
Fixpoint segments (ps : list Point) : list R :=
  match ps with
  | [] => []
  | p :: rest =>
      match rest with
      | [] => []
      | q :: _ =>
          LocationUtils.calculateDistance (lat p) (lng p) (lat q) (lng q)
          :: segments rest
      end
  end.

Definition Rsum (l : list R) : R := fold_right Rplus 0 l.

(** What the first sample after a reset adds: its distance from the
    position the tracker still holds, when there is one and the distance
    passes the jump filter. *)
Definition first_contribution (held : option Point) (samples : list Point)
  : R :=
  match held, samples with
  | Some p, s :: _ =>
      let d := LocationUtils.calculateDistance (lat p) (lng p) (lat s) (lng s) in
      if JS.lt d 0.1 then d else 0
  | _, _ => 0
  end.

(** The Haversine distance between two positions in miles, as
    [calculateDistance] has it before it rounds: [R * c]. *)
Definition haversine (lat1 lon1 lat2 lon2 : R) : R :=
  let dLat := LocationUtils.toRad (lat2 - lat1) in
  let dLon := LocationUtils.toRad (lon2 - lon1) in
  let a :=
    sin (dLat / 2) * sin (dLat / 2) +
    cos (LocationUtils.toRad lat1) * cos (LocationUtils.toRad lat2) *
    sin (dLon / 2) * sin (dLon / 2) in
  3958.8 * (2 * JS.Math_atan2 (sqrt a) (sqrt (1 - a))).

(** A distance rounded to hundredths of a mile, as [calculateDistance]
    returns it. *)
Definition hundredths (x : R) : R := JS.parseFloat_toFixed x 2.

(** The distances between consecutive points, not rounded. *)
Fixpoint segment_distances (ps : list Point) : list R :=
  match ps with
  | [] => []
  | p :: rest =>
      match rest with
      | [] => []
      | q :: _ =>
          haversine (lat p) (lng p) (lat q) (lng q) :: segment_distances rest
      end
  end.

(** What the first sample of a session adds.  Nothing when no position
    is held.  When one is held: the distance from it, rounded to
    hundredths, if that distance is below 0.095 miles, and nothing
    otherwise. *)
Definition first_sample_adds (held : option Point) (samples : list Point)
  : R :=
  match held, samples with
  | Some p, s :: _ =>
      let d := haversine (lat p) (lng p) (lat s) (lng s) in
      if JS.lt d 0.095 then hundredths d else 0
  | _, _ => 0
  end.

(** The update at index [i] is the first whose distance reaches the
    target. *)
Definition first_crossing (target : R) (ds : list R) (i : nat) : Prop :=
  exists d,
    nth_error ds i = Some d /\ target <= d
    /\ forall j d', (j < i)%nat -> nth_error ds j = Some d' -> d' < target.

(** The outbound request of an attempt in direction [bias]: from the
    origin to the point at 0.45 of the target distance. *)
Definition outbound (startLat startLng targetDistance : R)
    (accessToken : string) (bias : R) : MapUtilsDirections.Request :=
  {| MapUtilsDirections.fromLng := startLng;
     MapUtilsDirections.fromLat := startLat;
     MapUtilsDirections.toLng :=
       startLng + sin bias * (targetDistance * 0.45 / 69)
                  / cos (startLat * PI / 180);
     MapUtilsDirections.toLat :=
       startLat + cos bias * (targetDistance * 0.45 / 69);
     MapUtilsDirections.access_token := accessToken |}.

(** A directions service that answers no request with a usable
    response: the connection fails or the status is an error. *)
Definition service_down
    (service : nat -> MapUtilsDirections.Request
               -> MapUtilsDirections.FetchOutcome) : Prop :=
  forall k req,
    service k req = MapUtilsDirections.NetworkError
    \/ exists body, service k req = MapUtilsDirections.Response false body.

(** A tracking session has been started with [target] and the target has
    not been reached in it yet. *)
Definition session_started (st : Index.State) (target : R) : Prop :=
  Index.isRunningMode st = true
  /\ Index.hasReachedTarget st = false
  /\ Index.targetDistance st = target.

(** What the directions-assisted [generateRouteOptions] records in a
    route: the distance measured on its points, of which there are at
    least three. *)
Definition route_as_measured (r : Route) : Prop :=
  distance r
  = JS.parseFloat_toFixed (MapUtilsDirections.actualDistance (points r)) 2
  /\ (2 < List.length (points r))%nat.

(** The number that a string of decimal digits denotes. *)
Definition decimal_value (l : list ascii) : Z :=
  fold_left
    (fun acc c => (10 * acc + (Z.of_nat (nat_of_ascii c) - 48))%Z) l 0%Z.

(** The point [p] lies [radiusMiles] from the start in the approximation
    the synthesizers use: 69 miles to a degree, longitudes shrunk by the
    cosine of the start latitude. *)
Definition on_circle (startLat startLng radiusMiles : R) (p : Point) : Prop :=
  (69 * (lat p - startLat)) ^ 2
  + (69 * cos (startLat * PI / 180) * (lng p - startLng)) ^ 2
  = radiusMiles ^ 2.

(** An outcome that makes the attempt fail at its first request. *)
Definition refuses (o : MapUtilsDirections.FetchOutcome) : Prop :=
  o = MapUtilsDirections.NetworkError
  \/ exists body, o = MapUtilsDirections.Response false body.

(** The request for the way back from [lastPoint] to the origin. *)
Definition return_leg (startLat startLng : R) (accessToken : string)
    (lastPoint : Point) : MapUtilsDirections.Request :=
  {| MapUtilsDirections.fromLng := lng lastPoint;
     MapUtilsDirections.fromLat := lat lastPoint;
     MapUtilsDirections.toLng := startLng;
     MapUtilsDirections.toLat := startLat;
     MapUtilsDirections.access_token := accessToken |}.

(** The world after [reqs] were sent. *)
Definition sent (w : MapUtilsDirections.World)
    (reqs : list MapUtilsDirections.Request) : MapUtilsDirections.World :=
  {| MapUtilsDirections.draws := MapUtilsDirections.draws w;
     MapUtilsDirections.requests := MapUtilsDirections.requests w ++ reqs |}.

(** Attempts repeated a quarter turn further on until one succeeds, and
    nothing else: no shorter distance, no origin-only result. *)
Fixpoint rotate_until_success
    (service : nat -> MapUtilsDirections.Request
               -> MapUtilsDirections.FetchOutcome)
    (fuel : nat) (startLat startLng targetDistance : R) (accessToken : string)
    (directionBias : R) (w : MapUtilsDirections.World)
  : option (list Point) * MapUtilsDirections.World :=
  match fuel with
  | O => (None, w)
  | S fuel' =>
      match
        MapUtilsDirections.fetchRouteFromMapbox_try service startLat startLng
          targetDistance accessToken directionBias w
      with
      | (JS.Normal points, w1) => (Some points, w1)
      | (JS.Throw _, w1) =>
          rotate_until_success service fuel' startLat startLng targetDistance
            accessToken (directionBias + PI / 2) w1
      end
  end.

(** Samples that follow one another on a meridian, each at most 0.00005
    degrees (about 18 feet) from the one before. *)
Fixpoint small_steps (prev : Point) (samples : list Point) : Prop :=
  match samples with
  | [] => True
  | s :: rest =>
      lng s = lng prev
      /\ Rabs (lat s - lat prev) <= 0.00005
      /\ small_steps s rest
  end.

(** What holds of the page throughout a run: the distance shown is below
    0.2 miles, and the accumulator of the map is either zero or equal to
    a distance shown that is below 0.1 miles. *)
Definition page_inv (p : Page.State) : Prop :=
  Index.isRunningMode (Page.index p) = true
  /\ Index.currentDistance (Page.index p) < 0.2
  /\ (MapComponent.accumulatedDistance (Page.tracker p) = 0
      \/ (MapComponent.accumulatedDistance (Page.tracker p)
          = Index.currentDistance (Page.index p)
          /\ Index.currentDistance (Page.index p) < 0.1)).

(** From [p] to [p'] the target is kept and, when it is 0.2 miles or
    more, it is not reached and [shown] does not announce it. *)
Definition quiet (p p' : Page.State) (shown : list Index.Effect) : Prop :=
  Index.targetDistance (Page.index p') = Index.targetDistance (Page.index p)
  /\ (0.2 <= Index.targetDistance (Page.index p) ->
      Index.hasReachedTarget (Page.index p')
      = Index.hasReachedTarget (Page.index p)
      /\ Index.firesTargetReached shown = false).

End Spec.

(** * Properties *)

(** ** Conditions and rounding *)

Lemma lt_true (x y : R) : JS.lt x y = true <-> x < y.
Proof. unfold JS.lt; destruct (Rlt_dec x y); split; intros; try easy. Qed.

Lemma lt_false (x y : R) : JS.lt x y = false <-> y <= x.
Proof.
  unfold JS.lt; destruct (Rlt_dec x y); split; intros; try easy; lra.
Qed.

Lemma ge_true (x y : R) : JS.ge x y = true <-> y <= x.
Proof. unfold JS.ge; destruct (Rle_dec y x); split; intros; try easy. Qed.

Lemma ge_false (x y : R) : JS.ge x y = false <-> x < y.
Proof.
  unfold JS.ge; destruct (Rle_dec y x); split; intros; try easy; lra.
Qed.

(** Rounding a non-negative number to two decimals moves it by at most
    half a hundredth and yields a whole number of hundredths. *)
Lemma parseFloat_toFixed2_nonneg (x : R) :
  0 <= x ->
  exists n : Z,
    JS.parseFloat_toFixed x 2 = IZR n / 100 /\
    (0 <= n)%Z /\
    x - 1 / 200 < IZR n / 100 <= x + 1 / 200.
Proof.
  intros Hx. unfold JS.parseFloat_toFixed.
  assert (Hlt : JS.lt x 0 = false) by (apply lt_false; lra).
  rewrite Hlt. unfold JS.toFixed_int.
  replace (10 ^ 2) with 100 by (simpl; lra).
  set (n := Zfloor (x * 100 + 1 / 2)).
  pose proof (Zfloor_bound (x * 100 + 1 / 2)) as Hb. fold n in Hb.
  exists n. split; [reflexivity|]. split.
  - apply Zfloor_lub. simpl. lra.
  - lra.
Qed.

(** ** The Haversine distance along a meridian *)

Lemma atan2_pos_x (y x : R) : 0 < x -> JS.Math_atan2 y x = atan (y / x).
Proof. intros H. unfold JS.Math_atan2. destruct (Rlt_dec 0 x); easy. Qed.

Lemma atan2_sin_cos (h : R) :
  0 <= h < PI / 2 -> JS.Math_atan2 (sin h) (cos h) = h.
Proof.
  intros [H0 H1].
  assert (Hc : 0 < cos h) by (apply cos_gt_0; lra).
  rewrite atan2_pos_x by exact Hc.
  change (sin h / cos h) with (tan h).
  apply atan_tan. lra.
Qed.

Lemma atan2_first_quadrant (y x : R) :
  0 <= y -> 0 <= x -> 0 <= JS.Math_atan2 y x <= PI / 2.
Proof.
  intros Hy Hx. unfold JS.Math_atan2. pose proof PI_RGT_0 as Hpi.
  destruct (Rlt_dec 0 x) as [Hpos|Hnpos].
  - assert (Hq : 0 <= y / x).
    { unfold Rdiv. apply Rmult_le_pos; [exact Hy|].
      left. apply Rinv_0_lt_compat. exact Hpos. }
    pose proof (atan_bound (y / x)) as [_ Hub].
    split; [|lra].
    destruct Hq as [Hq|Hq].
    + pose proof (atan_increasing 0 (y / x) Hq) as H. rewrite atan_0 in H. lra.
    + rewrite <- Hq, atan_0. lra.
  - destruct (Rlt_dec x 0) as [Hneg|_]; [lra|].
    destruct (Rlt_dec 0 y) as [_|_]; [lra|].
    destruct (Rlt_dec y 0) as [Hyn|_]; lra.
Qed.

Lemma haversine_central_angle (h : R) :
  - (PI / 2) < h < PI / 2 ->
  2 * JS.Math_atan2 (sqrt (sin h * sin h)) (sqrt (1 - sin h * sin h))
  = 2 * Rabs h.
Proof.
  intros [Hl Hu].
  assert (Hcos : 0 < cos h) by (apply cos_gt_0; lra).
  assert (E1 : 1 - sin h * sin h = cos h * cos h).
  { pose proof (sin2_cos2 h) as E. unfold Rsqr in E. lra. }
  rewrite E1, (sqrt_square (cos h)) by lra.
  f_equal.
  destruct (Rle_dec 0 h) as [Hpos | Hneg].
  - rewrite Rabs_pos_eq by exact Hpos.
    rewrite sqrt_square by (apply sin_ge_0; pose proof PI_RGT_0; lra).
    apply atan2_sin_cos. lra.
  - assert (Hh : h < 0) by lra.
    rewrite Rabs_left by exact Hh.
    replace (sin h * sin h) with (sin (- h) * sin (- h))
      by (rewrite sin_neg; ring).
    rewrite sqrt_square by (apply sin_ge_0; pose proof PI_RGT_0; lra).
    rewrite <- (cos_neg h).
    apply atan2_sin_cos. lra.
Qed.

Lemma calculateDistance_meridian (lat1 lat2 lon : R) :
  Rabs (lat2 - lat1) < 180 ->
  LocationUtils.calculateDistance lat1 lon lat2 lon
  = JS.parseFloat_toFixed (3958.8 * (Rabs (lat2 - lat1) * PI / 180)) 2.
Proof.
  intros Hd. unfold LocationUtils.calculateDistance, LocationUtils.toRad.
  cbv zeta.
  replace ((lon - lon) * PI / 180 / 2) with 0 by lra.
  rewrite sin_0.
  set (h := (lat2 - lat1) * PI / 180 / 2).
  replace (sin h * sin h + cos (lat1 * PI / 180) * cos (lat2 * PI / 180) * 0 * 0)
    with (sin h * sin h) by ring.
  assert (Hh : - (PI / 2) < h < PI / 2).
  { pose proof PI_RGT_0 as Hpi. unfold h.
    apply Rabs_def2 in Hd. destruct Hd as [Hd1 Hd2]. split; nra. }
  rewrite haversine_central_angle by exact Hh.
  f_equal. f_equal.
  unfold h.
  replace ((lat2 - lat1) * PI / 180 / 2) with ((lat2 - lat1) * (PI / 360)) by lra.
  rewrite Rabs_mult.
  rewrite (Rabs_pos_eq (PI / 360)) by (pose proof PI_RGT_0; lra).
  lra.
Qed.

Lemma PI_gt_3 : 3 < PI.
Proof. pose proof PI2_3_2. lra. Qed.

(** A meridian segment is at least [3958.8 * d * 3 / 180] miles long
    before rounding, and at most [3958.8 * d * 4 / 180]. *)
Lemma calculateDistance_meridian_lower (lat1 lat2 lon : R) :
  Rabs (lat2 - lat1) < 180 ->
  3958.8 * Rabs (lat2 - lat1) / 60 - 1 / 200
  < LocationUtils.calculateDistance lat1 lon lat2 lon.
Proof.
  intros Hd. rewrite calculateDistance_meridian by exact Hd.
  pose proof PI_gt_3 as Hpi. pose proof (Rabs_pos (lat2 - lat1)) as Ha.
  destruct (parseFloat_toFixed2_nonneg (3958.8 * (Rabs (lat2 - lat1) * PI / 180)))
    as [n [E [_ [Hlo _]]]]; [nra|].
  rewrite E. nra.
Qed.

Lemma calculateDistance_meridian_upper (lat1 lat2 lon : R) :
  Rabs (lat2 - lat1) < 180 ->
  LocationUtils.calculateDistance lat1 lon lat2 lon
  <= 3958.8 * Rabs (lat2 - lat1) / 45 + 1 / 200.
Proof.
  intros Hd. rewrite calculateDistance_meridian by exact Hd.
  pose proof PI_4 as Hpi. pose proof PI_RGT_0 as Hpi0.
  pose proof (Rabs_pos (lat2 - lat1)) as Ha.
  destruct (parseFloat_toFixed2_nonneg (3958.8 * (Rabs (lat2 - lat1) * PI / 180)))
    as [n [E [_ [_ Hhi]]]]; [nra|].
  rewrite E. nra.
Qed.

(** A thousandth of a degree along a meridian is between 0.06 and 0.1
    miles; a whole degree is far more than 0.1 miles. *)
Lemma short_hop (lat1 lat2 lon : R) :
  Rabs (lat2 - lat1) = 0.001 ->
  0.06 < LocationUtils.calculateDistance lat1 lon lat2 lon < 0.1.
Proof.
  intros E.
  pose proof (calculateDistance_meridian_lower lat1 lat2 lon) as Hlo.
  pose proof (calculateDistance_meridian_upper lat1 lat2 lon) as Hhi.
  rewrite E in Hlo, Hhi.
  specialize (Hlo ltac:(lra)). specialize (Hhi ltac:(lra)). lra.
Qed.

Lemma long_jump (lat1 lat2 lon : R) :
  Rabs (lat2 - lat1) = 1 ->
  0.1 <= LocationUtils.calculateDistance lat1 lon lat2 lon.
Proof.
  intros E.
  pose proof (calculateDistance_meridian_lower lat1 lat2 lon) as Hlo.
  rewrite E in Hlo. specialize (Hlo ltac:(lra)). lra.
Qed.

(** ** Distances before and after rounding *)

Lemma PI_between : 3.1 < PI < 3.24.
Proof.
  pose proof (PI_2_3_7_ineq 0) as H.
  unfold sum_f_R0, tg_alt, PI_2_3_7_tg, Ratan_seq in H.
  simpl in H. lra.
Qed.

Lemma calculateDistance_rounds (lat1 lon1 lat2 lon2 : R) :
  LocationUtils.calculateDistance lat1 lon1 lat2 lon2
  = Spec.hundredths (Spec.haversine lat1 lon1 lat2 lon2).
Proof. reflexivity. Qed.

Lemma haversine_nonneg (lat1 lon1 lat2 lon2 : R) :
  0 <= Spec.haversine lat1 lon1 lat2 lon2.
Proof.
  unfold Spec.haversine. cbv zeta.
  match goal with
  | |- context [JS.Math_atan2 (sqrt ?a) (sqrt ?b)] =>
      pose proof (atan2_first_quadrant (sqrt a) (sqrt b)
                    (sqrt_pos a) (sqrt_pos b)) as [Hlo _]
  end.
  lra.
Qed.

Lemma hundredths_close (x : R) :
  0 <= x -> Rabs (Spec.hundredths x - x) <= 0.005.
Proof.
  intros Hx. unfold Spec.hundredths.
  destruct (parseFloat_toFixed2_nonneg x Hx) as [n [E [_ [Hlo Hhi]]]].
  rewrite E. apply Rabs_le. lra.
Qed.

Lemma hundredths_zero (x : R) :
  0 <= x -> x < 0.005 -> Spec.hundredths x = 0.
Proof.
  intros Hx Hs. unfold Spec.hundredths.
  destruct (parseFloat_toFixed2_nonneg x Hx) as [n [E [Hn [Hlo Hhi]]]].
  rewrite E.
  assert (Hlt : (n < 1)%Z) by (apply lt_IZR; lra).
  assert (n = 0%Z) by lia. subst n. lra.
Qed.

Lemma hundredths_below_tenth (x : R) :
  0 <= x -> (Spec.hundredths x < 0.1 <-> x < 0.095).
Proof.
  intros Hx. unfold Spec.hundredths.
  destruct (parseFloat_toFixed2_nonneg x Hx) as [n [E [Hn [Hlo Hhi]]]].
  rewrite E. split; intros H.
  - destruct (Rlt_dec x 0.095) as [Hs|Hs]; [exact Hs|].
    assert (Hgt : (9 < n)%Z) by (apply lt_IZR; lra).
    assert (Hge : (10 <= n)%Z) by lia. apply IZR_le in Hge. lra.
  - lra.
Qed.

Lemma segments_rounded (ps : list MapUtils.Point) :
  Spec.segments ps = map Spec.hundredths (Spec.segment_distances ps).
Proof.
  induction ps as [|p rest IH]; [reflexivity|].
  destruct rest as [|q rest]; [reflexivity|].
  change (Spec.segments (p :: q :: rest))
    with (LocationUtils.calculateDistance (MapUtils.lat p) (MapUtils.lng p)
            (MapUtils.lat q) (MapUtils.lng q) :: Spec.segments (q :: rest)).
  change (Spec.segment_distances (p :: q :: rest))
    with (Spec.haversine (MapUtils.lat p) (MapUtils.lng p)
            (MapUtils.lat q) (MapUtils.lng q)
          :: Spec.segment_distances (q :: rest)).
  cbn [map]. rewrite IH. reflexivity.
Qed.

Lemma segment_distances_nonneg (ps : list MapUtils.Point) :
  Forall (fun d => 0 <= d) (Spec.segment_distances ps).
Proof.
  induction ps as [|p rest IH]; [constructor|].
  destruct rest as [|q rest]; [constructor|].
  change (Spec.segment_distances (p :: q :: rest))
    with (Spec.haversine (MapUtils.lat p) (MapUtils.lng p)
            (MapUtils.lat q) (MapUtils.lng q)
          :: Spec.segment_distances (q :: rest)).
  constructor; [apply haversine_nonneg | exact IH].
Qed.

Lemma first_contribution_rounded (held : option MapUtils.Point)
    (samples : list MapUtils.Point) :
  Spec.first_contribution held samples = Spec.first_sample_adds held samples.
Proof.
  destruct held as [p|], samples as [|s rest]; try reflexivity.
  cbn [Spec.first_contribution Spec.first_sample_adds]. cbv zeta.
  rewrite calculateDistance_rounds.
  set (d := Spec.haversine _ _ _ _).
  pose proof (haversine_nonneg (MapUtils.lat p) (MapUtils.lng p)
                (MapUtils.lat s) (MapUtils.lng s)) as Hd. fold d in Hd.
  destruct (JS.lt d 0.095) eqn:E.
  - apply lt_true in E.
    assert (H : JS.lt (Spec.hundredths d) 0.1 = true)
      by (apply lt_true, hundredths_below_tenth; assumption).
    rewrite H. reflexivity.
  - apply lt_false in E.
    assert (H : JS.lt (Spec.hundredths d) 0.1 = false).
    { apply lt_false. destruct (Rlt_dec (Spec.hundredths d) 0.1) as [C|C]; [|lra].
      apply hundredths_below_tenth in C; [lra | exact Hd]. }
    rewrite H. reflexivity.
Qed.

Lemma haversine_meridian (lat1 lat2 lon : R) :
  Rabs (lat2 - lat1) < 180 ->
  Spec.haversine lat1 lon lat2 lon = 3958.8 * (Rabs (lat2 - lat1) * PI / 180).
Proof.
  intros Hd. unfold Spec.haversine, LocationUtils.toRad. cbv zeta.
  replace ((lon - lon) * PI / 180 / 2) with 0 by lra.
  rewrite sin_0.
  set (h := (lat2 - lat1) * PI / 180 / 2).
  replace (sin h * sin h + cos (lat1 * PI / 180) * cos (lat2 * PI / 180) * 0 * 0)
    with (sin h * sin h) by ring.
  assert (Hh : - (PI / 2) < h < PI / 2).
  { unfold h. pose proof PI_RGT_0 as Hpi.
    apply Rabs_def2 in Hd. destruct Hd as [Hd1 Hd2]. split; nra. }
  rewrite (haversine_central_angle h Hh).
  unfold h. pose proof PI_RGT_0 as Hpi.
  replace ((lat2 - lat1) * PI / 180 / 2) with ((lat2 - lat1) * (PI / 360)) by lra.
  rewrite Rabs_mult, (Rabs_pos_eq (PI / 360)) by lra. lra.
Qed.

Lemma hundredths_of_segments (ds : list R) :
  Forall (fun d => 0 <= d) ds ->
  Forall2 (fun d r => Rabs (r - d) <= 0.005 /\ (d < 0.005 -> r = 0))
    ds (map Spec.hundredths ds).
Proof.
  induction 1 as [|d l Hd Hl IH]; cbn [map]; constructor; [|exact IH].
  split; [apply hundredths_close; exact Hd|].
  intros Hs. apply hundredths_zero; assumption.
Qed.

Lemma accepted_segments (ds : list R) :
  Forall (fun d => 0 <= d) ds ->
  Forall (fun d => d < 0.095) ds ->
  Forall (fun r => r < 0.1) (map Spec.hundredths ds).
Proof.
  induction 1 as [|d l Hd Hl IH]; intros Hall; cbn [map]; [constructor|].
  inversion Hall as [|? ? H1 H2]; subst.
  constructor; [apply hundredths_below_tenth; assumption | apply IH; exact H2].
Qed.

(** ** Decimal rendering *)

Lemma digits_fuel_stable (f1 : nat) :
  forall (f2 : nat) (n : Z),
  (0 <= n < 2 ^ Z.of_nat (S f1))%Z -> (n < 2 ^ Z.of_nat (S f2))%Z ->
  JS.digits_fuel (S f1) n = JS.digits_fuel (S f2) n.
Proof.
  induction f1 as [|f1 IH]; intros f2 n H1 H2.
  - change (2 ^ Z.of_nat 1)%Z with 2%Z in H1.
    cbn [JS.digits_fuel].
    assert (E : (n <? 10)%Z = true) by (apply Z.ltb_lt; lia).
    rewrite E. reflexivity.
  - destruct f2 as [|f2].
    + change (2 ^ Z.of_nat 1)%Z with 2%Z in H2.
      cbn [JS.digits_fuel].
      assert (E : (n <? 10)%Z = true) by (apply Z.ltb_lt; lia).
      rewrite E. reflexivity.
    + rewrite (Nat2Z.inj_succ (S f1)), Z.pow_succ_r in H1 by lia.
      rewrite (Nat2Z.inj_succ (S f2)), Z.pow_succ_r in H2 by lia.
      change (JS.digits_fuel (S (S f1)) n)
        with (if (n <? 10)%Z then [JS.digit n]
              else JS.digits_fuel (S f1) (n / 10) ++ [JS.digit (n mod 10)]).
      change (JS.digits_fuel (S (S f2)) n)
        with (if (n <? 10)%Z then [JS.digit n]
              else JS.digits_fuel (S f2) (n / 10) ++ [JS.digit (n mod 10)]).
      destruct (n <? 10)%Z eqn:E; [reflexivity|].
      apply Z.ltb_ge in E. f_equal.
      apply IH.
      * split; [apply Z.div_pos; lia|].
        apply Z.div_lt_upper_bound; lia.
      * apply Z.div_lt_upper_bound; lia.
Qed.

Lemma digits_fuel_bound (n : Z) :
  (0 <= n)%Z -> (n < 2 ^ Z.of_nat (S (Z.to_nat (Z.log2 n))))%Z.
Proof.
  intros H. rewrite Nat2Z.inj_succ, Z2Nat.id by apply Z.log2_nonneg.
  destruct (Z.eq_dec n 0) as [->|Hn]; [cbn; lia|].
  apply Z.log2_spec. lia.
Qed.

Lemma digits_small (n : Z) : (n < 10)%Z -> JS.digits n = [JS.digit n].
Proof.
  intros H. unfold JS.digits. cbn [JS.digits_fuel].
  apply Z.ltb_lt in H. rewrite H. reflexivity.
Qed.

Lemma digits_step (n : Z) :
  (10 <= n)%Z -> JS.digits n = JS.digits (n / 10) ++ [JS.digit (n mod 10)].
Proof.
  intros H. unfold JS.digits at 1.
  assert (Hlog : (3 <= Z.log2 n)%Z).
  { change 3%Z with (Z.log2 8). apply Z.log2_le_mono. lia. }
  destruct (Z.to_nat (Z.log2 n)) as [|k] eqn:Ek; [lia|].
  change (JS.digits_fuel (S (S k)) n)
    with (if (n <? 10)%Z then [JS.digit n]
          else JS.digits_fuel (S k) (n / 10) ++ [JS.digit (n mod 10)]).
  assert (E : (n <? 10)%Z = false) by (apply Z.ltb_ge; exact H).
  rewrite E. f_equal. unfold JS.digits.
  assert (Hq : (0 <= n / 10)%Z) by (apply Z.div_pos; lia).
  apply digits_fuel_stable.
  - split; [exact Hq|].
    pose proof (digits_fuel_bound n ltac:(lia)) as Hb.
    rewrite Ek in Hb.
    rewrite (Nat2Z.inj_succ (S k)), Z.pow_succ_r in Hb by lia.
    apply Z.div_lt_upper_bound; lia.
  - apply digits_fuel_bound. exact Hq.
Qed.

Lemma digits_nonempty (n : Z) : JS.digits n <> [].
Proof.
  unfold JS.digits. cbn [JS.digits_fuel].
  destruct (n <? 10)%Z; [discriminate|].
  intros H. apply app_eq_nil in H. destruct H as [_ H]. discriminate.
Qed.

Lemma string_of_list_ascii_app (a b : list ascii) :
  string_of_list_ascii (a ++ b)
  = (string_of_list_ascii a ++ string_of_list_ascii b)%string.
Proof. induction a as [|c a IH]; cbn; [reflexivity | rewrite IH; reflexivity]. Qed.

(** One decimal place: the digits of the whole part, a point, and one
    digit. *)
Lemma toFixed_1 (x : R) (n : Z) :
  0 <= x -> (1 <= n)%Z -> IZR n - 1 / 2 <= x * 10 < IZR n + 1 / 2 ->
  JS.toFixed_chars x 1 = JS.digits (n / 10) ++ ["."%char; JS.digit (n mod 10)].
Proof.
  intros Hx Hn Hb. unfold JS.toFixed_chars.
  assert (Hlt : JS.lt x 0 = false) by (apply lt_false; lra).
  rewrite Hlt. unfold JS.toFixed_int.
  replace (x * 10 ^ 1 + 1 / 2) with (x * 10 + 1 / 2) by (simpl; lra).
  rewrite (Zfloor_eq n) by lra.
  assert (E0 : (n =? 0)%Z = false) by (apply Z.eqb_neq; lia).
  rewrite E0.
  destruct (Z_lt_le_dec n 10) as [Hs | Hl].
  - rewrite (digits_small n Hs).
    cbn [Datatypes.length Nat.leb repeat Nat.add Nat.sub app firstn skipn].
    rewrite Z.div_small, Z.mod_small by lia.
    replace (JS.digits 0) with ["0"%char] by reflexivity. reflexivity.
  - rewrite (digits_step n Hl).
    pose proof (digits_nonempty (n / 10)) as Hne.
    set (d := JS.digits (n / 10)) in *.
    rewrite length_app. cbn [Datatypes.length].
    assert (Hlen : (1 <= List.length d)%nat)
      by (destruct d; [congruence | cbn; lia]).
    assert (Hk : (List.length d + 1 <=? 1)%nat = false)
      by (apply Nat.leb_gt; lia).
    rewrite Hk.
    replace (List.length d + 1 - 1)%nat with (List.length d + 0)%nat by lia.
    rewrite length_app. cbn [Datatypes.length].
    replace (List.length d + 1 - 1)%nat with (List.length d) by lia.
    rewrite firstn_app, skipn_app, Nat.sub_diag, firstn_all, skipn_all.
    cbn [firstn skipn app]. rewrite app_nil_r. reflexivity.
Qed.

Lemma string_append_assoc (a b c : string) :
  ((a ++ b) ++ c = a ++ (b ++ c))%string.
Proof. induction a as [|x a IH]; cbn; [reflexivity | rewrite IH; reflexivity]. Qed.

(** ** Formatting a distance *)

Lemma formatDistance_feet (miles : R) (feet : Z) :
  miles < 0.1 -> IZR feet - 1 / 2 <= miles * 5280 < IZR feet + 1 / 2 ->
  LocationUtils.formatDistance miles = (JS.string_of_int feet ++ " ft")%string.
Proof.
  intros Hm Hb. unfold LocationUtils.formatDistance.
  apply lt_true in Hm. rewrite Hm. unfold JS.Math_round.
  rewrite (Zfloor_eq feet) by lra. reflexivity.
Qed.

Lemma formatDistance_miles (miles : R) (tenths : Z) :
  0.1 <= miles -> IZR tenths - 1 / 2 <= miles * 10 < IZR tenths + 1 / 2 ->
  LocationUtils.formatDistance miles
  = (JS.string_of_int (tenths / 10) ++ "."
     ++ String (JS.digit (tenths mod 10)) " mi")%string.
Proof.
  intros Hm Hb. unfold LocationUtils.formatDistance.
  assert (Hlt : JS.lt miles 0.1 = false) by (apply lt_false; exact Hm).
  rewrite Hlt.
  assert (Hn : (1 <= tenths)%Z).
  { assert (0 < tenths)%Z by (apply lt_IZR; lra). lia. }
  unfold JS.toFixed. rewrite (toFixed_1 miles tenths) by (try lra; exact Hn).
  rewrite string_of_list_ascii_app.
  unfold JS.string_of_int, JS.chars_of_int.
  assert (Hq : (tenths / 10 <? 0)%Z = false).
  { apply Z.ltb_ge. apply Z.div_pos; lia. }
  rewrite Hq. rewrite string_append_assoc. reflexivity.
Qed.

(** C10.  Below 0.1 miles the distance is shown as the nearest whole number
    of feet (ties upwards) followed by " ft"; from 0.1 miles on it is shown
    as the nearest number of tenths of a mile (ties upwards), written as
    whole part, point and one digit, followed by " mi".  So 0.05 reads
    "264 ft" and 2.345 reads "2.3 mi". *)
Theorem formatDistance_contract (miles : R) :
  (miles < 0.1 ->
   exists feet : Z,
     IZR feet - 1 / 2 <= miles * 5280 < IZR feet + 1 / 2
     /\ LocationUtils.formatDistance miles
        = (JS.string_of_int feet ++ " ft")%string)
  /\ (0.1 <= miles ->
      exists tenths : Z,
        IZR tenths - 1 / 2 <= miles * 10 < IZR tenths + 1 / 2
        /\ LocationUtils.formatDistance miles
           = (JS.string_of_int (tenths / 10) ++ "."
              ++ String (JS.digit (tenths mod 10)) " mi")%string)
  /\ LocationUtils.formatDistance 0.05 = "264 ft"%string
  /\ LocationUtils.formatDistance 2.345 = "2.3 mi"%string.
Proof.
  split; [|split; [|split]].
  - intros Hm. exists (Zfloor (miles * 5280 + 1 / 2)).
    pose proof (Zfloor_bound (miles * 5280 + 1 / 2)) as Hb.
    assert (Hb' : IZR (Zfloor (miles * 5280 + 1 / 2)) - 1 / 2 <= miles * 5280
                  < IZR (Zfloor (miles * 5280 + 1 / 2)) + 1 / 2) by lra.
    split; [exact Hb' | apply formatDistance_feet; assumption].
  - intros Hm. exists (Zfloor (miles * 10 + 1 / 2)).
    pose proof (Zfloor_bound (miles * 10 + 1 / 2)) as Hb.
    assert (Hb' : IZR (Zfloor (miles * 10 + 1 / 2)) - 1 / 2 <= miles * 10
                  < IZR (Zfloor (miles * 10 + 1 / 2)) + 1 / 2) by lra.
    split; [exact Hb' | apply formatDistance_miles; assumption].
  - rewrite (formatDistance_feet 0.05 264) by lra. reflexivity.
  - rewrite (formatDistance_miles 2.345 23) by lra. reflexivity.
Qed.

Lemma formatDistance_contract_witness :
  0.05 < 0.1
  /\ (exists feet : Z,
        IZR feet - 1 / 2 <= 0.05 * 5280 < IZR feet + 1 / 2
        /\ LocationUtils.formatDistance 0.05
           = (JS.string_of_int feet ++ " ft")%string)
  /\ 0.1 <= 2.345
  /\ (exists tenths : Z,
        IZR tenths - 1 / 2 <= 2.345 * 10 < IZR tenths + 1 / 2
        /\ LocationUtils.formatDistance 2.345
           = (JS.string_of_int (tenths / 10) ++ "."
              ++ String (JS.digit (tenths mod 10)) " mi")%string).
Proof.
  assert (H1 : 0.05 < 0.1) by lra.
  assert (H2 : 0.1 <= 2.345) by lra.
  split; [exact H1|].
  split; [exact (proj1 (formatDistance_contract 0.05) H1)|].
  split; [exact H2|].
  exact (proj1 (proj2 (formatDistance_contract 2.345)) H2).
Defined.

(** ** Geometric synthesis *)

Section GeometricSynthesis.

Import MapUtils.

Variable rng : nat -> R.

Lemma generateRoute_loop_spec (k : nat) :
  forall (currentLat currentLng d : R) (acc : list Point) (n : nat),
  exists pts,
    generateRoute_loop rng k currentLat currentLng d acc n
    = (JS.Normal (acc ++ pts), (k + n)%nat)
    /\ List.length pts = k.
Proof.
  induction k as [|k IH]; intros currentLat currentLng d acc n.
  - exists []. rewrite app_nil_r. split; reflexivity.
  - cbn [generateRoute_loop].
    unfold JS.bind at 1, generatePointAtDistance, JS.bind, Math_random, JS.ret.
    match goal with
    | |- context [generateRoute_loop rng k ?a ?b d (acc ++ [?p]) (S n)] =>
        destruct (IH a b d (acc ++ [p]) (S n)) as [pts [E L]];
        exists (p :: pts)
    end.
    rewrite E, <- app_assoc. cbn [app Datatypes.length].
    split; [f_equal; lia | congruence].
Qed.

(** The number of waypoints is at least three. *)
Lemma numWaypoints_ge_3 (targetDistance : R) :
  (3 <= JS.Math_max 3 (JS.Math_floor (targetDistance * 3)))%Z.
Proof. unfold JS.Math_max. lia. Qed.

(** [generateRoute] returns the origin, then one waypoint fewer than
    [numWaypoints], then the origin again. *)
Lemma generateRoute_spec (startLat startLng targetDistance : R) (n : nat) :
  exists mid n',
    generateRoute rng startLat startLng targetDistance n
    = (JS.Normal ({| lat := startLat; lng := startLng |} :: mid ++
                  [{| lat := startLat; lng := startLng |}]), n')
    /\ List.length mid
       = Z.to_nat (JS.Math_max 3 (JS.Math_floor (targetDistance * 3)) - 1).
Proof.
  unfold generateRoute.
  set (numWaypoints := JS.Math_max 3 (JS.Math_floor (targetDistance * 3))).
  set (origin := {| lat := startLat; lng := startLng |}).
  destruct (generateRoute_loop_spec (Z.to_nat (numWaypoints - 1))
              startLat startLng (targetDistance / IZR numWaypoints)
              [origin] n) as [mid [E L]].
  exists mid. eexists. unfold JS.bind. rewrite E. unfold JS.ret.
  split; [reflexivity | exact L].
Qed.

Lemma generateRouteOptions_loop_spec (k : nat) :
  forall (i : Z) (startLat startLng targetDistance : R)
         (acc : list Route) (n : nat),
  exists new n',
    generateRouteOptions_loop rng k i startLat startLng targetDistance acc n
    = (JS.Normal (acc ++ new), n')
    /\ List.length new = k
    /\ Forall (Spec.route_as_generated rng startLat startLng targetDistance) new.
Proof.
  induction k as [|k IH]; intros i startLat startLng targetDistance acc n.
  - exists [], n. rewrite app_nil_r. repeat split; constructor.
  - cbn [generateRouteOptions_loop].
    unfold JS.bind at 1, Math_random.
    destruct (generateRoute_spec startLat startLng
                (targetDistance * (0.95 + rng n * 0.1)) (S n))
      as [mid [n1 [E L]]].
    unfold JS.bind at 1. rewrite E.
    match goal with
    | |- context [generateRouteOptions_loop rng k ?j _ _ _ (acc ++ [?r]) n1] =>
        destruct (IH j startLat startLng targetDistance (acc ++ [r]) n1)
          as [new [n' [E' [L' F']]]];
        exists (r :: new), n'
    end.
    rewrite E', <- app_assoc. cbn [app Datatypes.length].
    split; [reflexivity|]. split; [congruence|].
    constructor; [|exact F'].
    exists n, n1. cbn [distance points]. split; [reflexivity | exact E].
Qed.

Lemma generateRouteOptions_spec (startLat startLng targetDistance : R)
    (numRoutes : Z) (n : nat) :
  exists routes n',
    generateRouteOptions rng startLat startLng targetDistance numRoutes n
    = (JS.Normal routes, n')
    /\ List.length routes = Z.to_nat numRoutes
    /\ Forall (Spec.route_as_generated rng startLat startLng targetDistance) routes.
Proof.
  unfold generateRouteOptions.
  destruct (generateRouteOptions_loop_spec (Z.to_nat numRoutes) 0
              startLat startLng targetDistance [] n)
    as [new [n' [E [L F]]]].
  exists new, n'. rewrite E. cbn [app]. auto.
Qed.

End GeometricSynthesis.

(** C7.  Every route of a geometric batch is a closed loop: the call
    returns, and each route's points are at least four, the first and the
    last being the origin itself.  This holds for every target distance,
    positive or not. *)
Theorem geometric_routes_are_closed_loops
    (rng : nat -> R) (startLat startLng targetDistance : R)
    (numRoutes : Z) (n : nat) :
  exists routes n',
    MapUtils.generateRouteOptions rng startLat startLng targetDistance
      numRoutes n = (JS.Normal routes, n')
    /\ Forall (fun r =>
         Spec.closed_loop_from
           {| MapUtils.lat := startLat; MapUtils.lng := startLng |}
           (MapUtils.points r)
         /\ nth_error (MapUtils.points r) 0
            = nth_error (MapUtils.points r)
                (List.length (MapUtils.points r) - 1)) routes.
Proof.
  destruct (generateRouteOptions_spec rng startLat startLng targetDistance
              numRoutes n) as [routes [n' [E [_ F]]]].
  exists routes, n'. split; [exact E|].
  eapply Forall_impl; [|exact F].
  intros r [m [m' [_ G]]].
  destruct (generateRoute_spec rng startLat startLng (MapUtils.distance r) (S m))
    as [mid [m'' [G' L]]].
  rewrite G in G'. injection G' as Hpts _.
  pose proof (numWaypoints_ge_3 (MapUtils.distance r)) as H3.
  assert (Hmid : (2 <= List.length mid)%nat) by lia.
  assert (Hlast : nth_error (MapUtils.points r)
                    (List.length (MapUtils.points r) - 1)
                  = Some {| MapUtils.lat := startLat; MapUtils.lng := startLng |}).
  { rewrite Hpts. cbn [Datatypes.length]. rewrite length_app. cbn [Datatypes.length].
    replace (S (List.length mid + 1) - 1)%nat with (S (List.length mid + 0)) by lia.
    cbn [nth_error]. rewrite nth_error_app2 by lia.
    replace (List.length mid + 0 - List.length mid)%nat with 0%nat by lia.
    reflexivity. }
  assert (Hfirst : nth_error (MapUtils.points r) 0
                   = Some {| MapUtils.lat := startLat; MapUtils.lng := startLng |})
    by (rewrite Hpts; reflexivity).
  split; [|congruence].
  split; [|split; assumption].
  rewrite Hpts. cbn [Datatypes.length]. rewrite length_app. cbn [Datatypes.length]. lia.
Qed.

(** C8, as the code has it.  Geometric synthesis validates nothing and
    never fails: for every target distance and every count it returns a
    batch holding [count] routes, none when [count < 1]. *)
Theorem geometric_synthesis_never_fails
    (rng : nat -> R) (startLat startLng targetDistance : R)
    (numRoutes : Z) (n : nat) :
  exists routes n',
    MapUtils.generateRouteOptions rng startLat startLng targetDistance
      numRoutes n = (JS.Normal routes, n')
    /\ List.length routes = Z.to_nat numRoutes.
Proof.
  destruct (generateRouteOptions_spec rng startLat startLng targetDistance
              numRoutes n) as [routes [n' [E [L _]]]].
  exists routes, n'. split; assumption.
Qed.

(** C8 does not hold as worded. A target distance of zero and a count of
    zero are both answered with a batch, not with a validation error. *)
Lemma geometric_synthesis_accepts_invalid_input :
  (exists routes n',
     MapUtils.generateRouteOptions (fun _ => 0) 40 (-74) 0 3 0%nat
     = (JS.Normal routes, n') /\ List.length routes = 3%nat)
  /\ MapUtils.generateRouteOptions (fun _ => 0) 40 (-74) 2 0 0%nat
     = (JS.Normal [], 0%nat).
Proof.
  split.
  - destruct (generateRouteOptions_spec (fun _ => 0) 40 (-74) 0 3 0)
      as [routes [n' [E [L _]]]].
    exists routes, n'. split; [exact E | exact L].
  - reflexivity.
Qed.

(** The distance field of a geometric route is the requested distance
    scaled by the random variation factor, the very number its points were
    generated for; nothing is measured on the points. *)
Lemma geometric_distance_is_adjusted_target
    (rng : nat -> R) (startLat startLng targetDistance : R)
    (numRoutes : Z) (n : nat) :
  exists routes n',
    MapUtils.generateRouteOptions rng startLat startLng targetDistance
      numRoutes n = (JS.Normal routes, n')
    /\ Forall (Spec.route_as_generated rng startLat startLng targetDistance)
         routes.
Proof.
  destruct (generateRouteOptions_spec rng startLat startLng targetDistance
              numRoutes n) as [routes [n' [E [_ F]]]].
  exists routes, n'. split; assumption.
Qed.

(** C1, the code at the failing input.  From the equator, one mile
    requested and every draw zero: the walk goes north twice and closes,
    its segments measure more than 1.19 miles together, and the distance
    field says 0.95, the adjusted target. *)
Lemma geometric_distance_not_recomputed :
  exists r n',
    MapUtils.generateRouteOptions (fun _ => 0) 0 0 1 1 0%nat
    = (JS.Normal [r], n')
    /\ MapUtils.distance r = 0.95
    /\ 1.19 < MapUtilsDirections.actualDistance (MapUtils.points r)
    /\ MapUtils.distance r
       <> MapUtilsDirections.actualDistance (MapUtils.points r).
Proof.
  exists {| MapUtils.id := "route-0";
            MapUtils.points :=
              [ {| MapUtils.lat := 0; MapUtils.lng := 0 |};
                {| MapUtils.lat := 0.95 / 207; MapUtils.lng := 0 |};
                {| MapUtils.lat := 1.9 / 207; MapUtils.lng := 0 |};
                {| MapUtils.lat := 0; MapUtils.lng := 0 |} ];
            MapUtils.distance := 0.95;
            MapUtils.description := "Loop around nearby area";
            MapUtils.color := "#1EAEDB" |}, 3%nat.
  assert (Hsum : 1.19 < MapUtilsDirections.actualDistance
              [ {| MapUtils.lat := 0; MapUtils.lng := 0 |};
                {| MapUtils.lat := 0.95 / 207; MapUtils.lng := 0 |};
                {| MapUtils.lat := 1.9 / 207; MapUtils.lng := 0 |};
                {| MapUtils.lat := 0; MapUtils.lng := 0 |} ]).
  { cbn [MapUtilsDirections.actualDistance
           MapUtilsDirections.actualDistance_loop MapUtils.lat MapUtils.lng].
    pose proof (calculateDistance_meridian_lower 0 (0.95 / 207) 0) as H1.
    pose proof (calculateDistance_meridian_lower (0.95 / 207) (1.9 / 207) 0) as H2.
    pose proof (calculateDistance_meridian_lower (1.9 / 207) 0 0) as H3.
    replace (0.95 / 207 - 0) with (0.95 / 207) in H1 by lra.
    replace (1.9 / 207 - 0.95 / 207) with (0.95 / 207) in H2 by lra.
    replace (0 - 1.9 / 207) with (- (1.9 / 207)) in H3 by lra.
    rewrite Rabs_Ropp in H3.
    rewrite (Rabs_pos_eq (0.95 / 207)) in H1, H2 by lra.
    rewrite (Rabs_pos_eq (1.9 / 207)) in H3 by lra.
    specialize (H1 ltac:(lra)). specialize (H2 ltac:(lra)).
    specialize (H3 ltac:(lra)). lra. }
  split; [|split; [reflexivity | split;
    [exact Hsum | cbn [MapUtils.distance MapUtils.points]; lra]]].
  unfold MapUtils.generateRouteOptions. change (Z.to_nat 1) with 1%nat.
  cbn [MapUtils.generateRouteOptions_loop].
  unfold JS.bind at 1, MapUtils.Math_random.
  unfold MapUtils.generateRoute.
  replace (1 * (0.95 + 0 * 0.1)) with 0.95 by lra.
  unfold JS.Math_floor. rewrite (Zfloor_eq 2) by (simpl; lra).
  change (JS.Math_max 3 2) with 3%Z. change (Z.to_nat (3 - 1)) with 2%nat.
  cbn [MapUtils.generateRoute_loop].
  unfold MapUtils.generatePointAtDistance, MapUtils.Math_random, JS.bind, JS.ret.
  cbn [MapUtils.lat MapUtils.lng app].
  replace (0 * 2 * PI) with 0 by lra. rewrite sin_0, cos_0.
  assert (Pt : forall a b c d : R, a = c -> b = d ->
             {| MapUtils.lat := a; MapUtils.lng := b |}
             = {| MapUtils.lat := c; MapUtils.lng := d |})
    by (intros; subst; reflexivity).
  assert (Rt : forall i (p q : list MapUtils.Point) d s c, p = q ->
             {| MapUtils.id := i; MapUtils.points := p; MapUtils.distance := d;
                MapUtils.description := s; MapUtils.color := c |}
             = {| MapUtils.id := i; MapUtils.points := q; MapUtils.distance := d;
                  MapUtils.description := s; MapUtils.color := c |})
    by (intros; subst; reflexivity).
  apply (f_equal2 pair); [|reflexivity]. apply f_equal.
  apply (f_equal2 cons); [|reflexivity].
  apply Rt.
  apply (f_equal2 cons); [reflexivity|].
  apply (f_equal2 cons); [apply Pt; [lra | unfold Rdiv; ring]|].
  apply (f_equal2 cons); [apply Pt; [lra | unfold Rdiv; ring]|].
  reflexivity.
Qed.

(** ** The directions-assisted fetch *)

Section DirectionsFetch.

Import MapUtils MapUtilsDirections.

Variable service : nat -> Request -> FetchOutcome.

(** Every path through the function returns: a failure of the recursive
    call can only be running out of fuel, never a thrown error, so the
    handlers of the second and third attempt are never entered. *)
Lemma fetchRouteFromMapbox_never_throws (fuel : nat) :
  forall (startLat startLng targetDistance : R) (accessToken : string)
         (directionBias : R) (w : World) (e : string),
  fst (fetchRouteFromMapbox service fuel startLat startLng targetDistance
         accessToken directionBias w) <> Some (JS.Throw e).
Proof.
  induction fuel as [|fuel IH]; intros startLat startLng targetDistance
    accessToken directionBias w e.
  - discriminate.
  - cbn [fetchRouteFromMapbox].
    destruct (fetchRouteFromMapbox_try service startLat startLng
                targetDistance accessToken directionBias w) as [[pts|msg] w1].
    + discriminate.
    + pose proof (IH startLat startLng targetDistance accessToken
                    (directionBias + PI / 2) w1) as H1.
      destruct (fetchRouteFromMapbox service fuel startLat startLng
                  targetDistance accessToken (directionBias + PI / 2) w1)
        as [[[pts|msg1]|] w2]; cbn [fst] in *.
      * discriminate.
      * exfalso. apply (H1 msg1). reflexivity.
      * discriminate.
Qed.

Hypothesis Hdown : Spec.service_down service.

Lemma try_fails_when_down (startLat startLng targetDistance : R)
    (accessToken : string) (directionBias : R) (w : World) :
  exists msg,
    fetchRouteFromMapbox_try service startLat startLng targetDistance
      accessToken directionBias w
    = (JS.Throw msg,
       {| draws := draws w;
          requests := requests w ++
            [Spec.outbound startLat startLng targetDistance accessToken
               directionBias] |}).
Proof.
  unfold fetchRouteFromMapbox_try, JS.bind at 1, fetch.
  fold (Spec.outbound startLat startLng targetDistance accessToken
          directionBias).
  destruct (Hdown (List.length (requests w))
              (Spec.outbound startLat startLng targetDistance accessToken
                 directionBias)) as [E | [body E]]; rewrite E.
  - eexists. reflexivity.
  - eexists. reflexivity.
Qed.

Lemma retry_chain_when_down (fuel : nat) :
  forall (startLat startLng targetDistance : R) (accessToken : string)
         (directionBias : R) (w : World),
  fetchRouteFromMapbox service fuel startLat startLng targetDistance
    accessToken directionBias w
  = (None,
     {| draws := draws w;
        requests := requests w ++
          map (fun k => Spec.outbound startLat startLng targetDistance
                          accessToken (directionBias + INR k * (PI / 2)))
            (seq 0 fuel) |}).
Proof.
  induction fuel as [|fuel IH]; intros startLat startLng targetDistance
    accessToken directionBias w.
  - cbn. rewrite app_nil_r. destruct w; reflexivity.
  - cbn [fetchRouteFromMapbox].
    destruct (try_fails_when_down startLat startLng targetDistance
                accessToken directionBias w) as [msg E].
    rewrite E, IH. cbn [draws requests].
    f_equal. f_equal. rewrite <- app_assoc. f_equal.
    cbn [seq map app]. f_equal.
    + f_equal. cbn [INR]. lra.
    + rewrite <- seq_shift, map_map. apply map_ext. intros k.
      f_equal. rewrite S_INR. lra.
Qed.

End DirectionsFetch.

(** C3, the code at the failing input.  When the directions service
    answers no request, the fetch never returns: whatever the depth allowed
    to its self-calls, it is exhausted, every request sent is an outbound
    request for the unchanged target distance in a direction a further
    quarter turn on, and neither the attempt at 0.7 of the distance nor the
    origin-only result is ever reached. *)
Theorem retry_never_ends_when_service_is_down
    (service : nat -> MapUtilsDirections.Request
               -> MapUtilsDirections.FetchOutcome)
    (fuel : nat) (startLat startLng targetDistance : R)
    (accessToken : string) (directionBias : R)
    (w : MapUtilsDirections.World) :
  Spec.service_down service ->
  fst (MapUtilsDirections.fetchRouteFromMapbox service fuel startLat startLng
         targetDistance accessToken directionBias w) = None
  /\ MapUtilsDirections.requests
       (snd (MapUtilsDirections.fetchRouteFromMapbox service fuel startLat
               startLng targetDistance accessToken directionBias w))
     = MapUtilsDirections.requests w ++
       map (fun k => Spec.outbound startLat startLng targetDistance
                       accessToken (directionBias + INR k * (PI / 2)))
         (seq 0 fuel).
Proof.
  intros Hdown.
  rewrite (retry_chain_when_down service Hdown). split; reflexivity.
Qed.

Lemma retry_never_ends_when_service_is_down_witness :
  let unauthorized :=
    fun (_ : nat) (_ : MapUtilsDirections.Request) =>
      MapUtilsDirections.Response false MapUtilsDirections.Unreadable in
  Spec.service_down unauthorized
  /\ fst (MapUtilsDirections.fetchRouteFromMapbox unauthorized 1000 40 (-74) 2
            "YOUR_MAPBOX_TOKEN_HERE" 0
            {| MapUtilsDirections.draws := 0;
               MapUtilsDirections.requests := [] |}) = None.
Proof.
  intros unauthorized.
  assert (H : Spec.service_down unauthorized)
    by (intros k req; right; exists MapUtilsDirections.Unreadable; reflexivity).
  split; [exact H|].
  exact (proj1 (retry_never_ends_when_service_is_down unauthorized 1000 40 (-74)
                  2 "YOUR_MAPBOX_TOKEN_HERE" 0
                  {| MapUtilsDirections.draws := 0;
                     MapUtilsDirections.requests := [] |} H)).
Defined.

(** ** The directions-assisted batch *)

Section DirectionsBatch.

Import MapUtils MapUtilsDirections.

Variable rng : nat -> R.
Variable service : nat -> Request -> FetchOutcome.

(** When the first attempt succeeds its points are returned at once. *)
Lemma fetchRouteFromMapbox_first_attempt (fuel : nat)
    (startLat startLng targetDistance : R) (accessToken : string)
    (directionBias : R) (w w1 : World) (pts : list Point) :
  fetchRouteFromMapbox_try service startLat startLng targetDistance
    accessToken directionBias w = (JS.Normal pts, w1) ->
  fetchRouteFromMapbox service (S fuel) startLat startLng targetDistance
    accessToken directionBias w = (Some (JS.Normal pts), w1).
Proof. intros E. cbn [fetchRouteFromMapbox]. rewrite E. reflexivity. Qed.

(** In the directions-assisted batch the distance of a route is measured
    on its points, and routes of fewer than three points are left out. *)
Lemma directions_distance_is_measured (fuel n : nat) :
  forall (i : Z) (startLat startLng targetDistance : R) (numRoutes : Z)
         (mapboxToken : string) (acc res : list Route) (w w' : World),
  generateRouteOptions_loop rng service fuel n i startLat startLng
    targetDistance numRoutes mapboxToken acc w = (Some (JS.Normal res), w') ->
  Forall (Spec.route_as_measured) acc ->
  Forall (Spec.route_as_measured) res.
Proof.
  induction n as [|n IH]; intros i startLat startLng targetDistance numRoutes
    mapboxToken acc res w w' E Hacc.
  - cbn in E. injection E as <- _. exact Hacc.
  - cbn [generateRouteOptions_loop] in E. cbv zeta in E.
    destruct (fetchRouteFromMapbox service fuel startLat startLng _ _ _ _)
      as [[[pts|msg]|] w1].
    + apply IH in E; [exact E|].
      destruct (2 <? List.length pts)%nat eqn:Hlen; [|exact Hacc].
      apply Forall_app. split; [exact Hacc|].
      constructor; [|constructor].
      split; [reflexivity|]. cbn [points]. apply Nat.ltb_lt. exact Hlen.
    + apply IH in E; assumption.
    + discriminate.
Qed.

End DirectionsBatch.

(** ** The live tracker *)

Section LiveTracker.

Import MapUtils MapComponent.

Variable env : Env.

Lemma callback_lastPosition (t : Tracker) (latitude longitude : R) :
  lastPosition (fst (watchPosition_callback env t latitude longitude))
  = Some {| lat := latitude; lng := longitude |}.
Proof.
  unfold watchPosition_callback.
  destruct (lastPosition t) as [p|]; [|reflexivity].
  destruct (JS.lt _ _); reflexivity.
Qed.

Lemma callback_accumulated (t : Tracker) (latitude longitude : R) :
  accumulatedDistance (fst (watchPosition_callback env t latitude longitude))
  = match lastPosition t with
    | Some p =>
        let d := LocationUtils.calculateDistance (lat p) (lng p)
                   latitude longitude in
        if JS.lt d 0.1 then accumulatedDistance t + d
        else accumulatedDistance t
    | None => accumulatedDistance t
    end.
Proof.
  unfold watchPosition_callback.
  destruct (lastPosition t) as [p|]; [|reflexivity].
  cbv zeta. destruct (JS.lt _ _); reflexivity.
Qed.

Lemma callback_reported (t : Tracker) (latitude longitude : R) :
  reported (snd (watchPosition_callback env t latitude longitude))
  = match lastPosition t with
    | Some p =>
        let d := LocationUtils.calculateDistance (lat p) (lng p)
                   latitude longitude in
        if JS.lt d 0.1 && onLocationUpdate env
        then [accumulatedDistance t + d] else []
    | None => []
    end.
Proof.
  unfold watchPosition_callback, reported.
  destruct (userMarker env), (map_ env);
    (destruct (lastPosition t) as [p|]; [|reflexivity]);
    cbv zeta; destruct (JS.lt _ _); try reflexivity;
    destruct (onLocationUpdate env); reflexivity.
Qed.

Lemma deliver_cons (t : Tracker) (s : Point) (rest : list Point) :
  fst (deliver env t (s :: rest))
  = fst (deliver env (fst (watchPosition_callback env t (lat s) (lng s))) rest).
Proof.
  cbn [deliver].
  destruct (watchPosition_callback env t (lat s) (lng s)) as [t1 es].
  cbn [fst]. destruct (deliver env t1 rest) as [t2 ess]. reflexivity.
Qed.

Lemma deliver_accumulated (samples : list Point) :
  forall t : Tracker,
  Forall (fun d => d < 0.1) (Spec.segments samples) ->
  accumulatedDistance (fst (deliver env t samples))
  = accumulatedDistance t
    + Spec.first_contribution (lastPosition t) samples
    + Spec.Rsum (Spec.segments samples).
Proof.
  induction samples as [|s rest IH]; intros t Hall.
  - cbn. destruct (lastPosition t); cbn; lra.
  - rewrite deliver_cons.
    assert (Hrest : Forall (fun d => d < 0.1) (Spec.segments rest)).
    { cbn [Spec.segments] in Hall. destruct rest as [|q rest'].
      - constructor.
      - inversion Hall; assumption. }
    rewrite (IH _ Hrest), callback_lastPosition, callback_accumulated.
    destruct s as [slat slng]. cbn [lat lng].
    assert (Hnext :
      Spec.first_contribution (Some {| lat := slat; lng := slng |}) rest
      + Spec.Rsum (Spec.segments rest)
      = Spec.Rsum (Spec.segments ({| lat := slat; lng := slng |} :: rest))).
    { destruct rest as [|q rest'].
      - cbn. lra.
      - cbn [Spec.segments] in Hall. inversion Hall as [|d l Hd Hl]; subst.
        cbn [Spec.first_contribution Spec.segments Spec.Rsum fold_right lat lng]
          in *.
        apply lt_true in Hd. rewrite Hd. reflexivity. }
    rewrite <- Hnext.
    set (fc := Spec.first_contribution (Some _) rest).
    set (rs := Spec.Rsum (Spec.segments rest)).
    destruct (lastPosition t) as [p|]; cbn [Spec.first_contribution lat lng].
    + cbv zeta. destruct (JS.lt _ _); lra.
    + lra.
Qed.

End LiveTracker.

(** C4, as the code has it.  Starting to track zeroes the accumulated
    distance but keeps the position the component already holds, and each
    segment is rounded to hundredths of a mile before it is compared with
    0.1 and added.  So after N samples whose consecutive distances are all
    below 0.095 miles, the accumulated distance is the sum of those N-1
    distances, each rounded to hundredths, plus what the first sample
    adds: nothing when no position is held, and otherwise its rounded
    distance from the held position when that distance is below 0.095
    miles.  Each rounded figure is within 0.005 miles of the distance, is
    0 for a distance below 0.005 miles, and is below 0.1, so that the
    tracker accepts the segment. *)
Theorem tracker_accumulates_segments
    (env : MapComponent.Env) (t : MapComponent.Tracker)
    (samples : list MapUtils.Point) :
  MapComponent.map_ env = true ->
  Forall (fun d => d < 0.095) (Spec.segment_distances samples) ->
  let t0 := MapComponent.trackingEffect env true t in
  let total :=
    MapComponent.accumulatedDistance
      (fst (MapComponent.deliver env t0 samples)) in
  let rounded := map Spec.hundredths (Spec.segment_distances samples) in
  total
  = Spec.first_sample_adds (MapComponent.lastPosition t) samples
    + Spec.Rsum rounded
  /\ (MapComponent.lastPosition t = None -> total = Spec.Rsum rounded)
  /\ Forall2 (fun d r => Rabs (r - d) <= 0.005 /\ (d < 0.005 -> r = 0))
       (Spec.segment_distances samples) rounded
  /\ Forall (fun r => r < 0.1) rounded.
Proof.
  intros Hmap Hall t0 total rounded.
  pose proof (segment_distances_nonneg samples) as Hpos.
  assert (Hacc : Forall (fun d => d < 0.1) (Spec.segments samples)).
  { rewrite segments_rounded. apply accepted_segments; assumption. }
  assert (E : total
              = Spec.first_sample_adds (MapComponent.lastPosition t) samples
                + Spec.Rsum rounded).
  { unfold total, rounded.
    rewrite (deliver_accumulated env samples t0 Hacc).
    rewrite first_contribution_rounded, segments_rounded.
    unfold t0, MapComponent.trackingEffect. rewrite Hmap.
    cbn [negb orb MapComponent.accumulatedDistance MapComponent.lastPosition].
    lra. }
  split; [exact E|]. split; [|split].
  - intros Hnone. rewrite E, Hnone. cbn [Spec.first_sample_adds]. lra.
  - apply hundredths_of_segments. exact Hpos.
  - apply accepted_segments; assumption.
Qed.

Lemma tracker_accumulates_segments_witness :
  let env := {| MapComponent.userMarker := true; MapComponent.map_ := true;
                MapComponent.onLocationUpdate := true |} in
  let t := {| MapComponent.lastPosition := None;
              MapComponent.accumulatedDistance := 7;
              MapComponent.watching := false |} in
  let samples := [ {| MapUtils.lat := 0; MapUtils.lng := 0 |};
                   {| MapUtils.lat := 0.001; MapUtils.lng := 0 |};
                   {| MapUtils.lat := 0.002; MapUtils.lng := 0 |} ] in
  MapComponent.map_ env = true
  /\ Forall (fun d => d < 0.095) (Spec.segment_distances samples)
  /\ MapComponent.accumulatedDistance
       (fst (MapComponent.deliver env
               (MapComponent.trackingEffect env true t) samples))
     = Spec.Rsum (map Spec.hundredths (Spec.segment_distances samples)).
Proof.
  intros env t samples.
  assert (Hstep : forall a b : R, Rabs (b - a) = 0.001 ->
            Spec.haversine a 0 b 0 < 0.095).
  { intros a b E. rewrite haversine_meridian by (rewrite E; lra).
    rewrite E. pose proof PI_4. lra. }
  assert (Hall : Forall (fun d => d < 0.095) (Spec.segment_distances samples)).
  { cbn [Spec.segment_distances samples MapUtils.lat MapUtils.lng].
    constructor; [|constructor; [|constructor]];
      apply Hstep; rewrite Rabs_pos_eq; lra. }
  split; [reflexivity|]. split; [exact Hall|].
  exact (proj1 (proj2 (tracker_accumulates_segments env t samples eq_refl Hall))
           eq_refl).
Defined.

(** C4 does not hold as worded, in three ways.  The map is initialised
    at (0, 0), tracking starts and one sample arrives a thousandth of a
    degree to the north: there is no segment between samples, yet more
    than 0.06 miles are accumulated.  With no position held, a second
    sample 0.0014 degrees north of the first is more than 0.095 and less
    than 0.1 miles away, and nothing is accumulated: its rounded figure
    is 0.10.  And a second sample 0.00005 degrees north of the first is
    some distance away, and nothing is accumulated: its rounded figure is
    0.00. *)
Lemma accumulated_is_not_the_sum_of_segments :
  let env := {| MapComponent.userMarker := true; MapComponent.map_ := true;
                MapComponent.onLocationUpdate := true |} in
  let total t samples :=
    MapComponent.accumulatedDistance
      (fst (MapComponent.deliver env
              (MapComponent.trackingEffect env true t) samples)) in
  let origin := {| MapUtils.lat := 0; MapUtils.lng := 0 |} in
  let held := MapComponent.initializeMap MapComponent.initial 0 0 in
  (let samples := [ {| MapUtils.lat := 0.001; MapUtils.lng := 0 |} ] in
   Forall (fun d => d < 0.1) (Spec.segment_distances samples)
   /\ Spec.Rsum (Spec.segment_distances samples) = 0
   /\ 0.06 < total held samples)
  /\ (let samples := [ origin; {| MapUtils.lat := 0.0014; MapUtils.lng := 0 |} ] in
      Forall (fun d => d < 0.1) (Spec.segment_distances samples)
      /\ 0.095 < Spec.Rsum (Spec.segment_distances samples)
      /\ total MapComponent.initial samples = 0)
  /\ (let samples := [ origin; {| MapUtils.lat := 0.00005; MapUtils.lng := 0 |} ] in
      Forall (fun d => d < 0.1) (Spec.segment_distances samples)
      /\ 0 < Spec.Rsum (Spec.segment_distances samples)
      /\ total MapComponent.initial samples = 0).
Proof.
  intros env total origin held.
  pose proof PI_between as [Hpl Hpu].
  split; [|split].
  - intros samples. split; [constructor|]. split; [reflexivity|].
    unfold total, samples. rewrite deliver_cons. cbn [MapComponent.deliver fst].
    rewrite callback_accumulated.
    cbn [MapComponent.trackingEffect MapComponent.map_ env negb orb
         MapComponent.lastPosition MapComponent.accumulatedDistance held
         MapComponent.initializeMap MapUtils.lat MapUtils.lng].
    cbv zeta.
    pose proof (short_hop 0 0.001 0) as H.
    rewrite Rabs_pos_eq in H by lra. specialize (H ltac:(lra)).
    destruct H as [Hlo Hhi].
    apply lt_true in Hhi. rewrite Hhi. lra.
  - intros samples.
    assert (Hd : Spec.haversine 0 0 0.0014 0
                 = 3958.8 * (0.0014 * PI / 180)).
    { rewrite haversine_meridian by (rewrite Rabs_pos_eq; lra).
      rewrite Rabs_pos_eq by lra. lra. }
    cbn [Spec.segment_distances samples origin MapUtils.lat MapUtils.lng
         Spec.Rsum fold_right].
    rewrite Hd. split; [constructor; [lra | constructor]|]. split; [lra|].
    unfold total, samples. rewrite !deliver_cons. cbn [MapComponent.deliver fst].
    rewrite callback_accumulated, callback_lastPosition, callback_accumulated.
    cbn [MapComponent.trackingEffect MapComponent.map_ env negb orb
         MapComponent.lastPosition MapComponent.accumulatedDistance
         MapComponent.initial origin MapUtils.lat MapUtils.lng].
    cbv zeta. rewrite calculateDistance_rounds, Hd.
    assert (Hrej : JS.lt (Spec.hundredths (3958.8 * (0.0014 * PI / 180))) 0.1
                   = false).
    { apply lt_false.
      destruct (Rlt_dec (Spec.hundredths (3958.8 * (0.0014 * PI / 180))) 0.1)
        as [C|C]; [|lra].
      apply hundredths_below_tenth in C; lra. }
    rewrite Hrej. reflexivity.
  - intros samples.
    assert (Hd : Spec.haversine 0 0 0.00005 0
                 = 3958.8 * (0.00005 * PI / 180)).
    { rewrite haversine_meridian by (rewrite Rabs_pos_eq; lra).
      rewrite Rabs_pos_eq by lra. lra. }
    cbn [Spec.segment_distances samples origin MapUtils.lat MapUtils.lng
         Spec.Rsum fold_right].
    rewrite Hd. split; [constructor; [lra | constructor]|]. split; [lra|].
    unfold total, samples. rewrite !deliver_cons. cbn [MapComponent.deliver fst].
    rewrite callback_accumulated, callback_lastPosition, callback_accumulated.
    cbn [MapComponent.trackingEffect MapComponent.map_ env negb orb
         MapComponent.lastPosition MapComponent.accumulatedDistance
         MapComponent.initial origin MapUtils.lat MapUtils.lng].
    cbv zeta. rewrite calculateDistance_rounds, Hd.
    rewrite hundredths_zero by lra.
    destruct (JS.lt 0 0.1); lra.
Qed.

(** C5.  A sample at least 0.1 miles from the held position leaves the
    accumulated distance as it was and replaces the held position, from
    which the segment of the next sample is then measured. *)
Theorem jump_is_rejected_but_moves_baseline
    (env : MapComponent.Env) (t : MapComponent.Tracker) (p : MapUtils.Point)
    (latitude longitude : R) :
  MapComponent.lastPosition t = Some p ->
  0.1 <= LocationUtils.calculateDistance (MapUtils.lat p) (MapUtils.lng p)
           latitude longitude ->
  let t1 := fst (MapComponent.watchPosition_callback env t latitude longitude) in
  MapComponent.accumulatedDistance t1 = MapComponent.accumulatedDistance t
  /\ MapComponent.lastPosition t1
     = Some {| MapUtils.lat := latitude; MapUtils.lng := longitude |}
  /\ forall latitude2 longitude2 : R,
       MapComponent.accumulatedDistance
         (fst (MapComponent.watchPosition_callback env t1 latitude2 longitude2))
       = let d := LocationUtils.calculateDistance latitude longitude
                    latitude2 longitude2 in
         if JS.lt d 0.1 then MapComponent.accumulatedDistance t + d
         else MapComponent.accumulatedDistance t.
Proof.
  intros Hp Hjump t1.
  assert (Hacc : MapComponent.accumulatedDistance t1
                 = MapComponent.accumulatedDistance t).
  { unfold t1. rewrite callback_accumulated, Hp. cbv zeta.
    apply lt_false in Hjump. rewrite Hjump. reflexivity. }
  assert (Hpos : MapComponent.lastPosition t1
                 = Some {| MapUtils.lat := latitude; MapUtils.lng := longitude |})
    by apply callback_lastPosition.
  split; [exact Hacc|]. split; [exact Hpos|].
  intros latitude2 longitude2.
  rewrite callback_accumulated, Hpos, Hacc. reflexivity.
Qed.

Lemma jump_is_rejected_but_moves_baseline_witness :
  let env := {| MapComponent.userMarker := true; MapComponent.map_ := true;
                MapComponent.onLocationUpdate := true |} in
  let t := {| MapComponent.lastPosition :=
                Some {| MapUtils.lat := 0; MapUtils.lng := 0 |};
              MapComponent.accumulatedDistance := 7;
              MapComponent.watching := true |} in
  0.1 <= LocationUtils.calculateDistance 0 0 1 0
  /\ MapComponent.accumulatedDistance
       (fst (MapComponent.watchPosition_callback env t 1 0)) = 7
  /\ MapComponent.lastPosition
       (fst (MapComponent.watchPosition_callback env t 1 0))
     = Some {| MapUtils.lat := 1; MapUtils.lng := 0 |}.
Proof.
  intros env t.
  assert (Hjump : 0.1 <= LocationUtils.calculateDistance 0 0 1 0)
    by (apply long_jump; rewrite Rabs_pos_eq; lra).
  split; [exact Hjump|].
  destruct (jump_is_rejected_but_moves_baseline env t
              {| MapUtils.lat := 0; MapUtils.lng := 0 |} 1 0 eq_refl Hjump)
    as [Hacc [Hpos _]].
  split; [exact Hacc | exact Hpos].
Defined.

(** C6, as the code has it.  Starting to track sets the accumulated
    distance to 0 and leaves the held position as it is.  The first
    sample of the session then adds nothing when no position is held;
    when one is held it adds its distance from that position rounded to
    hundredths of a mile if the distance is below 0.095 miles, and
    nothing if the distance is 0.095 miles or more. *)
Theorem reset_zeroes_distance_only
    (env : MapComponent.Env) (t : MapComponent.Tracker)
    (latitude longitude : R) :
  MapComponent.map_ env = true ->
  let t0 := MapComponent.trackingEffect env true t in
  let first :=
    MapComponent.accumulatedDistance
      (fst (MapComponent.watchPosition_callback env t0 latitude longitude)) in
  MapComponent.accumulatedDistance t0 = 0
  /\ MapComponent.lastPosition t0 = MapComponent.lastPosition t
  /\ (MapComponent.lastPosition t = None -> first = 0)
  /\ (forall p : MapUtils.Point,
        MapComponent.lastPosition t = Some p ->
        let d := Spec.haversine (MapUtils.lat p) (MapUtils.lng p)
                   latitude longitude in
        (d < 0.095 -> first = Spec.hundredths d)
        /\ (0.095 <= d -> first = 0)).
Proof.
  intros Hmap t0 first.
  assert (H0 : MapComponent.accumulatedDistance t0 = 0)
    by (unfold t0, MapComponent.trackingEffect; rewrite Hmap; reflexivity).
  assert (Hp : MapComponent.lastPosition t0 = MapComponent.lastPosition t)
    by (unfold t0, MapComponent.trackingEffect; rewrite Hmap; reflexivity).
  assert (E : first
              = Spec.first_sample_adds (MapComponent.lastPosition t)
                  [{| MapUtils.lat := latitude; MapUtils.lng := longitude |}]).
  { unfold first. rewrite <- first_contribution_rounded.
    rewrite callback_accumulated, Hp, H0.
    destruct (MapComponent.lastPosition t) as [p|];
      cbn [Spec.first_contribution MapUtils.lat MapUtils.lng]; [|reflexivity].
    cbv zeta. destruct (JS.lt _ _); lra. }
  split; [exact H0|]. split; [exact Hp|]. split.
  - intros Hnone. rewrite E, Hnone. reflexivity.
  - intros p Hheld d. rewrite E, Hheld.
    cbn [Spec.first_sample_adds MapUtils.lat MapUtils.lng]. cbv zeta.
    fold d. split; intros Hd.
    + apply lt_true in Hd. rewrite Hd. reflexivity.
    + apply lt_false in Hd. rewrite Hd. reflexivity.
Qed.

Lemma reset_zeroes_distance_only_witness :
  let env := {| MapComponent.userMarker := true; MapComponent.map_ := true;
                MapComponent.onLocationUpdate := true |} in
  let t := {| MapComponent.lastPosition := None;
              MapComponent.accumulatedDistance := 7;
              MapComponent.watching := false |} in
  MapComponent.map_ env = true
  /\ MapComponent.accumulatedDistance
       (MapComponent.trackingEffect env true t) = 0
  /\ MapComponent.accumulatedDistance
       (fst (MapComponent.watchPosition_callback env
               (MapComponent.trackingEffect env true t) 40 (-74))) = 0.
Proof.
  intros env t. split; [reflexivity|].
  destruct (reset_zeroes_distance_only env t 40 (-74) eq_refl)
    as [H0 [_ [H1 _]]].
  split; [exact H0 | exact (H1 eq_refl)].
Defined.

(** C6 does not hold as worded. The map is initialised at (0, 0); starting
    to track leaves that position in place, and the first sample of the
    session, a thousandth of a degree away, adds more than 0.06 miles. *)
Lemma reset_keeps_last_position :
  let env := {| MapComponent.userMarker := true; MapComponent.map_ := true;
                MapComponent.onLocationUpdate := true |} in
  let t0 := MapComponent.trackingEffect env true
              (MapComponent.initializeMap MapComponent.initial 0 0) in
  MapComponent.lastPosition t0
  = Some {| MapUtils.lat := 0; MapUtils.lng := 0 |}
  /\ MapComponent.lastPosition t0 <> None
  /\ 0.06 < MapComponent.accumulatedDistance
             (fst (MapComponent.watchPosition_callback env t0 0.001 0)).
Proof.
  intros env t0. split; [reflexivity|]. split; [discriminate|].
  rewrite callback_accumulated.
  cbn [t0 MapComponent.trackingEffect MapComponent.map_ env negb orb
       MapComponent.lastPosition MapComponent.accumulatedDistance
       MapComponent.initializeMap MapUtils.lat MapUtils.lng].
  cbv zeta.
  pose proof (short_hop 0 0.001 0) as H.
  rewrite Rabs_pos_eq in H by lra. specialize (H ltac:(lra)).
  destruct H as [Hlo Hhi].
  apply lt_true in Hhi. rewrite Hhi. lra.
Qed.

(** C9, as the code has it.  The callback is invoked only for a sample
    that is accepted: a position is held, the segment is below 0.1 miles
    and the prop is present; it then carries the new accumulated distance.
    A rejected sample, and a sample that arrives when no position is held,
    report nothing, and no outcome flag is passed in any case. *)
Theorem distance_reported_only_when_accepted
    (env : MapComponent.Env) (t : MapComponent.Tracker)
    (latitude longitude : R) :
  MapComponent.reported
    (snd (MapComponent.watchPosition_callback env t latitude longitude))
  = match MapComponent.lastPosition t with
    | Some p =>
        if JS.lt (LocationUtils.calculateDistance (MapUtils.lat p)
                    (MapUtils.lng p) latitude longitude) 0.1
           && MapComponent.onLocationUpdate env
        then [MapComponent.accumulatedDistance
                (fst (MapComponent.watchPosition_callback env t
                        latitude longitude))]
        else []
    | None => []
    end.
Proof.
  rewrite callback_reported, callback_accumulated.
  destruct (MapComponent.lastPosition t) as [p|]; [|reflexivity].
  cbv zeta. destruct (JS.lt _ _); reflexivity.
Qed.

(** C9 does not hold as worded. A sample one degree away from the held
    position is rejected, and nothing at all is reported for it; the same
    holds for a sample that arrives when no position is held. *)
Lemma rejected_sample_reports_nothing :
  let env := {| MapComponent.userMarker := true; MapComponent.map_ := true;
                MapComponent.onLocationUpdate := true |} in
  MapComponent.reported
    (snd (MapComponent.watchPosition_callback env
            {| MapComponent.lastPosition :=
                 Some {| MapUtils.lat := 0; MapUtils.lng := 0 |};
               MapComponent.accumulatedDistance := 7;
               MapComponent.watching := true |} 1 0)) = []
  /\ MapComponent.reported
       (snd (MapComponent.watchPosition_callback env
               {| MapComponent.lastPosition := None;
                  MapComponent.accumulatedDistance := 0;
                  MapComponent.watching := true |} 40 (-74))) = [].
Proof.
  intros env. split.
  - rewrite callback_reported.
    cbn [MapComponent.lastPosition MapUtils.lat MapUtils.lng]. cbv zeta.
    assert (Hjump : 0.1 <= LocationUtils.calculateDistance 0 0 1 0)
      by (apply long_jump; rewrite Rabs_pos_eq; lra).
    apply lt_false in Hjump. rewrite Hjump. reflexivity.
  - rewrite callback_reported. reflexivity.
Qed.

(** ** The session controller *)

Section SessionController.

Import Index.

Lemma handleLocationUpdate_target (st : State) (lat lng d : R) :
  targetDistance (fst (handleLocationUpdate st lat lng d)) = targetDistance st.
Proof. reflexivity. Qed.

Lemma handleLocationUpdate_fires (st : State) (lat lng d : R) :
  firesTargetReached (snd (handleLocationUpdate st lat lng d))
  = negb (hasReachedTarget st) && JS.ge d (targetDistance st).
Proof.
  unfold handleLocationUpdate. cbn [snd].
  destruct (negb (hasReachedTarget st) && JS.ge d (targetDistance st));
    reflexivity.
Qed.

Lemma handleLocationUpdate_flag (st : State) (lat lng d : R) :
  hasReachedTarget (fst (handleLocationUpdate st lat lng d))
  = hasReachedTarget st || JS.ge d (targetDistance st).
Proof.
  unfold handleLocationUpdate. cbn [fst hasReachedTarget].
  destruct (hasReachedTarget st), (JS.ge d (targetDistance st)); reflexivity.
Qed.

Lemma handleLocationUpdates_cons (st : State) (lat lng d : R)
    (rest : list (R * R * R)) :
  map firesTargetReached (snd (handleLocationUpdates st ((lat, lng, d) :: rest)))
  = firesTargetReached (snd (handleLocationUpdate st lat lng d))
    :: map firesTargetReached
         (snd (handleLocationUpdates (fst (handleLocationUpdate st lat lng d))
                 rest)).
Proof.
  cbn [handleLocationUpdates].
  destruct (handleLocationUpdate st lat lng d) as [st1 es]. cbn [fst snd].
  destruct (handleLocationUpdates st1 rest) as [st2 ess]. reflexivity.
Qed.

(** Once the flag is set, no update fires. *)
Lemma silent_after_reached (updates : list (R * R * R)) :
  forall st : State,
  hasReachedTarget st = true ->
  Forall (fun b => b = false)
    (map firesTargetReached (snd (handleLocationUpdates st updates))).
Proof.
  induction updates as [|[[lat lng] d] rest IH]; intros st Hflag.
  - constructor.
  - rewrite handleLocationUpdates_cons. constructor.
    + rewrite handleLocationUpdate_fires, Hflag. reflexivity.
    + apply IH. rewrite handleLocationUpdate_flag, Hflag. reflexivity.
Qed.

Lemma first_crossing_here (target d : R) (ds : list R) :
  target <= d -> Spec.first_crossing target (d :: ds) 0.
Proof.
  intros H. exists d. split; [reflexivity|]. split; [exact H|]. intros; lia.
Qed.

Lemma first_crossing_later (target d : R) (ds : list R) (i : nat) :
  d < target ->
  Spec.first_crossing target (d :: ds) (S i) <-> Spec.first_crossing target ds i.
Proof.
  intros Hd. split; intros [x [Hx [Hle Hbefore]]]; exists x.
  - split; [exact Hx|]. split; [exact Hle|].
    intros j d' Hj Hd'. apply (Hbefore (S j) d'); [lia | exact Hd'].
  - split; [exact Hx|]. split; [exact Hle|].
    intros [|j] d' Hj Hd'.
    + cbn in Hd'. injection Hd' as <-. exact Hd.
    + apply (Hbefore j d'); [lia | exact Hd'].
Qed.

(** When every update reaches the handler of the render that follows the
    previous update, the update that fires is the first one to reach the
    target. *)
Lemma fires_at_first_crossing (updates : list (R * R * R)) :
  forall (st : State) (i : nat),
  hasReachedTarget st = false ->
  nth i (map firesTargetReached (snd (handleLocationUpdates st updates))) false
  = true
  <-> Spec.first_crossing (targetDistance st) (map snd updates) i.
Proof.
  induction updates as [|[[lat lng] d] rest IH]; intros st i Hflag.
  - cbn. split.
    + destruct i; discriminate.
    + intros [x [Hx _]]. destruct i; discriminate.
  - rewrite handleLocationUpdates_cons, handleLocationUpdate_fires, Hflag.
    cbn [negb andb map snd].
    destruct (JS.ge d (targetDistance st)) eqn:Hge.
    + apply ge_true in Hge. destruct i as [|i]; cbn [nth].
      * split; [intros _; apply first_crossing_here; exact Hge | reflexivity].
      * split.
        -- intros Hfire.
           pose proof (silent_after_reached rest
                         (fst (handleLocationUpdate st lat lng d))) as Hs.
           rewrite handleLocationUpdate_flag, Hflag in Hs. cbn [orb] in Hs.
           assert (Hg : JS.ge d (targetDistance st) = true)
             by (apply ge_true; exact Hge).
           specialize (Hs Hg).
           rewrite Forall_forall in Hs.
           destruct (nth_in_or_default i
                       (map firesTargetReached
                          (snd (handleLocationUpdates
                                  (fst (handleLocationUpdate st lat lng d)) rest)))
                       false) as [Hin | Hdef].
           ++ apply Hs in Hin. congruence.
           ++ congruence.
        -- intros [x [_ [_ Hbefore]]].
           specialize (Hbefore 0%nat d ltac:(lia) eq_refl). lra.
    + apply ge_false in Hge. destruct i as [|i]; cbn [nth].
      * split; [discriminate|].
        intros [x [Hx [Hle _]]]. cbn in Hx. injection Hx as <-. lra.
      * rewrite first_crossing_later by exact Hge.
        rewrite <- (handleLocationUpdate_target st lat lng d).
        apply IH. rewrite handleLocationUpdate_flag, Hflag.
        cbn [orb]. apply ge_false. exact Hge.
Qed.

(** Under the same condition, at most one update fires. *)
Lemma fired_count (updates : list (R * R * R)) :
  forall st : State,
  hasReachedTarget st = false ->
  let fired :=
    map firesTargetReached (snd (handleLocationUpdates st updates)) in
  (List.length (filter (fun b => b) fired) <= 1)%nat
  /\ (Exists (fun d => targetDistance st <= d) (map snd updates) ->
      List.length (filter (fun b => b) fired) = 1%nat).
Proof.
  induction updates as [|[[lat lng] d] rest IH]; intros st Hflag fired.
  - cbn. split; [lia|]. intros H; inversion H.
  - unfold fired.
    rewrite handleLocationUpdates_cons, handleLocationUpdate_fires, Hflag.
    cbn [negb andb map snd].
    destruct (JS.ge d (targetDistance st)) eqn:Hge.
    + pose proof (silent_after_reached rest
                    (fst (handleLocationUpdate st lat lng d))) as Hs.
      rewrite handleLocationUpdate_flag, Hflag, Hge in Hs.
      specialize (Hs eq_refl).
      assert (Hnone : filter (fun b => b)
                (map firesTargetReached
                   (snd (handleLocationUpdates
                           (fst (handleLocationUpdate st lat lng d)) rest)))
              = []).
      { induction Hs as [|b l Hb Hl IHl]; [reflexivity|].
        cbn [filter]. rewrite Hb. exact IHl. }
      cbn [filter]. rewrite Hnone. cbn. split; [lia | reflexivity].
    + cbn [filter].
      assert (Hflag' : hasReachedTarget (fst (handleLocationUpdate st lat lng d))
                       = false)
        by (rewrite handleLocationUpdate_flag, Hflag, Hge; reflexivity).
      destruct (IH _ Hflag') as [Hle Hex].
      rewrite handleLocationUpdate_target in Hex.
      split; [exact Hle|].
      intros H. inversion H as [x l Hx | x l Hx]; subst.
      * apply ge_false in Hge. lra.
      * apply Hex. exact Hx.
Qed.

End SessionController.

(** Both ways of starting a run start a session. *)
Lemma handleDistanceSubmit_starts_session
    (rng : nat -> R) (st : Index.State) (loc : MapUtils.Point) (target : R) :
  Index.currentLocation st = Some loc ->
  Spec.session_started (fst (Index.handleDistanceSubmit rng st target true))
    target.
Proof.
  intros Hloc. unfold Index.handleDistanceSubmit. rewrite Hloc.
  repeat split.
Qed.

Lemma startSelectedRoute_starts_session
    (st : Index.State) (rid : string) (selectedRoute : MapUtils.Route) :
  Index.activeRouteId st = Some rid ->
  find (fun route => String.eqb (MapUtils.id route) rid) (Index.routes st)
  = Some selectedRoute ->
  Spec.session_started (fst (Index.startSelectedRoute st))
    (MapUtils.distance selectedRoute).
Proof.
  intros Hid Hfind. unfold Index.startSelectedRoute. rewrite Hid, Hfind.
  repeat split.
Qed.

(** ** The handler of one render *)

Section Closure.
Import Index.

Lemma handleLocationUpdate_of_itself (st : State) (lat lng d : R) :
  handleLocationUpdate_of st st lat lng d = handleLocationUpdate st lat lng d.
Proof. reflexivity. Qed.

Lemma handleLocationUpdate_of_fires (closure st : State) (lat lng d : R) :
  firesTargetReached (snd (handleLocationUpdate_of closure st lat lng d))
  = negb (hasReachedTarget closure) && JS.ge d (targetDistance closure).
Proof.
  unfold handleLocationUpdate_of. cbn [snd].
  destruct (negb (hasReachedTarget closure)
            && JS.ge d (targetDistance closure)); reflexivity.
Qed.

Lemma handleLocationUpdates_of_cons (closure st : State) (lat lng d : R)
    (rest : list (R * R * R)) :
  map firesTargetReached
    (snd (handleLocationUpdates_of closure st ((lat, lng, d) :: rest)))
  = firesTargetReached (snd (handleLocationUpdate_of closure st lat lng d))
    :: map firesTargetReached
         (snd (handleLocationUpdates_of closure
                 (fst (handleLocationUpdate_of closure st lat lng d)) rest)).
Proof.
  cbn [handleLocationUpdates_of].
  destruct (handleLocationUpdate_of closure st lat lng d) as [st1 es].
  cbn [fst snd].
  destruct (handleLocationUpdates_of closure st1 rest) as [st2 ess].
  reflexivity.
Qed.

Lemma same_handler_fires (updates : list (R * R * R)) :
  forall closure st : State,
  map firesTargetReached (snd (handleLocationUpdates_of closure st updates))
  = map (fun u => negb (hasReachedTarget closure)
                  && JS.ge (snd u) (targetDistance closure)) updates.
Proof.
  induction updates as [|[[lat lng] d] rest IH]; intros closure st.
  - reflexivity.
  - rewrite handleLocationUpdates_of_cons, handleLocationUpdate_of_fires, IH.
    reflexivity.
Qed.

End Closure.

(** C2 fails on the code.  [handleLocationUpdate] tests the
    [hasReachedTarget] of the render that made it, and the position watch
    keeps the function it was started with until the tracking effect runs
    again.  Updates that reach the function of the render in which the
    session started therefore all see the flag unset: every one of them
    whose distance is at least the target raises the notification, not
    only the first. *)
Theorem target_reached_fires_again
    (closure : Index.State) (target : R) (updates : list (R * R * R)) :
  Spec.session_started closure target ->
  Forall (fun u => target <= snd u) updates ->
  let fired :=
    map Index.firesTargetReached
      (snd (Index.handleLocationUpdates_of closure closure updates)) in
  fired = map (fun _ => true) updates
  /\ List.length (filter (fun b => b) fired) = List.length updates.
Proof.
  intros [_ [Hflag Htarget]] Hall fired. subst target.
  assert (E : fired = map (fun _ => true) updates).
  { unfold fired. rewrite same_handler_fires, Hflag. cbn [negb andb].
    apply map_ext_in. intros u Hu.
    rewrite Forall_forall in Hall. apply ge_true. apply Hall. exact Hu. }
  split; [exact E|]. rewrite E.
  clear. induction updates as [|u rest IH]; [reflexivity|].
  cbn [map filter Datatypes.length]. rewrite IH. reflexivity.
Qed.

Lemma target_reached_fires_again_witness :
  let st := {| Index.currentLocation :=
                 Some {| MapUtils.lat := 40; MapUtils.lng := -74 |};
               Index.routes := []; Index.activeRouteId := None;
               Index.isLoading := false; Index.showRoutePanel := true;
               Index.isPanelCollapsed := false; Index.isRunningMode := false;
               Index.targetDistance := 0; Index.currentDistance := 0;
               Index.runningDuration := 0; Index.hasReachedTarget := false;
               Index.timerRef := false; Index.randomDraws := 0 |} in
  let session := fst (Index.handleDistanceSubmit (fun _ => 0) st 0.1 true) in
  let updates := [ (40.001, -74, 0.1); (40.0012, -74, 0.11) ] in
  Spec.session_started session 0.1
  /\ Forall (fun u => 0.1 <= snd u) updates
  /\ List.length
       (filter (fun b => b)
          (map Index.firesTargetReached
             (snd (Index.handleLocationUpdates_of session session updates))))
     = 2%nat.
Proof.
  intros st session updates.
  assert (Hs : Spec.session_started session 0.1) by (repeat split).
  assert (H : Forall (fun u => 0.1 <= snd u) updates).
  { constructor; [cbn [snd]; lra|]. constructor; [cbn [snd]; lra|]. constructor. }
  split; [exact Hs|]. split; [exact H|].
  exact (proj2 (target_reached_fires_again session 0.1 updates Hs H)).
Defined.

(** * Further properties *)

(** ** The Haversine distance in general *)

Lemma calculateDistance_hundredths (lat1 lon1 lat2 lon2 : R) :
  exists n : Z,
    (0 <= n)%Z
    /\ LocationUtils.calculateDistance lat1 lon1 lat2 lon2 = IZR n / 100
    /\ IZR n / 100 <= 3958.8 * PI + 1 / 200.
Proof.
  unfold LocationUtils.calculateDistance. cbv zeta.
  match goal with
  | |- context [JS.Math_atan2 (sqrt ?a) (sqrt ?b)] =>
      pose proof (atan2_first_quadrant (sqrt a) (sqrt b)
                    (sqrt_pos a) (sqrt_pos b)) as [Hlo Hhi];
      set (c := JS.Math_atan2 (sqrt a) (sqrt b)) in *
  end.
  destruct (parseFloat_toFixed2_nonneg (3958.8 * (2 * c)))
    as [n [E [Hn [_ Hub]]]]; [nra|].
  exists n. split; [exact Hn|]. split; [exact E|]. nra.
Qed.

Lemma calculateDistance_nonneg (lat1 lon1 lat2 lon2 : R) :
  0 <= LocationUtils.calculateDistance lat1 lon1 lat2 lon2.
Proof.
  destruct (calculateDistance_hundredths lat1 lon1 lat2 lon2) as [n [Hn [E _]]].
  rewrite E. apply IZR_le in Hn. lra.
Qed.

Lemma calculateDistance_equator (lon1 lon2 : R) :
  Rabs (lon2 - lon1) < 180 ->
  LocationUtils.calculateDistance 0 lon1 0 lon2
  = JS.parseFloat_toFixed (3958.8 * (Rabs (lon2 - lon1) * PI / 180)) 2.
Proof.
  intros Hd. unfold LocationUtils.calculateDistance, LocationUtils.toRad.
  cbv zeta.
  replace ((0 - 0) * PI / 180 / 2) with 0 by lra.
  replace (0 * PI / 180) with 0 by lra.
  rewrite sin_0, cos_0.
  set (h := (lon2 - lon1) * PI / 180 / 2).
  replace (0 * 0 + 1 * 1 * sin h * sin h) with (sin h * sin h) by ring.
  assert (Hh : - (PI / 2) < h < PI / 2).
  { pose proof PI_RGT_0 as Hpi. unfold h.
    apply Rabs_def2 in Hd. destruct Hd as [Hd1 Hd2]. split; nra. }
  rewrite haversine_central_angle by exact Hh.
  f_equal. f_equal. unfold h.
  replace ((lon2 - lon1) * PI / 180 / 2) with ((lon2 - lon1) * (PI / 360))
    by lra.
  rewrite Rabs_mult.
  rewrite (Rabs_pos_eq (PI / 360)) by (pose proof PI_RGT_0; lra).
  lra.
Qed.

(** A step of at most 0.00005 degrees along a meridian measures less than
    half a hundredth of a mile and is rounded to 0. *)
Lemma small_step_rounds_to_zero (lat1 lat2 lon : R) :
  Rabs (lat2 - lat1) <= 0.00005 ->
  LocationUtils.calculateDistance lat1 lon lat2 lon = 0.
Proof.
  intros Hd. rewrite calculateDistance_meridian by lra.
  pose proof (Rabs_pos (lat2 - lat1)) as Ha.
  pose proof PI_4 as Hpi. pose proof PI_RGT_0 as Hpi0.
  set (v := 3958.8 * (Rabs (lat2 - lat1) * PI / 180)).
  assert (Hv : 0 <= v < 0.0044) by (unfold v; split; nra).
  unfold JS.parseFloat_toFixed.
  assert (Hlt : JS.lt v 0 = false) by (apply lt_false; lra).
  rewrite Hlt. unfold JS.toFixed_int.
  rewrite (Zfloor_eq 0) by (simpl; lra). simpl. lra.
Qed.

(** X1.  The distance from a first point to a second is the distance from
    the second to the first. *)
Theorem calculateDistance_symmetric (lat1 lon1 lat2 lon2 : R) :
  LocationUtils.calculateDistance lat1 lon1 lat2 lon2
  = LocationUtils.calculateDistance lat2 lon2 lat1 lon1.
Proof.
  unfold LocationUtils.calculateDistance, LocationUtils.toRad. cbv zeta.
  replace ((lat1 - lat2) * PI / 180 / 2)
    with (- ((lat2 - lat1) * PI / 180 / 2)) by lra.
  replace ((lon1 - lon2) * PI / 180 / 2)
    with (- ((lon2 - lon1) * PI / 180 / 2)) by lra.
  rewrite !sin_neg.
  set (s := sin ((lat2 - lat1) * PI / 180 / 2)).
  set (u := sin ((lon2 - lon1) * PI / 180 / 2)).
  set (c1 := cos (lat1 * PI / 180)). set (c2 := cos (lat2 * PI / 180)).
  replace (- s * - s + c2 * c1 * - u * - u) with (s * s + c1 * c2 * u * u)
    by ring.
  reflexivity.
Qed.

(** X2.  The distance from a point to itself is 0, wherever the point. *)
Theorem calculateDistance_same_point (lat lon : R) :
  LocationUtils.calculateDistance lat lon lat lon = 0.
Proof.
  apply small_step_rounds_to_zero.
  rewrite Rminus_diag, Rabs_R0. lra.
Qed.

Lemma Rabs_le_bounds (x b : R) : Rabs x <= b -> - b <= x <= b.
Proof. unfold Rabs. destruct (Rcase_abs x); lra. Qed.

Lemma sin_sqr_quarter_turn (x : R) :
  Rabs x <= PI / 4 -> 0 <= sin x * sin x <= 1 / 2.
Proof.
  intros Hx. apply Rabs_le_bounds in Hx. destruct Hx as [Hl Hu].
  assert (Hc : 0 <= cos (2 * x)) by (apply cos_ge_0; lra).
  rewrite cos_2a_sin in Hc.
  pose proof (Rle_0_sqr (sin x)) as Hs. unfold Rsqr in Hs. lra.
Qed.

Lemma cos_product_bound (p q : R) :
  cos p * cos q <= 1 - sin ((q - p) / 2) * sin ((q - p) / 2).
Proof.
  pose proof (cos_minus q p) as Hm. pose proof (cos_plus q p) as Hp.
  pose proof (COS_bound (q + p)) as [_ Hb].
  pose proof (cos_2a_sin ((q - p) / 2)) as H2.
  replace (2 * ((q - p) / 2)) with (q - p) in H2 by lra.
  lra.
Qed.

Lemma haversine_term_bound (lat1 lon1 lat2 lon2 : R) :
  -90 <= lat1 <= 90 -> -90 <= lat2 <= 90 ->
  Rabs (lat2 - lat1) <= 90 -> Rabs (lon2 - lon1) <= 90 ->
  let a :=
    sin (LocationUtils.toRad (lat2 - lat1) / 2)
    * sin (LocationUtils.toRad (lat2 - lat1) / 2)
    + cos (LocationUtils.toRad lat1) * cos (LocationUtils.toRad lat2)
      * sin (LocationUtils.toRad (lon2 - lon1) / 2)
      * sin (LocationUtils.toRad (lon2 - lon1) / 2) in
  0 <= a <= 3 / 4.
Proof.
  intros H1 H2 Hlat Hlon a. unfold LocationUtils.toRad in a.
  pose proof PI_RGT_0 as Hpi.
  assert (Hx : Rabs ((lat2 - lat1) * PI / 180 / 2) <= PI / 4).
  { apply Rabs_le. apply Rabs_le_bounds in Hlat. split; nra. }
  assert (Hy : Rabs ((lon2 - lon1) * PI / 180 / 2) <= PI / 4).
  { apply Rabs_le. apply Rabs_le_bounds in Hlon. split; nra. }
  pose proof (sin_sqr_quarter_turn _ Hx) as [Hs1 Hs1'].
  pose proof (sin_sqr_quarter_turn _ Hy) as [Hs2 Hs2'].
  assert (Hc1 : 0 <= cos (lat1 * PI / 180)) by (apply cos_ge_0; nra).
  assert (Hc2 : 0 <= cos (lat2 * PI / 180)) by (apply cos_ge_0; nra).
  pose proof (cos_product_bound (lat1 * PI / 180) (lat2 * PI / 180)) as Hcp.
  replace ((lat2 * PI / 180 - lat1 * PI / 180) / 2)
    with ((lat2 - lat1) * PI / 180 / 2) in Hcp by lra.
  set (S1 := sin ((lat2 - lat1) * PI / 180 / 2)
             * sin ((lat2 - lat1) * PI / 180 / 2)) in *.
  set (S2 := sin ((lon2 - lon1) * PI / 180 / 2)
             * sin ((lon2 - lon1) * PI / 180 / 2)) in *.
  set (C := cos (lat1 * PI / 180) * cos (lat2 * PI / 180)) in *.
  assert (HC : 0 <= C) by (unfold C; apply Rmult_le_pos; assumption).
  assert (Ea : a = S1 + C * S2) by (unfold a, S1, S2, C; ring).
  rewrite Ea.
  assert (Hlo : 0 <= C * S2) by (apply Rmult_le_pos; assumption).
  assert (Hhi : C * S2 <= C * (1 / 2))
    by (apply Rmult_le_compat_l; assumption).
  split; lra.
Qed.

Lemma atan_sqrt3 : atan (sqrt 3) = PI / 3.
Proof.
  rewrite <- tan_PI3. apply atan_tan. pose proof PI_RGT_0. lra.
Qed.

Lemma atan2_third_turn (a : R) :
  0 <= a <= 3 / 4 ->
  0 <= JS.Math_atan2 (sqrt a) (sqrt (1 - a)) <= PI / 3.
Proof.
  intros [Ha0 Ha1].
  assert (Hb : 0 < sqrt (1 - a)) by (apply sqrt_lt_R0; lra).
  split.
  - apply (atan2_first_quadrant (sqrt a) (sqrt (1 - a)));
      [apply sqrt_pos | lra].
  - rewrite atan2_pos_x by exact Hb.
    rewrite <- sqrt_div_alt by lra.
    rewrite <- atan_sqrt3.
    assert (Hq : a / (1 - a) <= 3).
    { apply Rmult_le_reg_r with (1 - a); [lra|].
      unfold Rdiv. rewrite Rmult_assoc, Rinv_l by lra. lra. }
    apply sqrt_le_1_alt in Hq.
    destruct Hq as [Hq|Hq].
    + left. apply atan_increasing. exact Hq.
    + rewrite Hq. right. reflexivity.
Qed.

(** X3.  For two positions with latitudes between -90 and 90 whose
    latitudes differ by at most 90 degrees and whose longitudes differ by
    at most 90 degrees, the distance is a whole number of hundredths of a
    mile, not negative, and at most a third of the circumference of the
    Earth (3958.8 times 2 pi / 3 miles) up to the rounding. *)
Theorem calculateDistance_range (lat1 lon1 lat2 lon2 : R) :
  -90 <= lat1 <= 90 -> -90 <= lat2 <= 90 ->
  Rabs (lat2 - lat1) <= 90 -> Rabs (lon2 - lon1) <= 90 ->
  exists n : Z,
    (0 <= n)%Z
    /\ LocationUtils.calculateDistance lat1 lon1 lat2 lon2 = IZR n / 100
    /\ IZR n / 100 <= 3958.8 * (2 * PI / 3) + 1 / 200.
Proof.
  intros H1 H2 Hlat Hlon.
  pose proof (haversine_term_bound lat1 lon1 lat2 lon2 H1 H2 Hlat Hlon) as Ha.
  cbv zeta in Ha.
  unfold LocationUtils.calculateDistance. cbv zeta.
  match goal with
  | |- context [JS.Math_atan2 (sqrt ?a) (sqrt (1 - ?a))] =>
      pose proof (atan2_third_turn a Ha) as [Hlo Hhi];
      set (c := JS.Math_atan2 (sqrt a) (sqrt (1 - a))) in *
  end.
  destruct (parseFloat_toFixed2_nonneg (3958.8 * (2 * c))) as [n [E [Hn [_ Hup]]]];
    [lra|].
  exists n. split; [exact Hn|]. split; [exact E|]. lra.
Qed.

Lemma calculateDistance_range_witness :
  -90 <= 45 <= 90 /\ -90 <= -45 <= 90
  /\ Rabs (-45 - 45) <= 90 /\ Rabs (90 - 0) <= 90
  /\ exists n : Z,
       (0 <= n)%Z
       /\ LocationUtils.calculateDistance 45 0 (-45) 90 = IZR n / 100
       /\ IZR n / 100 <= 3958.8 * (2 * PI / 3) + 1 / 200.
Proof.
  assert (H1 : -90 <= 45 <= 90) by lra.
  assert (H2 : -90 <= -45 <= 90) by lra.
  assert (H3 : Rabs (-45 - 45) <= 90) by (apply Rabs_le; lra).
  assert (H4 : Rabs (90 - 0) <= 90) by (apply Rabs_le; lra).
  split; [exact H1|]. split; [exact H2|]. split; [exact H3|].
  split; [exact H4|].
  exact (calculateDistance_range 45 0 (-45) 90 H1 H2 H3 H4).
Defined.

(** X4.  Between two points of one meridian, and between two points of the
    equator, less than 180 degrees apart, the distance is the arc: the
    radius 3958.8 times the difference in radians, rounded to two
    decimals. *)
Theorem calculateDistance_great_circle (a b c : R) :
  Rabs (b - a) < 180 ->
  LocationUtils.calculateDistance a c b c
  = JS.parseFloat_toFixed (3958.8 * (Rabs (b - a) * PI / 180)) 2
  /\ LocationUtils.calculateDistance 0 a 0 b
     = JS.parseFloat_toFixed (3958.8 * (Rabs (b - a) * PI / 180)) 2.
Proof.
  intros H. split.
  - apply calculateDistance_meridian. exact H.
  - apply calculateDistance_equator. exact H.
Qed.

Lemma calculateDistance_great_circle_witness :
  Rabs (1 - 0) < 180
  /\ LocationUtils.calculateDistance 0 (-74) 1 (-74)
     = JS.parseFloat_toFixed (3958.8 * (Rabs (1 - 0) * PI / 180)) 2.
Proof.
  assert (H : Rabs (1 - 0) < 180) by (rewrite Rabs_pos_eq; lra).
  split; [exact H|].
  exact (proj1 (calculateDistance_great_circle 0 1 (-74) H)).
Defined.

(** X5.  Below 0.1 miles the figure shown is a whole number of feet
    between 0 and 528 for a distance that is not negative; from 0.1 miles
    on the figure shown is at least one tenth of a mile, never 0.0. *)
Theorem formatDistance_bounds (miles : R) :
  (0 <= miles < 0.1 ->
   exists feet : Z,
     (0 <= feet <= 528)%Z
     /\ LocationUtils.formatDistance miles
        = (JS.string_of_int feet ++ " ft")%string)
  /\ (0.1 <= miles ->
      exists tenths : Z,
        (1 <= tenths)%Z
        /\ LocationUtils.formatDistance miles
           = (JS.string_of_int (tenths / 10) ++ "."
              ++ String (JS.digit (tenths mod 10)) " mi")%string).
Proof.
  split.
  - intros [H0 H1]. exists (Zfloor (miles * 5280 + 1 / 2)).
    pose proof (Zfloor_bound (miles * 5280 + 1 / 2)) as Hb.
    split.
    + split.
      * apply Zfloor_lub. simpl. lra.
      * assert (Hlt : (Zfloor (miles * 5280 + 1 / 2) < 529)%Z)
          by (apply lt_IZR; lra).
        lia.
    + apply formatDistance_feet; lra.
  - intros H. exists (Zfloor (miles * 10 + 1 / 2)).
    pose proof (Zfloor_bound (miles * 10 + 1 / 2)) as Hb.
    split.
    + apply Zfloor_lub. simpl. lra.
    + apply formatDistance_miles; lra.
Qed.

Lemma formatDistance_bounds_witness :
  0 <= 0.0999 < 0.1
  /\ exists feet : Z,
       (0 <= feet <= 528)%Z
       /\ LocationUtils.formatDistance 0.0999
          = (JS.string_of_int feet ++ " ft")%string.
Proof.
  assert (H : 0 <= 0.0999 < 0.1) by lra.
  split; [exact H|].
  exact (proj1 (formatDistance_bounds 0.0999) H).
Defined.

(** ** Decimal digits read back *)

Lemma decimal_value_snoc (l : list ascii) (c : ascii) :
  Spec.decimal_value (l ++ [c])
  = (10 * Spec.decimal_value l + (Z.of_nat (nat_of_ascii c) - 48))%Z.
Proof. unfold Spec.decimal_value. rewrite fold_left_app. reflexivity. Qed.

Lemma digit_value (d : Z) :
  (0 <= d < 10)%Z -> (Z.of_nat (nat_of_ascii (JS.digit d)) - 48 = d)%Z.
Proof.
  intros H. unfold JS.digit. rewrite nat_ascii_embedding by lia. lia.
Qed.

Lemma decimal_value_digits (n : Z) :
  (0 <= n)%Z -> Spec.decimal_value (JS.digits n) = n.
Proof.
  revert n. apply (Zlt_0_ind (fun n => Spec.decimal_value (JS.digits n) = n)).
  intros n IH Hn.
  destruct (Z_lt_le_dec n 10) as [Hs|Hl].
  - rewrite digits_small by exact Hs. unfold Spec.decimal_value. cbn [fold_left].
    rewrite digit_value by lia. lia.
  - rewrite digits_step by exact Hl.
    rewrite decimal_value_snoc, IH, digit_value.
    + rewrite (Z.div_mod n 10) at 3 by lia. lia.
    + apply Z.mod_pos_bound. lia.
    + split; [apply Z.div_pos; lia | apply Z.div_lt; lia].
Qed.

Lemma string_of_int_injective (a b : Z) :
  (0 <= a)%Z -> (0 <= b)%Z -> JS.string_of_int a = JS.string_of_int b -> a = b.
Proof.
  intros Ha Hb E. unfold JS.string_of_int, JS.chars_of_int in E.
  assert (Ea : (a <? 0)%Z = false) by (apply Z.ltb_ge; exact Ha).
  assert (Eb : (b <? 0)%Z = false) by (apply Z.ltb_ge; exact Hb).
  rewrite Ea, Eb in E.
  apply (f_equal list_ascii_of_string) in E.
  rewrite !list_ascii_of_string_of_list_ascii in E.
  rewrite <- (decimal_value_digits a Ha), <- (decimal_value_digits b Hb), E.
  reflexivity.
Qed.

Lemma decimal_value_zero_padded (k : nat) (l : list ascii) :
  Spec.decimal_value (repeat "0"%char k ++ l) = Spec.decimal_value l.
Proof.
  induction k as [|k IH]; [reflexivity|].
  cbn [repeat app]. unfold Spec.decimal_value in *. cbn [fold_left].
  replace (10 * 0 + (Z.of_nat (nat_of_ascii "0") - 48))%Z with 0%Z
    by reflexivity.
  exact IH.
Qed.

Lemma digits_length_below_100 (n : Z) :
  (0 <= n < 100)%Z -> (1 <= List.length (JS.digits n) <= 2)%nat.
Proof.
  intros H. destruct (Z_lt_le_dec n 10) as [Hs|Hl].
  - rewrite digits_small by exact Hs. cbn. lia.
  - rewrite digits_step by exact Hl.
    rewrite digits_small by (apply Z.div_lt_upper_bound; lia). cbn. lia.
Qed.

Lemma length_string_of_list_ascii (l : list ascii) :
  String.length (string_of_list_ascii l) = List.length l.
Proof. induction l as [|c l IH]; cbn; [reflexivity | rewrite IH; reflexivity]. Qed.

Lemma padStart2_length (l : list ascii) :
  (2 <= List.length (RunningStats.padStart2 l))%nat
  /\ ((List.length l <= 2)%nat ->
      List.length (RunningStats.padStart2 l) = 2%nat).
Proof.
  unfold RunningStats.padStart2. rewrite length_app, repeat_length. lia.
Qed.

(** X6.  An elapsed time of [seconds] is shown as minutes, a colon and
    seconds: the seconds always take two characters and stay below 60, the
    minutes take at least two, sixty times the minutes plus the seconds is
    the elapsed time again, and below 100 minutes the text is five
    characters long. *)
Theorem formatDuration_reads_back (seconds : Z) :
  (0 <= seconds)%Z ->
  exists mm ss,
    RunningStats.formatDuration seconds
    = string_of_list_ascii (mm ++ ":"%char :: ss)
    /\ List.length ss = 2%nat
    /\ (2 <= List.length mm)%nat
    /\ (Spec.decimal_value ss < 60)%Z
    /\ (60 * Spec.decimal_value mm + Spec.decimal_value ss = seconds)%Z
    /\ ((seconds < 6000)%Z ->
        String.length (RunningStats.formatDuration seconds) = 5%nat).
Proof.
  intros Hs. unfold RunningStats.formatDuration. cbv zeta.
  assert (Hm : (0 <= seconds / 60)%Z) by (apply Z.div_pos; lia).
  rewrite Z.rem_mod_nonneg by lia.
  pose proof (Z.mod_pos_bound seconds 60 ltac:(lia)) as Hr.
  unfold JS.chars_of_int.
  assert (E1 : (seconds / 60 <? 0)%Z = false) by (apply Z.ltb_ge; lia).
  assert (E2 : (seconds mod 60 <? 0)%Z = false) by (apply Z.ltb_ge; lia).
  rewrite E1, E2.
  exists (RunningStats.padStart2 (JS.digits (seconds / 60))),
         (RunningStats.padStart2 (JS.digits (seconds mod 60))).
  split; [reflexivity|].
  pose proof (digits_length_below_100 (seconds mod 60) ltac:(lia)) as Hl.
  pose proof (padStart2_length (JS.digits (seconds mod 60))) as [_ Hss].
  pose proof (padStart2_length (JS.digits (seconds / 60))) as [Hmm Hmm2].
  split; [apply Hss; lia|]. split; [exact Hmm|].
  unfold RunningStats.padStart2 at 1 2 3.
  rewrite !decimal_value_zero_padded, !decimal_value_digits by lia.
  split; [lia|]. split.
  - rewrite (Z.div_mod seconds 60) at 3 by lia. lia.
  - intros H6000.
    rewrite length_string_of_list_ascii.
    rewrite length_app. cbn [Datatypes.length].
    assert (Hq : (0 <= seconds / 60 < 100)%Z)
      by (split; [lia | apply Z.div_lt_upper_bound; lia]).
    pose proof (digits_length_below_100 (seconds / 60) Hq) as Hlm.
    rewrite Hmm2, Hss by lia. reflexivity.
Qed.

Lemma formatDuration_reads_back_witness :
  (0 <= 75)%Z
  /\ String.length (RunningStats.formatDuration 75) = 5%nat.
Proof.
  assert (H : (0 <= 75)%Z) by lia.
  split; [exact H|].
  destruct (formatDuration_reads_back 75 H) as [mm [ss [_ [_ [_ [_ [_ L]]]]]]].
  apply L. lia.
Defined.

(** X7.  With a positive target the progress bar is never wider than 100
    percent, is exactly 100 percent when the distance has reached the
    target and only then, and is not negative for a distance that is
    not. *)
Theorem progress_is_capped (distance targetDistance : R) :
  0 < targetDistance ->
  RunningStats.progress distance targetDistance <= 100
  /\ (RunningStats.progress distance targetDistance = 100
      <-> targetDistance <= distance)
  /\ (0 <= distance -> 0 <= RunningStats.progress distance targetDistance).
Proof.
  intros Ht. unfold RunningStats.progress.
  assert (Hq : distance / targetDistance * 100 <= 100 <-> distance <= targetDistance).
  { split; intros H.
    - apply Rmult_le_reg_r with (/ targetDistance * 100).
      + apply Rmult_lt_0_compat; [apply Rinv_0_lt_compat; exact Ht | lra].
      + replace (targetDistance * (/ targetDistance * 100)) with 100
          by (field; lra).
        unfold Rdiv in H. lra.
    - assert (distance / targetDistance <= 1).
      { apply Rmult_le_reg_r with targetDistance; [exact Ht|].
        unfold Rdiv. rewrite Rmult_assoc, Rinv_l by lra. lra. }
      lra. }
  unfold Rmin. destruct (Rle_dec (distance / targetDistance * 100) 100) as [Hle|Hgt].
  - split; [exact Hle|]. split.
    + split; intros H.
      * assert (100 <= distance / targetDistance * 100) by lra.
        assert (1 <= distance / targetDistance) by lra.
        apply Rmult_le_reg_r with (/ targetDistance);
          [apply Rinv_0_lt_compat; exact Ht|].
        rewrite Rinv_r by lra. unfold Rdiv in *. lra.
      * apply Hq in Hle. assert (distance = targetDistance) by lra. subst.
        field. lra.
    + intros Hd. apply Rmult_le_pos; [|lra].
      unfold Rdiv. apply Rmult_le_pos; [exact Hd|].
      left. apply Rinv_0_lt_compat. exact Ht.
  - split; [lra|]. split; [|intros; lra].
    split; [intros _|reflexivity].
    destruct (Rle_dec targetDistance distance) as [H|H]; [exact H|].
    exfalso. apply Hgt. apply Hq. lra.
Qed.

Lemma progress_is_capped_witness :
  0 < 2 /\ RunningStats.progress 3 2 = 100.
Proof.
  assert (H : 0 < 2) by lra.
  split; [exact H|].
  apply (proj1 (proj2 (progress_is_capped 3 2 H))). lra.
Defined.

(** X8.  Whatever is typed into the number field, valid or not, and
    however often the mode is toggled, the distance the form submits lies
    between 0.1 and 10 miles (the slider apart, whose values the handler
    takes as they come). *)
Theorem submitted_distance_in_range (events : list DistanceInput.Event) :
  let st := fold_left DistanceInput.handle events DistanceInput.initial in
  0.1 <= fst (DistanceInput.handleSubmit st) <= 10.
Proof.
  cbv zeta. unfold DistanceInput.handleSubmit. cbn [fst].
  assert (Hinit : 0.1 <= DistanceInput.distance DistanceInput.initial <= 10)
    by (cbn; lra).
  revert Hinit. generalize DistanceInput.initial as st.
  induction events as [|e events IH]; intros st Hst; [exact Hst|].
  cbn [fold_left]. apply IH.
  destruct e as [[v|]|]; cbn [DistanceInput.handle DistanceInput.handleInputChange
    DistanceInput.toggleMode DistanceInput.distance]; try exact Hst.
  destruct (JS.gt v 0); [|exact Hst]. cbn [DistanceInput.distance].
  unfold Rmin, Rmax.
  destruct (Rle_dec v 0.1); destruct (Rle_dec _ 10); lra.
Qed.

(** ** Geometric synthesis, further *)

(** X9.  Away from the poles, the point generated around a centre lies at
    the requested distance from it, in the approximation of 69 miles to a
    degree with longitudes shrunk by the cosine of the latitude, whatever
    the random angle. *)
Theorem generated_point_is_at_distance
    (rng : nat -> R) (centerLat centerLng distance : R) (n : nat) :
  cos (centerLat * PI / 180) <> 0 ->
  exists p,
    MapUtils.generatePointAtDistance rng centerLat centerLng distance n
    = (JS.Normal p, S n)
    /\ Spec.on_circle centerLat centerLng distance p.
Proof.
  intros Hc. eexists. split; [reflexivity|].
  unfold Spec.on_circle. cbn [MapUtils.lat MapUtils.lng].
  set (a := rng n * 2 * PI). set (c := cos (centerLat * PI / 180)) in *.
  replace (69 * (centerLat + cos a * (distance / 69) - centerLat))
    with (cos a * distance) by lra.
  replace (69 * c * (centerLng + sin a * (distance / 69) / c - centerLng))
    with (sin a * distance) by (field; exact Hc).
  pose proof (sin2_cos2 a) as H. unfold Rsqr in H.
  replace ((cos a * distance) ^ 2 + (sin a * distance) ^ 2)
    with ((sin a * sin a + cos a * cos a) * distance ^ 2) by ring.
  rewrite H. ring.
Qed.

Lemma generated_point_is_at_distance_witness :
  cos (0 * PI / 180) <> 0
  /\ exists p,
       MapUtils.generatePointAtDistance (fun _ => 0.25) 0 (-74) 0.5 0%nat
       = (JS.Normal p, 1%nat)
       /\ Spec.on_circle 0 (-74) 0.5 p.
Proof.
  assert (H : cos (0 * PI / 180) <> 0).
  { replace (0 * PI / 180) with 0 by lra. rewrite cos_0. lra. }
  split; [exact H|].
  exact (generated_point_is_at_distance (fun _ => 0.25) 0 (-74) 0.5 0%nat H).
Defined.

Section GeometricWalk.
Import MapUtils.
Variable rng : nat -> R.

Lemma generateRoute_loop_band (k : nat) :
  forall (currentLat currentLng d : R) (acc : list Point) (n : nat),
  exists pts,
    generateRoute_loop rng k currentLat currentLng d acc n
    = (JS.Normal (acc ++ pts), (k + n)%nat)
    /\ List.length pts = k
    /\ Forall (fun p => Rabs (lat p - currentLat) * 69 <= INR k * Rabs d) pts.
Proof.
  induction k as [|k IH]; intros currentLat currentLng d acc n.
  - exists []. rewrite app_nil_r. repeat split; constructor.
  - cbn [generateRoute_loop].
    unfold JS.bind at 1, generatePointAtDistance, JS.bind, Math_random, JS.ret.
    match goal with
    | |- context [generateRoute_loop rng k ?a ?b d (acc ++ [?p]) (S n)] =>
        destruct (IH a b d (acc ++ [p]) (S n)) as [pts [E [L B]]];
        exists (p :: pts);
        set (la := a) in *
    end.
    rewrite E, <- app_assoc. cbn [app Datatypes.length].
    split; [f_equal; lia|]. split; [congruence|].
    assert (Hstep : Rabs (la - currentLat) * 69 <= Rabs d).
    { unfold la. cbn [lat].
      replace (currentLat + cos (rng n * 2 * PI) * (d / 69) - currentLat)
        with (cos (rng n * 2 * PI) * d / 69) by lra.
      unfold Rdiv. rewrite !Rabs_mult.
      rewrite (Rabs_pos_eq (/ 69)) by lra.
      pose proof (COS_bound (rng n * 2 * PI)) as [Hl Hu].
      assert (Hcos : Rabs (cos (rng n * 2 * PI)) <= 1)
        by (apply Rabs_le; lra).
      pose proof (Rabs_pos d). nra. }
    rewrite S_INR. pose proof (Rabs_pos d) as Hd. pose proof (pos_INR k) as Hk.
    constructor.
    + apply Rle_trans with (Rabs d); [exact Hstep | nra].
    + eapply Forall_impl; [|exact B]. intros p Hp. cbv beta in Hp.
      pose proof (Rabs_triang (lat p - la) (la - currentLat)) as Ht.
      replace (lat p - la + (la - currentLat)) with (lat p - currentLat) in Ht
        by lra.
      nra.
Qed.

Lemma generateRoute_band (startLat startLng targetDistance : R) (n : nat) :
  exists pts n',
    generateRoute rng startLat startLng targetDistance n = (JS.Normal pts, n')
    /\ List.length pts
       = (Z.to_nat (JS.Math_max 3 (JS.Math_floor (targetDistance * 3))) + 1)%nat
    /\ Forall (fun p => Rabs (lat p - startLat) * 69 <= Rabs targetDistance) pts.
Proof.
  unfold generateRoute.
  set (numWaypoints := JS.Math_max 3 (JS.Math_floor (targetDistance * 3))).
  assert (H3 : (3 <= numWaypoints)%Z) by (unfold numWaypoints, JS.Math_max; lia).
  set (origin := {| lat := startLat; lng := startLng |}).
  destruct (generateRoute_loop_band (Z.to_nat (numWaypoints - 1))
              startLat startLng (targetDistance / IZR numWaypoints)
              [origin] n) as [mid [E [L B]]].
  exists ([origin] ++ mid ++ [origin]). eexists.
  unfold JS.bind. rewrite E. unfold JS.ret. rewrite <- app_assoc.
  split; [reflexivity|]. split.
  - cbn [app Datatypes.length]. rewrite length_app, L. cbn [Datatypes.length]. lia.
  - assert (Ho : Rabs (lat origin - startLat) * 69 <= Rabs targetDistance).
    { cbn [lat origin]. rewrite Rminus_diag, Rabs_R0.
      pose proof (Rabs_pos targetDistance). lra. }
    apply Forall_app. split; [constructor; [exact Ho | constructor]|].
    apply Forall_app. split; [|constructor; [exact Ho | constructor]].
    eapply Forall_impl; [|exact B]. intros p Hp. cbv beta in Hp.
    assert (Hn : 0 < IZR numWaypoints) by (apply IZR_lt; lia).
    rewrite INR_IZR_INZ, Z2Nat.id in Hp by lia.
    rewrite minus_IZR in Hp.
    unfold Rdiv in Hp. rewrite Rabs_mult in Hp.
    rewrite (Rabs_pos_eq (/ IZR numWaypoints)) in Hp
      by (left; apply Rinv_0_lt_compat; exact Hn).
    pose proof (Rabs_pos targetDistance) as Ht.
    assert (Hf : (IZR numWaypoints - 1) * (Rabs targetDistance * / IZR numWaypoints)
                 <= Rabs targetDistance).
    { replace ((IZR numWaypoints - 1) * (Rabs targetDistance * / IZR numWaypoints))
        with (Rabs targetDistance - Rabs targetDistance * / IZR numWaypoints)
        by (field; lra).
      assert (0 < / IZR numWaypoints) by (apply Rinv_0_lt_compat; exact Hn).
      nra. }
    lra.
Qed.

End GeometricWalk.

(** X10.  A geometric route whose distance field is [d] has exactly
    [max(3, floor(3 d)) + 1] points, and none of them lies further north
    or south of the start than [d] miles, at 69 miles to a degree. *)
Theorem geometric_route_size_and_band
    (rng : nat -> R) (startLat startLng targetDistance : R)
    (numRoutes : Z) (n : nat) :
  exists routes n',
    MapUtils.generateRouteOptions rng startLat startLng targetDistance
      numRoutes n = (JS.Normal routes, n')
    /\ Forall (fun r =>
         List.length (MapUtils.points r)
         = (Z.to_nat (JS.Math_max 3
                        (JS.Math_floor (MapUtils.distance r * 3))) + 1)%nat
         /\ Forall (fun p =>
              Rabs (MapUtils.lat p - startLat) * 69
              <= Rabs (MapUtils.distance r)) (MapUtils.points r)) routes.
Proof.
  destruct (generateRouteOptions_spec rng startLat startLng targetDistance
              numRoutes n) as [routes [n' [E [_ F]]]].
  exists routes, n'. split; [exact E|].
  eapply Forall_impl; [|exact F].
  intros r [m [m' [_ G]]].
  destruct (generateRoute_band rng startLat startLng (MapUtils.distance r) (S m))
    as [pts [m'' [G' [L B]]]].
  rewrite G in G'. injection G' as Hpts _. subst pts. split; assumption.
Qed.

(** X11.  With draws in [0, 1) and a request of at most 10 miles, the
    upper end of the distance input, every geometric route has between 4
    and 32 points. *)
Theorem geometric_route_at_most_32_points
    (rng : nat -> R) (startLat startLng targetDistance : R)
    (numRoutes : Z) (n : nat) :
  (forall k, 0 <= rng k < 1) ->
  targetDistance <= 10 ->
  exists routes n',
    MapUtils.generateRouteOptions rng startLat startLng targetDistance
      numRoutes n = (JS.Normal routes, n')
    /\ Forall (fun r => (4 <= List.length (MapUtils.points r) <= 32)%nat) routes.
Proof.
  intros Hrng HT.
  destruct (generateRouteOptions_spec rng startLat startLng targetDistance
              numRoutes n) as [routes [n' [E [_ F]]]].
  exists routes, n'. split; [exact E|].
  eapply Forall_impl; [|exact F].
  intros r [m [m' [D G]]].
  destruct (generateRoute_band rng startLat startLng (MapUtils.distance r) (S m))
    as [pts [m'' [G' [L _]]]].
  rewrite G in G'. injection G' as Hpts _. subst pts. rewrite L.
  assert (Hd : MapUtils.distance r * 3 < 32).
  { rewrite D. pose proof (Hrng m) as [H0 H1].
    destruct (Rle_dec 0 targetDistance); nra. }
  assert (Hf : (JS.Math_floor (MapUtils.distance r * 3) < 32)%Z).
  { unfold JS.Math_floor. apply lt_IZR.
    pose proof (Zfloor_bound (MapUtils.distance r * 3)). lra. }
  unfold JS.Math_max. lia.
Qed.

Lemma geometric_route_at_most_32_points_witness :
  (forall k : nat, 0 <= (fun _ : nat => 0.5) k < 1)
  /\ 2 <= 10
  /\ exists routes n',
       MapUtils.generateRouteOptions (fun _ => 0.5) 40 (-74) 2 3 0%nat
       = (JS.Normal routes, n')
       /\ Forall (fun r => (4 <= List.length (MapUtils.points r) <= 32)%nat)
            routes.
Proof.
  assert (H1 : forall k : nat, 0 <= (fun _ : nat => 0.5) k < 1)
    by (intros k; lra).
  assert (H2 : 2 <= 10) by lra.
  split; [exact H1|]. split; [exact H2|].
  exact (geometric_route_at_most_32_points (fun _ => 0.5) 40 (-74) 2 3 0%nat
           H1 H2).
Defined.

Section GeometricBatch.

Import MapUtils.

Variable rng : nat -> R.

(** The routes the loop appends are labelled by their index. *)
Lemma generateRouteOptions_loop_meta (k : nat) :
  forall (i : Z) (startLat startLng targetDistance : R)
         (acc : list Route) (n : nat),
  exists new n',
    generateRouteOptions_loop rng k i startLat startLng targetDistance acc n
    = (JS.Normal (acc ++ new), n')
    /\ List.length new = k
    /\ forall j r, nth_error new j = Some r ->
         id r = ("route-" ++ JS.string_of_int (i + Z.of_nat j))%string
         /\ description r = cycled descriptions (i + Z.of_nat j)
         /\ color r = cycled colors (i + Z.of_nat j).
Proof.
  induction k as [|k IH]; intros i startLat startLng targetDistance acc n.
  - exists [], n. rewrite app_nil_r. split; [reflexivity|]. split; [reflexivity|].
    intros j r H. destruct j; discriminate.
  - cbn [generateRouteOptions_loop].
    unfold JS.bind at 1, Math_random.
    destruct (generateRoute_spec rng startLat startLng
                (targetDistance * (0.95 + rng n * 0.1)) (S n))
      as [mid [n1 [E L]]].
    unfold JS.bind at 1. rewrite E.
    match goal with
    | |- context [generateRouteOptions_loop rng k ?j _ _ _ (acc ++ [?r]) n1] =>
        destruct (IH j startLat startLng targetDistance (acc ++ [r]) n1)
          as [new [n' [E' [L' M']]]];
        exists (r :: new), n'
    end.
    rewrite E', <- app_assoc. cbn [app Datatypes.length].
    split; [reflexivity|]. split; [congruence|].
    intros [|j] r H; cbn [nth_error] in H.
    + injection H as <-. cbn [id description color].
      rewrite Z.add_0_r. repeat split.
    + destruct (M' j r H) as [H1 [H2 H3]].
      replace (i + Z.of_nat (S j))%Z with (i + 1 + Z.of_nat j)%Z by lia.
      repeat split; assumption.
Qed.

End GeometricBatch.

Lemma generateRouteOptions_labelled
    (rng : nat -> R) (startLat startLng targetDistance : R)
    (numRoutes : Z) (n : nat) :
  exists routes n',
    MapUtils.generateRouteOptions rng startLat startLng targetDistance
      numRoutes n = (JS.Normal routes, n')
    /\ List.length routes = Z.to_nat numRoutes
    /\ (forall j r, nth_error routes j = Some r ->
          MapUtils.id r = ("route-" ++ JS.string_of_int (Z.of_nat j))%string
          /\ MapUtils.description r
             = MapUtils.cycled MapUtils.descriptions (Z.of_nat j)
          /\ MapUtils.color r = MapUtils.cycled MapUtils.colors (Z.of_nat j))
    /\ NoDup (map MapUtils.id routes).
Proof.
  unfold MapUtils.generateRouteOptions.
  destruct (generateRouteOptions_loop_meta rng (Z.to_nat numRoutes) 0
              startLat startLng targetDistance [] n) as [routes [n' [E [L M]]]].
  exists routes, n'. cbn [app] in E. split; [exact E|]. split; [exact L|]. split.
  - intros j r H. apply (M j r H).
  - apply (proj2 (NoDup_nth_error (map MapUtils.id routes))).
    intros a b Ha Hab. rewrite length_map in Ha.
    rewrite !nth_error_map in Hab.
    destruct (nth_error routes a) as [ra|] eqn:Ea;
      [|apply nth_error_None in Ea; lia].
    destruct (nth_error routes b) as [rb|] eqn:Eb; [|discriminate].
    cbn [option_map] in Hab. injection Hab as Hid.
    destruct (M a ra Ea) as [Ia _]. destruct (M b rb Eb) as [Ib _].
    rewrite Ia, Ib in Hid. cbn [Z.add] in Hid.
    assert (Hs : JS.string_of_int (Z.of_nat a) = JS.string_of_int (Z.of_nat b)).
    { cbn in Hid. repeat (injection Hid as Hid). exact Hid. }
    apply string_of_int_injective in Hs; lia.
Qed.

Lemma cycled_period_3 (arr : list string) (i : Z) :
  List.length arr = 3%nat ->
  MapUtils.cycled arr (i + 3) = MapUtils.cycled arr i.
Proof.
  intros L. unfold MapUtils.cycled. rewrite L.
  change (Z.of_nat 3) with 3%Z.
  replace (i + 3)%Z with (i + 1 * 3)%Z by lia.
  rewrite Z_mod_plus_full. reflexivity.
Qed.

(** X12.  The routes of a geometric batch are labelled by position: the
    route at index [j] has the identifier route-[j], and the colour and
    the description at [j] modulo 3 of the palettes; the identifiers of a
    batch are pairwise distinct, and colour and description come round
    again every three routes. *)
Theorem geometric_batch_labels
    (rng : nat -> R) (startLat startLng targetDistance : R)
    (numRoutes : Z) (n : nat) :
  exists routes n',
    MapUtils.generateRouteOptions rng startLat startLng targetDistance
      numRoutes n = (JS.Normal routes, n')
    /\ (forall j r, nth_error routes j = Some r ->
          MapUtils.id r = ("route-" ++ JS.string_of_int (Z.of_nat j))%string
          /\ MapUtils.description r
             = MapUtils.cycled MapUtils.descriptions (Z.of_nat j)
          /\ MapUtils.color r = MapUtils.cycled MapUtils.colors (Z.of_nat j))
    /\ NoDup (map MapUtils.id routes)
    /\ (forall j r r',
          nth_error routes j = Some r -> nth_error routes (j + 3) = Some r' ->
          MapUtils.color r' = MapUtils.color r
          /\ MapUtils.description r' = MapUtils.description r).
Proof.
  destruct (generateRouteOptions_labelled rng startLat startLng targetDistance
              numRoutes n) as [routes [n' [E [_ [M Hnd]]]]].
  exists routes, n'. split; [exact E|]. split; [exact M|].
  split; [exact Hnd|].
  intros j r r' Hj Hj3.
  destruct (M j r Hj) as [_ [D C]]. destruct (M (j + 3)%nat r' Hj3) as [_ [D' C']].
  rewrite C, C', D, D'.
  replace (Z.of_nat (j + 3)) with (Z.of_nat j + 3)%Z by lia.
  rewrite !cycled_period_3 by reflexivity. split; reflexivity.
Qed.

(** ** The directions-assisted fetch, further *)

Section DirectionsAttempts.

Import MapUtils MapUtilsDirections.

Variable service : nat -> Request -> FetchOutcome.

Lemma try_fails_at (startLat startLng targetDistance : R)
    (accessToken : string) (directionBias : R) (w : World) :
  Spec.refuses (service (List.length (requests w))
             (Spec.outbound startLat startLng targetDistance accessToken
                directionBias)) ->
  exists msg,
    fetchRouteFromMapbox_try service startLat startLng targetDistance
      accessToken directionBias w
    = (JS.Throw msg,
       Spec.sent w [Spec.outbound startLat startLng targetDistance accessToken
                 directionBias]).
Proof.
  intros Href.
  unfold fetchRouteFromMapbox_try, JS.bind at 1, fetch.
  fold (Spec.outbound startLat startLng targetDistance accessToken
          directionBias).
  destruct Href as [E | [body E]]; rewrite E; eexists; reflexivity.
Qed.

(** X13.  The fetch does what plain rotation does: attempt, and on any
    failure attempt again a quarter turn further on with the same
    distance, until an attempt succeeds.  It never ends in an error, and
    the handlers for the shorter distance and for the origin-only result
    change nothing in this. *)
Theorem fetch_is_rotation_until_success (fuel : nat) :
  forall (startLat startLng targetDistance : R) (accessToken : string)
         (directionBias : R) (w : World),
  fetchRouteFromMapbox service fuel startLat startLng targetDistance
    accessToken directionBias w
  = (option_map JS.Normal
       (fst (Spec.rotate_until_success service fuel startLat startLng
               targetDistance accessToken directionBias w)),
     snd (Spec.rotate_until_success service fuel startLat startLng
            targetDistance accessToken directionBias w)).
Proof.
  induction fuel as [|fuel IH]; intros startLat startLng targetDistance
    accessToken directionBias w.
  - reflexivity.
  - cbn [fetchRouteFromMapbox Spec.rotate_until_success].
    destruct (fetchRouteFromMapbox_try service startLat startLng
                targetDistance accessToken directionBias w) as [[pts|msg] w1].
    + reflexivity.
    + rewrite IH.
      destruct (Spec.rotate_until_success service fuel startLat startLng
                  targetDistance accessToken (directionBias + PI / 2) w1)
        as [[pts|] w2]; reflexivity.
Qed.

(** X14.  When the service refuses the first [k] requests and the attempt
    [k] quarter turns further on then succeeds, the fetch returns the
    points of that attempt, after [k] outbound requests for the unchanged
    distance. *)
Theorem fetch_recovers_after_failures (k : nat) :
  forall (extra : nat) (startLat startLng targetDistance : R)
         (accessToken : string) (directionBias : R) (w w' : World)
         (pts : list Point),
  (forall j req, (j < k)%nat ->
     Spec.refuses (service (List.length (requests w) + j) req)) ->
  fetchRouteFromMapbox_try service startLat startLng targetDistance
    accessToken (directionBias + INR k * (PI / 2))
    (Spec.sent w (map (fun j => Spec.outbound startLat startLng targetDistance
                              accessToken (directionBias + INR j * (PI / 2)))
               (seq 0 k)))
  = (JS.Normal pts, w') ->
  fetchRouteFromMapbox service (S k + extra) startLat startLng targetDistance
    accessToken directionBias w
  = (Some (JS.Normal pts), w').
Proof.
  induction k as [|k IH]; intros extra startLat startLng targetDistance
    accessToken directionBias w w' pts Hfail Hok.
  - cbn [seq map] in Hok. unfold Spec.sent in Hok. rewrite app_nil_r in Hok.
    replace (directionBias + INR 0 * (PI / 2)) with directionBias in Hok
      by (cbn [INR]; lra).
    destruct w as [d r]. cbn [draws requests] in Hok.
    cbn [Nat.add fetchRouteFromMapbox]. rewrite Hok. reflexivity.
  - change (S (S k) + extra)%nat with (S (S k + extra)).
    cbn [fetchRouteFromMapbox].
    destruct (try_fails_at startLat startLng targetDistance accessToken
                directionBias w) as [msg E].
    { specialize (Hfail 0%nat (Spec.outbound startLat startLng targetDistance
                                  accessToken directionBias) ltac:(lia)).
      rewrite Nat.add_0_r in Hfail. exact Hfail. }
    rewrite E.
    rewrite (IH extra startLat startLng targetDistance accessToken
               (directionBias + PI / 2) _ w' pts); [reflexivity| |].
    + intros j req Hj. cbn [Spec.sent requests]. rewrite length_app.
      cbn [Datatypes.length].
      replace (List.length (requests w) + 1 + j)%nat
        with (List.length (requests w) + S j)%nat by lia.
      apply Hfail. lia.
    + rewrite <- Hok. f_equal.
      * rewrite S_INR. lra.
      * unfold Spec.sent. cbn [draws requests]. f_equal.
        rewrite <- app_assoc. f_equal. cbn [seq map app]. f_equal.
        -- f_equal. cbn [INR]. lra.
        -- rewrite <- seq_shift, map_map. apply map_ext. intros j.
           f_equal. rewrite S_INR. lra.
Qed.

(** X15.  When the way out and the way back are both answered, the route
    is the way out followed by the way back without its first point, and
    exactly two requests were sent: the outbound one, and one from the
    last point of the way out to the origin. *)
Theorem fetch_joins_both_ways (fuel : nat) (startLat startLng targetDistance : R)
    (accessToken : string) (directionBias : R) (w : World)
    (c1 c2 : list (R * R)) (rest1 rest2 : list (list (R * R)))
    (lastPoint : Point) :
  service (List.length (requests w))
    (Spec.outbound startLat startLng targetDistance accessToken directionBias)
  = Response true (Directions (Some (c1 :: rest1))) ->
  nth_error (map toPoint c1) (List.length (map toPoint c1) - 1)
  = Some lastPoint ->
  service (List.length (requests w) + 1)
    (Spec.return_leg startLat startLng accessToken lastPoint)
  = Response true (Directions (Some (c2 :: rest2))) ->
  fetchRouteFromMapbox service (S fuel) startLat startLng targetDistance
    accessToken directionBias w
  = (Some (JS.Normal (map toPoint c1 ++ map toPoint (List.tl c2))),
     Spec.sent w [Spec.outbound startLat startLng targetDistance accessToken
               directionBias;
             Spec.return_leg startLat startLng accessToken lastPoint]).
Proof.
  intros Hout Hlast Hback.
  cbn [fetchRouteFromMapbox].
  unfold fetchRouteFromMapbox_try, JS.bind at 1, fetch.
  fold (Spec.outbound startLat startLng targetDistance accessToken
          directionBias).
  rewrite Hout. cbn [fst negb snd json]. unfold JS.bind at 1, JS.ret at 1.
  rewrite Hlast. unfold JS.bind at 1, fetch. cbn [requests].
  rewrite length_app. cbn [Datatypes.length].
  fold (Spec.return_leg startLat startLng accessToken lastPoint).
  rewrite Hback. cbn [fst snd json]. unfold JS.bind, JS.ret.
  unfold Spec.sent. cbn [draws requests]. rewrite <- app_assoc. reflexivity.
Qed.

(** X16.  When the way out is answered and the request for the way back
    comes back with an error status, the fetch returns the way out alone:
    a path that stops at its far end, with no further attempt. *)
Theorem fetch_keeps_one_way_route (fuel : nat) (startLat startLng targetDistance : R)
    (accessToken : string) (directionBias : R) (w : World)
    (c1 : list (R * R)) (rest1 : list (list (R * R)))
    (lastPoint : Point) (body : Body) :
  service (List.length (requests w))
    (Spec.outbound startLat startLng targetDistance accessToken directionBias)
  = Response true (Directions (Some (c1 :: rest1))) ->
  nth_error (map toPoint c1) (List.length (map toPoint c1) - 1)
  = Some lastPoint ->
  service (List.length (requests w) + 1)
    (Spec.return_leg startLat startLng accessToken lastPoint)
  = Response false body ->
  fetchRouteFromMapbox service (S fuel) startLat startLng targetDistance
    accessToken directionBias w
  = (Some (JS.Normal (map toPoint c1)),
     Spec.sent w [Spec.outbound startLat startLng targetDistance accessToken
               directionBias;
             Spec.return_leg startLat startLng accessToken lastPoint]).
Proof.
  intros Hout Hlast Hback.
  cbn [fetchRouteFromMapbox].
  unfold fetchRouteFromMapbox_try, JS.bind at 1, fetch.
  fold (Spec.outbound startLat startLng targetDistance accessToken
          directionBias).
  rewrite Hout. cbn [fst negb snd json]. unfold JS.bind at 1, JS.ret at 1.
  rewrite Hlast. unfold JS.bind at 1, fetch. cbn [requests].
  rewrite length_app. cbn [Datatypes.length].
  fold (Spec.return_leg startLat startLng accessToken lastPoint).
  rewrite Hback. cbn [fst snd]. unfold JS.ret.
  unfold Spec.sent. cbn [draws requests]. rewrite <- app_assoc. reflexivity.
Qed.

Variable rng : nat -> R.

Lemma directions_loop_shape (fuel n : nat) :
  forall (i : Z) (startLat startLng targetDistance : R) (numRoutes : Z)
         (mapboxToken : string) (acc : list Route) (w w' : World)
         (c : JS.completion (list Route)),
  generateRouteOptions_loop rng service fuel n i startLat startLng
    targetDistance numRoutes mapboxToken acc w = (Some c, w') ->
  exists res,
    c = JS.Normal res
    /\ (List.length res <= List.length acc + n)%nat.
Proof.
  induction n as [|n IH]; intros i startLat startLng targetDistance numRoutes
    mapboxToken acc w w' c E.
  - cbn in E. injection E as <- _. exists acc. split; [reflexivity | lia].
  - cbn [generateRouteOptions_loop] in E. cbv zeta in E.
    destruct (fetchRouteFromMapbox service fuel startLat startLng _ _ _ _)
      as [[[pts|msg]|] w1].
    + apply IH in E. destruct E as [res [-> Hlen]]. exists res.
      split; [reflexivity|].
      destruct (2 <? List.length pts)%nat.
      * rewrite length_app in Hlen. cbn [Datatypes.length] in Hlen. lia.
      * lia.
    + apply IH in E. destruct E as [res [-> Hlen]]. exists res.
      split; [reflexivity | lia].
    + discriminate.
Qed.

End DirectionsAttempts.

(** X17.  When the directions-assisted batch returns, it returns routes
    and no error: at most as many as were asked for, each with three
    points or more and a distance measured on its points and rounded to
    two decimals. *)
Theorem directions_batch_is_measured
    (rng : nat -> R)
    (service : nat -> MapUtilsDirections.Request
               -> MapUtilsDirections.FetchOutcome)
    (fuel : nat) (storedToken : option string)
    (startLat startLng targetDistance : R) (numRoutes : Z)
    (w w' : MapUtilsDirections.World)
    (c : JS.completion (list MapUtils.Route)) :
  MapUtilsDirections.generateRouteOptions rng service fuel storedToken
    startLat startLng targetDistance numRoutes w = (Some c, w') ->
  exists routes,
    c = JS.Normal routes
    /\ (List.length routes <= Z.to_nat numRoutes)%nat
    /\ Forall Spec.route_as_measured routes.
Proof.
  unfold MapUtilsDirections.generateRouteOptions. intros E.
  destruct (directions_loop_shape service rng _ _ _ _ _ _ _ _ _ _ _ _ E)
    as [routes [-> Hlen]].
  exists routes. split; [reflexivity|]. split; [exact Hlen|].
  eapply directions_distance_is_measured; [exact E | constructor].
Qed.

Lemma directions_batch_is_measured_witness :
  let service := fun (_ : nat) (_ : MapUtilsDirections.Request) =>
    MapUtilsDirections.Response true
      (MapUtilsDirections.Directions (Some [[(0, 0); (0, 0.001); (0, 0.002)]])) in
  exists routes w',
    MapUtilsDirections.generateRouteOptions (fun _ => 0) service 1 None
      40 (-74) 2 2
      {| MapUtilsDirections.draws := 0; MapUtilsDirections.requests := [] |}
    = (Some (JS.Normal routes), w')
    /\ List.length routes = 2%nat
    /\ Forall Spec.route_as_measured routes.
Proof.
  intros service.
  eexists. eexists.
  split; [reflexivity|]. split; [reflexivity|].
  match goal with
  | |- Forall _ ?routes =>
      destruct (directions_batch_is_measured (fun _ => 0) service 1 None
                  40 (-74) 2 2
                  {| MapUtilsDirections.draws := 0;
                     MapUtilsDirections.requests := [] |}
                  _ (JS.Normal routes) eq_refl) as [routes' [Hr [_ F]]]
  end.
  injection Hr as <-. exact F.
Defined.
Lemma fetch_recovers_after_failures_witness :
  let service := fun (k : nat) (_ : MapUtilsDirections.Request) =>
    if (k <? 2)%nat then MapUtilsDirections.NetworkError
    else MapUtilsDirections.Response true
           (MapUtilsDirections.Directions (Some [[(1, 2); (3, 4)]])) in
  let w := {| MapUtilsDirections.draws := 0;
              MapUtilsDirections.requests := [] |} in
  let far := {| MapUtils.lat := 4; MapUtils.lng := 3 |} in
  (forall j req, (j < 2)%nat ->
     Spec.refuses
       (service (List.length (MapUtilsDirections.requests w) + j)%nat req))
  /\ MapUtilsDirections.fetchRouteFromMapbox service 3 40 (-74) 2 "token" 0 w
     = (Some (JS.Normal [ {| MapUtils.lat := 2; MapUtils.lng := 1 |}; far; far ]),
        Spec.sent w
          [Spec.outbound 40 (-74) 2 "token" (0 + INR 0 * (PI / 2));
           Spec.outbound 40 (-74) 2 "token" (0 + INR 1 * (PI / 2));
           Spec.outbound 40 (-74) 2 "token" (0 + INR 2 * (PI / 2));
           Spec.return_leg 40 (-74) "token" far]).
Proof.
  intros service w far.
  assert (Hfail : forall j req, (j < 2)%nat ->
            Spec.refuses
              (service (List.length (MapUtilsDirections.requests w) + j)%nat
                 req)).
  { intros j req Hj. left.
    destruct j as [|[|j]]; [reflexivity | reflexivity | lia]. }
  split; [exact Hfail|].
  apply (fetch_recovers_after_failures service 2 0 40 (-74) 2 "token" 0 w);
    [exact Hfail | reflexivity].
Defined.

Lemma fetch_joins_both_ways_witness :
  let service := fun (_ : nat) (_ : MapUtilsDirections.Request) =>
    MapUtilsDirections.Response true
      (MapUtilsDirections.Directions (Some [[(1, 2); (3, 4)]])) in
  let w := {| MapUtilsDirections.draws := 0;
              MapUtilsDirections.requests := [] |} in
  let far := {| MapUtils.lat := 4; MapUtils.lng := 3 |} in
  service 0%nat (Spec.outbound 40 (-74) 2 "token" 0)
  = MapUtilsDirections.Response true
      (MapUtilsDirections.Directions (Some [[(1, 2); (3, 4)]]))
  /\ MapUtilsDirections.fetchRouteFromMapbox service 1 40 (-74) 2 "token" 0 w
     = (Some (JS.Normal [ {| MapUtils.lat := 2; MapUtils.lng := 1 |}; far; far ]),
        Spec.sent w [Spec.outbound 40 (-74) 2 "token" 0;
                     Spec.return_leg 40 (-74) "token" far]).
Proof.
  intros service w far. split; [reflexivity|].
  exact (fetch_joins_both_ways service 0 40 (-74) 2 "token" 0 w
           [(1, 2); (3, 4)] [(1, 2); (3, 4)] [] [] far
           eq_refl eq_refl eq_refl).
Defined.

Lemma fetch_keeps_one_way_route_witness :
  let service := fun (k : nat) (_ : MapUtilsDirections.Request) =>
    if (k =? 0)%nat
    then MapUtilsDirections.Response true
           (MapUtilsDirections.Directions (Some [[(1, 2); (3, 4)]]))
    else MapUtilsDirections.Response false MapUtilsDirections.Unreadable in
  let w := {| MapUtilsDirections.draws := 0;
              MapUtilsDirections.requests := [] |} in
  let far := {| MapUtils.lat := 4; MapUtils.lng := 3 |} in
  service 1%nat (Spec.return_leg 40 (-74) "token" far)
  = MapUtilsDirections.Response false MapUtilsDirections.Unreadable
  /\ MapUtilsDirections.fetchRouteFromMapbox service 1 40 (-74) 2 "token" 0 w
     = (Some (JS.Normal [ {| MapUtils.lat := 2; MapUtils.lng := 1 |}; far ]),
        Spec.sent w [Spec.outbound 40 (-74) 2 "token" 0;
                     Spec.return_leg 40 (-74) "token" far]).
Proof.
  intros service w far. split; [reflexivity|].
  exact (fetch_keeps_one_way_route service 0 40 (-74) 2 "token" 0 w
           [(1, 2); (3, 4)] [] far MapUtilsDirections.Unreadable
           eq_refl eq_refl eq_refl).
Defined.

Section CircularFallback.
Import MapUtils MapUtilsDirections MapUtilsCircular.

Lemma fallback_loop_spec (n : nat) :
  forall (i : Z) (startLat startLng angleStep radius : R) (acc : list Point),
  cos (startLat * PI / 180) <> 0 ->
  exists new,
    fallback_loop n i startLat startLng angleStep radius acc = acc ++ new
    /\ List.length new = n
    /\ Forall (Spec.on_circle startLat startLng (69 * radius)) new.
Proof.
  induction n as [|n IH]; intros i startLat startLng angleStep radius acc Hc.
  - exists []. rewrite app_nil_r. repeat split. constructor.
  - cbn [fallback_loop]. cbv zeta.
    match goal with
    | |- context [fallback_loop n ?j _ _ _ _ (acc ++ [?p])] =>
        destruct (IH j startLat startLng angleStep radius (acc ++ [p]) Hc)
          as [new [E [L F]]];
        exists (p :: new)
    end.
    rewrite E, <- app_assoc. split; [reflexivity|].
    split; [cbn; congruence|].
    constructor; [|exact F].
    unfold Spec.on_circle. cbn [lat lng].
    set (a := IZR i * angleStep). set (c := cos (startLat * PI / 180)) in *.
    replace (69 * (startLat + cos a * radius - startLat))
      with (cos a * (69 * radius)) by lra.
    replace (69 * c * (startLng + sin a * radius / c - startLng))
      with (sin a * (69 * radius)) by (field; exact Hc).
    pose proof (sin2_cos2 a) as H. unfold Rsqr in H.
    replace ((cos a * (69 * radius)) ^ 2 + (sin a * (69 * radius)) ^ 2)
      with ((sin a * sin a + cos a * cos a) * (69 * radius) ^ 2) by ring.
    rewrite H. ring.
Qed.


Variable rng : nat -> R.
Variable service : nat -> Request -> FetchOutcome.

Lemma circular_fetch_cases (startLat startLng targetDistance : R)
    (accessToken : string) (w : World) :
  exists pts req,
    fetchRouteFromMapbox rng service startLat startLng targetDistance
      accessToken w
    = (JS.Normal pts,
       {| draws := S (draws w); requests := requests w ++ [req] |})
    /\ (pts = []
        \/ (exists coords,
              coords <> []
              /\ pts = map toPoint coords
                       ++ [{| lat := startLat; lng := startLng |}])
        \/ pts = fetchRouteFromMapbox_catch startLat startLng targetDistance).
Proof.
  unfold fetchRouteFromMapbox, fetchRouteFromMapbox_try, JS.bind at 1,
    Math_random.
  unfold JS.bind at 1, fetch. cbn [draws requests].
  destruct (service _ _) as [|ok body].
  - eexists. eexists. split; [reflexivity|]. right. right. reflexivity.
  - destruct ok; cbn [fst negb].
    + unfold JS.bind, json. cbn [snd].
      destruct body as [|[[|coords rest]|]].
      * eexists. eexists. split; [reflexivity|]. right. right. reflexivity.
      * eexists. eexists. split; [reflexivity|]. right. right. reflexivity.
      * destruct coords as [|c coords].
        -- eexists. eexists. split; [reflexivity|]. left. reflexivity.
        -- eexists. eexists. split; [reflexivity|]. right. left.
           exists (c :: coords). split; [discriminate | reflexivity].
      * eexists. eexists. split; [reflexivity|]. right. right. reflexivity.
    + eexists. eexists. split; [reflexivity|]. right. right. reflexivity.
Qed.



End CircularFallback.


(** X19. When the request fails (network error or a response that is not
    ok) the fallback route is returned: the origin, then
    [max 3 (floor (3 * targetDistance))] points that all lie on the circle
    of radius [targetDistance / (2 * PI)] miles around the origin, then
    the origin again. *)
Theorem circular_fallback_when_refused
    (rng : nat -> R)
    (service : nat -> MapUtilsDirections.Request
               -> MapUtilsDirections.FetchOutcome)
    (startLat startLng targetDistance : R) (accessToken : string)
    (w : MapUtilsDirections.World) :
  cos (startLat * PI / 180) <> 0 ->
  (forall req,
     Spec.refuses (service (List.length (MapUtilsDirections.requests w)) req)) ->
  exists ring w',
    MapUtilsCircular.fetchRouteFromMapbox rng service startLat startLng
      targetDistance accessToken w
    = (JS.Normal ({| MapUtils.lat := startLat; MapUtils.lng := startLng |}
                  :: ring
                  ++ [{| MapUtils.lat := startLat; MapUtils.lng := startLng |}]),
       w')
    /\ List.length ring
       = Z.to_nat (JS.Math_max 3 (JS.Math_floor (targetDistance * 3)))
    /\ (3 <= List.length ring)%nat
    /\ Forall (Spec.on_circle startLat startLng (targetDistance / (2 * PI))) ring.
Proof.
  intros Hc Href.
  unfold MapUtilsCircular.fetchRouteFromMapbox,
    MapUtilsCircular.fetchRouteFromMapbox_try, JS.bind at 1,
    MapUtilsCircular.Math_random.
  unfold JS.bind at 1, MapUtilsDirections.fetch.
  cbn [MapUtilsDirections.draws MapUtilsDirections.requests].
  match goal with
  | |- context [service _ ?req] =>
      destruct (Href req) as [E | [body E]]; rewrite E
  end; cbn [fst negb].
  all: unfold MapUtilsCircular.fetchRouteFromMapbox_catch; cbv zeta.
  all: match goal with
       | |- context [MapUtilsCircular.fallback_loop ?n ?i ?a ?b ?c ?d ?acc] =>
           destruct (fallback_loop_spec n i a b c d acc Hc) as [ring [Er [L F]]]
       end.
  all: exists ring; eexists; rewrite Er; split; [reflexivity|].
  all: split; [exact L|]; split; [rewrite L; unfold JS.Math_max; lia|].
  all: replace (69 * (targetDistance / (2 * PI) / 69))
         with (targetDistance / (2 * PI)) in F
         by (field; pose proof PI_RGT_0; lra).
  all: exact F.
Qed.

Lemma circular_fallback_when_refused_witness :
  let rng := fun _ : nat => 0 in
  let service := fun (_ : nat) (_ : MapUtilsDirections.Request) =>
    MapUtilsDirections.NetworkError in
  let w := {| MapUtilsDirections.draws := 0;
              MapUtilsDirections.requests := [] |} in
  cos (0 * PI / 180) <> 0
  /\ (forall req,
        Spec.refuses
          (service (List.length (MapUtilsDirections.requests w)) req))
  /\ exists ring w',
       MapUtilsCircular.fetchRouteFromMapbox rng service 0 0 2 "token" w
       = (JS.Normal ({| MapUtils.lat := 0; MapUtils.lng := 0 |}
                     :: ring
                     ++ [{| MapUtils.lat := 0; MapUtils.lng := 0 |}]),
          w')
       /\ List.length ring
          = Z.to_nat (JS.Math_max 3 (JS.Math_floor (2 * 3)))
       /\ (3 <= List.length ring)%nat
       /\ Forall (Spec.on_circle 0 0 (2 / (2 * PI))) ring.
Proof.
  intros rng service w.
  assert (Hc : cos (0 * PI / 180) <> 0).
  { replace (0 * PI / 180) with 0 by lra. rewrite cos_0. lra. }
  assert (Href : forall req,
            Spec.refuses
              (service (List.length (MapUtilsDirections.requests w)) req)).
  { intros req. left. reflexivity. }
  split; [exact Hc|]. split; [exact Href|].
  exact (circular_fallback_when_refused rng service 0 0 2 "token" w Hc Href).
Defined.

Section CircularBatch.
Import MapUtils MapUtilsDirections MapUtilsCircular.
Variable rng : nat -> R.
Variable service : nat -> Request -> FetchOutcome.

Lemma circular_loop_spec (n : nat) :
  forall (i : Z) (startLat startLng targetDistance : R) (mapboxToken : string)
         (acc : list Route) (w : World),
  exists new w',
    generateRouteOptions_loop rng service n i startLat startLng targetDistance
      mapboxToken acc w = (JS.Normal (acc ++ new), w')
    /\ List.length new = n
    /\ Forall (fun r =>
         distance r = JS.parseFloat_toFixed (actualDistance (points r)) 2) new
    /\ draws w' = (draws w + 2 * n)%nat
    /\ List.length (requests w') = (List.length (requests w) + n)%nat.
Proof.
  induction n as [|n IH]; intros i startLat startLng targetDistance
    mapboxToken acc w.
  - exists [], w. rewrite app_nil_r. cbn [generateRouteOptions_loop JS.ret].
    repeat split; try constructor; lia.
  - cbn [generateRouteOptions_loop].
    unfold JS.bind at 1, Math_random.
    set (w0 := {| draws := S (draws w); requests := requests w |}).
    set (adjusted := targetDistance * (0.85 + rng (draws w) * 0.3)).
    destruct (circular_fetch_cases rng service startLat startLng adjusted
                mapboxToken w0) as [pts [req [E _]]].
    unfold JS.bind at 1. rewrite E. unfold JS.ret at 1.
    match goal with
    | |- context [generateRouteOptions_loop rng service n ?j _ _ _ _
                    (acc ++ [?r]) ?w1] =>
        destruct (IH j startLat startLng targetDistance mapboxToken
                    (acc ++ [r]) w1) as [new [w' [E' [L [F [D Q]]]]]];
        exists (r :: new), w'
    end.
    rewrite E', <- app_assoc. split; [reflexivity|].
    split; [cbn; congruence|].
    split; [constructor; [reflexivity | exact F]|].
    cbn [draws requests w0] in D, Q. rewrite length_app in Q.
    cbn [Datatypes.length] in Q. split; lia.
Qed.

End CircularBatch.

(** X20. With the circular fallback, a batch always has exactly
    [numRoutes] routes, each with the distance measured along its own
    points, and sends exactly one request per route. *)
Theorem circular_batch_is_full
    (rng : nat -> R)
    (service : nat -> MapUtilsDirections.Request
               -> MapUtilsDirections.FetchOutcome)
    (storedToken : option string)
    (startLat startLng targetDistance : R) (numRoutes : Z)
    (w : MapUtilsDirections.World) :
  exists routes w',
    MapUtilsCircular.generateRouteOptions rng service storedToken startLat
      startLng targetDistance numRoutes w = (JS.Normal routes, w')
    /\ List.length routes = Z.to_nat numRoutes
    /\ Forall (fun r =>
         MapUtils.distance r
         = JS.parseFloat_toFixed
             (MapUtilsDirections.actualDistance (MapUtils.points r)) 2) routes
    /\ List.length (MapUtilsDirections.requests w')
       = (List.length (MapUtilsDirections.requests w) + Z.to_nat numRoutes)%nat.
Proof.
  unfold MapUtilsCircular.generateRouteOptions. cbv zeta.
  match goal with
  | |- context [MapUtilsCircular.generateRouteOptions_loop rng service ?n ?i
                  ?a ?b ?c ?t ?acc] =>
      destruct (circular_loop_spec rng service n i a b c t acc w)
        as [routes [w' [E [L [F [_ Q]]]]]]
  end.
  exists routes, w'. cbn [app] in E. rewrite E. auto.
Qed.

Lemma last_default_irrelevant (A : Type) (l : list A) :
  forall a d1 d2 : A, List.last (a :: l) d1 = List.last (a :: l) d2.
Proof.
  induction l as [|b l IH]; intros a d1 d2; [reflexivity|].
  change (List.last (a :: b :: l) d1) with (List.last (b :: l) d1).
  change (List.last (a :: b :: l) d2) with (List.last (b :: l) d2).
  apply IH.
Qed.

Section TrackerStreams.
Import MapUtils MapComponent.
Variable env : Env.

Lemma callback_step_bounds (t : Tracker) (latitude longitude : R) :
  accumulatedDistance t
  <= accumulatedDistance (fst (watchPosition_callback env t latitude longitude))
  < accumulatedDistance t + 0.1.
Proof.
  rewrite callback_accumulated.
  destruct (lastPosition t) as [p|]; [|lra].
  cbv zeta.
  pose proof (calculateDistance_nonneg (lat p) (lng p) latitude longitude) as H0.
  destruct (JS.lt _ 0.1) eqn:E; [|lra].
  apply lt_true in E. lra.
Qed.

Lemma deliver_monotone (samples : list Point) :
  forall t : Tracker,
  accumulatedDistance t
  <= accumulatedDistance (fst (deliver env t samples))
  <= accumulatedDistance t + 0.1 * INR (List.length samples).
Proof.
  induction samples as [|s rest IH]; intros t.
  - cbn. lra.
  - rewrite deliver_cons.
    pose proof (callback_step_bounds t (lat s) (lng s)) as H1.
    pose proof (IH (fst (watchPosition_callback env t (lat s) (lng s)))) as H2.
    change (List.length (s :: rest)) with (S (List.length rest)).
    rewrite S_INR. lra.
Qed.

Lemma deliver_app (s1 s2 : list Point) :
  forall t : Tracker,
  fst (deliver env t (s1 ++ s2))
  = fst (deliver env (fst (deliver env t s1)) s2).
Proof.
  induction s1 as [|s rest IH]; intros t.
  - reflexivity.
  - cbn [app]. rewrite !deliver_cons. apply IH.
Qed.

Lemma deliver_small_steps (samples : list Point) :
  forall (t : Tracker) (p : Point),
  lastPosition t = Some p ->
  Spec.small_steps p samples ->
  accumulatedDistance (fst (deliver env t samples)) = accumulatedDistance t
  /\ lastPosition (fst (deliver env t samples))
     = Some (List.last samples p).
Proof.
  induction samples as [|s rest IH]; intros t p Hp Hs.
  - cbn. split; [reflexivity | exact Hp].
  - destruct Hs as [Hlng [Hlat Hrest]].
    rewrite deliver_cons.
    assert (Hpos : lastPosition (fst (watchPosition_callback env t (lat s) (lng s)))
                   = Some s).
    { rewrite callback_lastPosition. destruct s; reflexivity. }
    destruct (IH _ s Hpos Hrest) as [Hacc Hlast].
    rewrite Hacc, Hlast. split.
    + rewrite callback_accumulated, Hp. cbv zeta. rewrite Hlng.
      rewrite small_step_rounds_to_zero by exact Hlat.
      destruct (JS.lt 0 0.1); lra.
    + destruct rest as [|q rest]; [reflexivity|].
      change (List.last (s :: q :: rest) p) with (List.last (q :: rest) p).
      f_equal. apply last_default_irrelevant.
Qed.

Lemma deliver_effects_head (samples : list Point) :
  forall t : Tracker,
  userMarker env = true ->
  map (@hd_error Effect) (snd (deliver env t samples))
  = map (fun s => Some (SetLngLat (lng s) (lat s))) samples.
Proof.
  induction samples as [|s rest IH]; intros t Hm.
  - reflexivity.
  - cbn [deliver].
    destruct (watchPosition_callback env t (lat s) (lng s)) as [t1 es] eqn:E.
    specialize (IH t1 Hm).
    destruct (deliver env t1 rest) as [t2 ess]. cbn [snd map] in *.
    rewrite IH. f_equal.
    unfold watchPosition_callback in E. rewrite Hm in E.
    destruct (lastPosition t) as [p|].
    + cbv zeta in E. destruct (JS.lt _ _); injection E as _ <-; reflexivity.
    + injection E as _ <-. reflexivity.
Qed.

End TrackerStreams.

(** X21. The distance the tracker has accumulated never decreases while
    samples arrive, and no sample adds 0.1 miles or more: after any
    further samples the total lies between the total before them and that
    total plus 0.1 miles per sample. *)
Theorem tracker_distance_never_decreases (env : MapComponent.Env)
    (t : MapComponent.Tracker) (before further : list MapUtils.Point) :
  let total samples :=
    MapComponent.accumulatedDistance (fst (MapComponent.deliver env t samples))
  in
  total before <= total (before ++ further)
  <= total before + 0.1 * INR (List.length further).
Proof.
  cbv beta zeta. rewrite deliver_app. apply deliver_monotone.
Qed.

(** X22. Each segment is rounded to hundredths of a mile before it is
    added, so a runner whose samples follow one another along a meridian
    at most 0.00005 degrees apart accumulates nothing, however many
    samples arrive; the baseline still moves to the last sample. *)
Theorem slow_walk_accumulates_nothing (env : MapComponent.Env)
    (t : MapComponent.Tracker) (p : MapUtils.Point)
    (samples : list MapUtils.Point) :
  MapComponent.lastPosition t = Some p ->
  Spec.small_steps p samples ->
  MapComponent.accumulatedDistance (fst (MapComponent.deliver env t samples))
  = MapComponent.accumulatedDistance t
  /\ MapComponent.lastPosition (fst (MapComponent.deliver env t samples))
     = Some (List.last samples p).
Proof.
  intros Hp Hs. exact (deliver_small_steps env samples t p Hp Hs).
Qed.

Lemma slow_walk_accumulates_nothing_witness :
  let env := {| MapComponent.userMarker := true; MapComponent.map_ := true;
                MapComponent.onLocationUpdate := true |} in
  let p := {| MapUtils.lat := 0; MapUtils.lng := 0 |} in
  let t := {| MapComponent.lastPosition := Some p;
              MapComponent.accumulatedDistance := 0;
              MapComponent.watching := true |} in
  let samples := [ {| MapUtils.lat := 0.00004; MapUtils.lng := 0 |};
                   {| MapUtils.lat := 0.00008; MapUtils.lng := 0 |} ] in
  MapComponent.lastPosition t = Some p
  /\ Spec.small_steps p samples
  /\ MapComponent.accumulatedDistance
       (fst (MapComponent.deliver env t samples)) = 0.
Proof.
  intros env p t samples.
  assert (Hp : MapComponent.lastPosition t = Some p) by reflexivity.
  assert (Hs : Spec.small_steps p samples).
  { unfold samples, p. cbn [Spec.small_steps MapUtils.lat MapUtils.lng].
    repeat split.
    - rewrite Rabs_right; lra.
    - rewrite Rabs_right; lra. }
  split; [exact Hp|]. split; [exact Hs|].
  exact (proj1 (slow_walk_accumulates_nothing env t p samples Hp Hs)).
Defined.

(** X23. When the marker exists it is moved to every sample, first of
    all, whether or not the segment to the sample is counted. *)
Theorem marker_follows_every_sample (env : MapComponent.Env)
    (t : MapComponent.Tracker) (samples : list MapUtils.Point) :
  MapComponent.userMarker env = true ->
  map (@hd_error MapComponent.Effect)
      (snd (MapComponent.deliver env t samples))
  = map (fun s => Some (MapComponent.SetLngLat (MapUtils.lng s)
                          (MapUtils.lat s))) samples.
Proof.
  intros Hm. exact (deliver_effects_head env samples t Hm).
Qed.

Lemma marker_follows_every_sample_witness :
  let env := {| MapComponent.userMarker := true; MapComponent.map_ := true;
                MapComponent.onLocationUpdate := true |} in
  let far := {| MapUtils.lat := 10; MapUtils.lng := 20 |} in
  MapComponent.userMarker env = true
  /\ map (@hd_error MapComponent.Effect)
         (snd (MapComponent.deliver env MapComponent.initial [far]))
     = [Some (MapComponent.SetLngLat 20 10)].
Proof.
  intros env far.
  split; [reflexivity|].
  exact (marker_follows_every_sample env MapComponent.initial [far]
           eq_refl).
Defined.

Lemma find_by_unique_id (l : list MapUtils.Route) (r : MapUtils.Route) :
  NoDup (map MapUtils.id l) -> In r l ->
  find (fun route => String.eqb (MapUtils.id route) (MapUtils.id r)) l = Some r.
Proof.
  induction l as [|x l IH]; intros Hnd Hin; [contradiction|].
  cbn [map] in Hnd. inversion Hnd as [|? ? Hx Hl]; subst.
  cbn [find]. destruct Hin as [-> | Hin].
  - rewrite String.eqb_refl. reflexivity.
  - destruct (String.eqb (MapUtils.id x) (MapUtils.id r)) eqn:E.
    + apply String.eqb_eq in E. exfalso. apply Hx. rewrite E.
      apply in_map. exact Hin.
    + apply IH; assumption.
Qed.

Lemma route_finding_result
    (rng : nat -> R) (st : Index.State) (loc : MapUtils.Point) (d : R) :
  Index.currentLocation st = Some loc ->
  exists routes n',
    MapUtils.generateRouteOptions rng (MapUtils.lat loc) (MapUtils.lng loc) d 3
      (Index.randomDraws st) = (JS.Normal routes, n')
    /\ Index.handleDistanceSubmit rng st d false
       = ({| Index.currentLocation := Index.currentLocation st;
             Index.routes := routes;
             Index.activeRouteId := Some "route-0"%string;
             Index.isLoading := false;
             Index.showRoutePanel := true;
             Index.isPanelCollapsed := false;
             Index.isRunningMode := false;
             Index.targetDistance := Index.targetDistance st;
             Index.currentDistance := Index.currentDistance st;
             Index.runningDuration := Index.runningDuration st;
             Index.hasReachedTarget := Index.hasReachedTarget st;
             Index.timerRef := Index.timerRef st;
             Index.randomDraws := n' |}, []).
Proof.
  intros Hloc.
  destruct (generateRouteOptions_labelled rng (MapUtils.lat loc)
              (MapUtils.lng loc) d 3 (Index.randomDraws st))
    as [routes [n' [E [L [M _]]]]].
  exists routes, n'. split; [exact E|].
  unfold Index.handleDistanceSubmit. rewrite Hloc, E.
  destruct routes as [|r0 routes]; [discriminate L|].
  destruct (M 0%nat r0 eq_refl) as [I0 _]. rewrite I0. reflexivity.
Qed.

Lemma route_finding_length
    (rng : nat -> R) (st : Index.State) (loc : MapUtils.Point) (d : R) :
  Index.currentLocation st = Some loc ->
  List.length (Index.routes (fst (Index.handleDistanceSubmit rng st d false)))
  = 3%nat.
Proof.
  intros Hloc.
  destruct (route_finding_result rng st loc d Hloc) as [routes [n' [E H]]].
  destruct (generateRouteOptions_labelled rng (MapUtils.lat loc)
              (MapUtils.lng loc) d 3 (Index.randomDraws st))
    as [routes' [n'' [E' [L _]]]].
  rewrite E in E'. injection E' as <- _.
  rewrite H. exact L.
Qed.

(** X24. Finding routes with the geometric synthesizer cannot fail: once
    the location is known, submitting any distance in route-finding mode
    shows no error, stores exactly three routes, selects [route-0], opens
    the route panel, clears the loading flag and leaves running mode
    off. *)
Theorem route_finding_always_succeeds
    (rng : nat -> R) (st : Index.State) (loc : MapUtils.Point) (d : R) :
  Index.currentLocation st = Some loc ->
  let result := Index.handleDistanceSubmit rng st d false in
  snd result = []
  /\ List.length (Index.routes (fst result)) = 3%nat
  /\ Index.activeRouteId (fst result) = Some "route-0"%string
  /\ Index.isRunningMode (fst result) = false
  /\ Index.showRoutePanel (fst result) = true
  /\ Index.isLoading (fst result) = false.
Proof.
  intros Hloc result.
  destruct (route_finding_result rng st loc d Hloc) as [routes [n' [E H]]].
  destruct (generateRouteOptions_labelled rng (MapUtils.lat loc)
              (MapUtils.lng loc) d 3 (Index.randomDraws st))
    as [routes' [n'' [E' [L _]]]].
  rewrite E in E'. injection E' as <- _.
  unfold result. rewrite H. cbn [fst snd Index.routes Index.activeRouteId
    Index.isRunningMode Index.showRoutePanel Index.isLoading].
  repeat split. exact L.
Qed.

Lemma route_finding_always_succeeds_witness :
  let rng := fun _ : nat => 0.5 in
  let loc := {| MapUtils.lat := 40; MapUtils.lng := -74 |} in
  let st := {| Index.currentLocation := Some loc;
               Index.routes := [];
               Index.activeRouteId := None;
               Index.isLoading := false;
               Index.showRoutePanel := true;
               Index.isPanelCollapsed := false;
               Index.isRunningMode := false;
               Index.targetDistance := 0;
               Index.currentDistance := 0;
               Index.runningDuration := 0;
               Index.hasReachedTarget := false;
               Index.timerRef := false;
               Index.randomDraws := 0 |} in
  Index.currentLocation st = Some loc
  /\ List.length
       (Index.routes (fst (Index.handleDistanceSubmit rng st 2 false)))
     = 3%nat.
Proof.
  intros rng loc st.
  split; [reflexivity|].
  exact (proj1 (proj2 (route_finding_always_succeeds rng st loc 2 eq_refl))).
Defined.

(** X25. Any route that route finding produced can be followed: after
    selecting it by its id, the start button finds that very route (the
    ids of a batch are distinct), starts a session whose target is the
    route's stored distance and announces it; that target is the
    requested distance times a factor [0.95 + 0.1 * random], not a length
    measured along the route. *)
Theorem following_a_found_route
    (rng : nat -> R) (st : Index.State) (loc : MapUtils.Point) (d : R)
    (r : MapUtils.Route) :
  Index.currentLocation st = Some loc ->
  In r (Index.routes (fst (Index.handleDistanceSubmit rng st d false))) ->
  let found := fst (Index.handleDistanceSubmit rng st d false) in
  let selected := IndexHandlers.handleRouteSelect found (MapUtils.id r) in
  Index.startSelectedRoute selected
  = (Index.startRun selected (MapUtils.distance r),
     [Index.ToastSuccess Index.StartedFollowing])
  /\ Spec.session_started (fst (Index.startSelectedRoute selected))
       (MapUtils.distance r)
  /\ exists m, MapUtils.distance r = d * (0.95 + rng m * 0.1).
Proof.
  intros Hloc Hin found selected.
  destruct (route_finding_result rng st loc d Hloc) as [routes [n' [E H]]].
  destruct (generateRouteOptions_labelled rng (MapUtils.lat loc)
              (MapUtils.lng loc) d 3 (Index.randomDraws st))
    as [routes' [n'' [E' [_ [_ Hnd]]]]].
  rewrite E in E'. injection E' as <- _.
  destruct (generateRouteOptions_spec rng (MapUtils.lat loc)
              (MapUtils.lng loc) d 3 (Index.randomDraws st))
    as [routes2 [n2 [E2 [_ F]]]].
  rewrite E in E2. injection E2 as <- _.
  subst selected found. rewrite H in *. cbn [fst Index.routes] in Hin.
  set (selected := IndexHandlers.handleRouteSelect _ (MapUtils.id r)).
  assert (Hstart : Index.startSelectedRoute selected
            = (Index.startRun selected (MapUtils.distance r),
               [Index.ToastSuccess Index.StartedFollowing])).
  { unfold Index.startSelectedRoute.
    change (Index.activeRouteId selected) with (Some (MapUtils.id r)).
    change (Index.routes selected) with routes. cbv beta iota.
    rewrite (find_by_unique_id routes r Hnd Hin). reflexivity. }
  split; [exact Hstart|]. split.
  - rewrite Hstart. repeat split.
  - rewrite Forall_forall in F. destruct (F r Hin) as [m [_ [D _]]].
    exists m. exact D.
Qed.

Lemma following_a_found_route_witness :
  let rng := fun _ : nat => 0.5 in
  let loc := {| MapUtils.lat := 40; MapUtils.lng := -74 |} in
  let st := {| Index.currentLocation := Some loc;
               Index.routes := [];
               Index.activeRouteId := None;
               Index.isLoading := false;
               Index.showRoutePanel := true;
               Index.isPanelCollapsed := false;
               Index.isRunningMode := false;
               Index.targetDistance := 0;
               Index.currentDistance := 0;
               Index.runningDuration := 0;
               Index.hasReachedTarget := false;
               Index.timerRef := false;
               Index.randomDraws := 0 |} in
  let found := fst (Index.handleDistanceSubmit rng st 2 false) in
  let r := List.last (Index.routes found)
             {| MapUtils.id := EmptyString; MapUtils.points := [];
                MapUtils.distance := 0; MapUtils.description := EmptyString;
                MapUtils.color := EmptyString |} in
  Index.currentLocation st = Some loc
  /\ In r (Index.routes found)
  /\ Spec.session_started
       (fst (Index.startSelectedRoute
               (IndexHandlers.handleRouteSelect found (MapUtils.id r))))
       (MapUtils.distance r).
Proof.
  intros rng loc st found r.
  assert (Hloc : Index.currentLocation st = Some loc) by reflexivity.
  assert (Hin : In r (Index.routes found)).
  { pose proof (route_finding_length rng st loc 2 Hloc) as L.
    fold found in L. unfold r.
    destruct (Index.routes found) as [|a l]; [discriminate L|].
    destruct (exists_last (l := a :: l)) as [l' [z E]]; [discriminate|].
    rewrite E, last_last. apply in_or_app. right. left. reflexivity. }
  split; [exact Hloc|]. split; [exact Hin|].
  exact (proj1 (proj2 (following_a_found_route rng st loc 2 r Hloc Hin))).
Defined.

Section PageProofs.
Variable env : MapComponent.Env.
Hypothesis Hmap : MapComponent.map_ env = true.
Hypothesis Hprop : MapComponent.onLocationUpdate env = true.

Lemma render_running (st : Index.State) (t : MapComponent.Tracker) :
  Index.isRunningMode st = true ->
  MapComponent.accumulatedDistance (Page.tracker (Page.render env st t)) = 0.
Proof.
  intros H. unfold Page.render, MapComponent.trackingEffect.
  cbn [Page.tracker]. rewrite Hmap, H. reflexivity.
Qed.

Lemma quiet_refl (p : Page.State) (t : MapComponent.Tracker) :
  Spec.quiet p {| Page.index := Page.index p; Page.tracker := t |} [].
Proof. split; [reflexivity | intros _; split; reflexivity]. Qed.

Lemma update_below_target (st : Index.State) (lat lng d : R) :
  d < 0.2 ->
  0.2 <= Index.targetDistance st ->
  Index.hasReachedTarget (fst (Index.handleLocationUpdate st lat lng d))
  = Index.hasReachedTarget st
  /\ Index.firesTargetReached (snd (Index.handleLocationUpdate st lat lng d))
     = false.
Proof.
  intros Hd Ht.
  assert (Hge : JS.ge d (Index.targetDistance st) = false)
    by (apply ge_false; lra).
  rewrite handleLocationUpdate_flag, handleLocationUpdate_fires, Hge.
  rewrite orb_false_r, andb_false_r. split; reflexivity.
Qed.

Lemma onPosition_keeps_inv (p : Page.State) (latitude longitude : R) :
  Spec.page_inv p ->
  Spec.page_inv (fst (Page.onPosition env p latitude longitude))
  /\ Spec.quiet p (fst (Page.onPosition env p latitude longitude))
       (snd (Page.onPosition env p latitude longitude)).
Proof.
  intros [Hrun [Hc Hacc]].
  unfold Page.onPosition.
  destruct (MapComponent.watching (Page.tracker p)).
  2:{ cbn [fst snd]. split; [repeat split; assumption|].
      destruct p; apply quiet_refl. }
  pose proof (callback_accumulated env (Page.tracker p) latitude longitude) as Ha.
  pose proof (callback_reported env (Page.tracker p) latitude longitude) as Hr.
  destruct (MapComponent.watchPosition_callback env (Page.tracker p)
              latitude longitude) as [t1 effects].
  cbn [fst snd] in Ha, Hr. rewrite Hr. clear Hr.
  destruct (MapComponent.lastPosition (Page.tracker p)) as [held|].
  2:{ cbn [fst snd]. split; [|apply quiet_refl].
      split; [exact Hrun|]. split; [exact Hc|].
      cbn [Page.index Page.tracker]. rewrite Ha. exact Hacc. }
  cbv zeta in Ha |- *.
  set (s := LocationUtils.calculateDistance (MapUtils.lat held)
              (MapUtils.lng held) latitude longitude) in *.
  destruct (JS.lt s 0.1) eqn:Hs.
  2:{ cbn [andb fst snd]. split; [|apply quiet_refl].
      split; [exact Hrun|]. split; [exact Hc|].
      cbn [Page.index Page.tracker]. rewrite Ha. exact Hacc. }
  apply lt_true in Hs. rewrite Hprop. cbn [andb].
  set (d := MapComponent.accumulatedDistance (Page.tracker p) + s) in *.
  assert (Hd : d < 0.2) by (unfold d; destruct Hacc as [E | [E Hlt]]; rewrite E; lra).
  pose proof (update_below_target (Page.index p) latitude longitude d Hd) as Hq.
  pose proof (handleLocationUpdate_target (Page.index p) latitude longitude d) as Ht.
  assert (Hcd : Index.currentDistance
                  (fst (Index.handleLocationUpdate (Page.index p) latitude longitude d))
                = d) by reflexivity.
  assert (Hrun' : Index.isRunningMode
                    (fst (Index.handleLocationUpdate (Page.index p) latitude longitude d))
                  = true) by exact Hrun.
  destruct (Index.handleLocationUpdate (Page.index p) latitude longitude d)
    as [st1 shown].
  cbn [fst snd] in Hq, Ht, Hcd, Hrun'.
  assert (Hrender : Spec.page_inv (Page.render env st1 t1)).
  { split; [exact Hrun'|]. split; [cbn [Page.render Page.index]; lra|].
    left. apply render_running. exact Hrun'. }
  assert (Hquiet : forall t, Spec.quiet p {| Page.index := st1; Page.tracker := t |} shown).
  { intros t. split; [exact Ht | exact Hq]. }
  destruct (Req_dec_T (Index.currentDistance (Page.index p)) d) as [Heq|Hne].
  - destruct (Index.firesTargetReached shown); cbn [fst snd].
    + split; [exact Hrender | apply Hquiet].
    + split; [|apply Hquiet].
      split; [exact Hrun'|]. cbn [Page.index Page.tracker].
      split; [lra|]. rewrite Ha, Hcd.
      destruct Hacc as [E | [E Hlt]].
      * right. split; [reflexivity|]. unfold d. rewrite E. lra.
      * right. split; [reflexivity|].
        assert (s = 0) by (unfold d in Heq; lra). unfold d. lra.
  - cbn [fst snd]. split; [exact Hrender | apply Hquiet].
Qed.

Lemma handle_keeps_inv (p : Page.State) (e : Page.Event) :
  Spec.page_inv p ->
  Spec.page_inv (fst (Page.handle env p e))
  /\ Spec.quiet p (fst (Page.handle env p e)) (snd (Page.handle env p e)).
Proof.
  intros Hinv. destruct e as [|latitude longitude]; cbn [Page.handle].
  - cbn [fst snd]. destruct Hinv as [Hrun [Hc Hacc]].
    unfold Page.onTick. destruct (Index.timerRef (Page.index p)).
    + split; [|split; [reflexivity | intros _; split; reflexivity]].
      split; [exact Hrun|]. split; [exact Hc|]. left.
      apply render_running. exact Hrun.
    + split; [repeat split; assumption|]. destruct p; apply quiet_refl.
  - apply onPosition_keeps_inv. exact Hinv.
Qed.

Lemma run_keeps_inv (events : list Page.Event) :
  forall p : Page.State,
  Spec.page_inv p ->
  Spec.page_inv (fst (Page.run env p events))
  /\ Spec.quiet p (fst (Page.run env p events)) (snd (Page.run env p events)).
Proof.
  induction events as [|e rest IH]; intros p Hinv.
  - cbn [Page.run fst snd]. split; [exact Hinv|]. destruct p; apply quiet_refl.
  - cbn [Page.run].
    destruct (handle_keeps_inv p e Hinv) as [Hinv1 [Ht1 Hq1]].
    destruct (Page.handle env p e) as [p1 es]. cbn [fst snd] in *.
    destruct (IH p1 Hinv1) as [Hinv2 [Ht2 Hq2]].
    destruct (Page.run env p1 rest) as [p2 es']. cbn [fst snd] in *.
    split; [exact Hinv2|]. split; [congruence|].
    intros Ht. destruct (Hq1 Ht) as [Hf1 He1].
    rewrite <- Ht1 in Ht. destruct (Hq2 Ht) as [Hf2 He2].
    split; [congruence|].
    unfold Index.firesTargetReached in *. rewrite existsb_app, He1, He2.
    reflexivity.
Qed.

End PageProofs.

(** X26. The page passes a new [handleLocationUpdate] to the map in every
    render and the tracking effect depends on that prop, so each render
    during a run (every timer tick, every distance update that changes
    the page) zeroes the map's accumulator again.  With each event
    handled together with the render it causes, the distance shown during
    a run therefore stays below 0.2 miles and the accumulator below 0.1
    miles, whatever positions arrive; a target of 0.2 miles or more is
    never reported as reached. *)
Theorem page_never_shows_a_fifth_of_a_mile
    (env : MapComponent.Env) (st : Index.State) (t : MapComponent.Tracker)
    (target : R) (events : list Page.Event) :
  MapComponent.map_ env = true ->
  MapComponent.onLocationUpdate env = true ->
  let started := Page.render env (Index.startRun st target) t in
  let result := Page.run env started events in
  Index.currentDistance (Page.index (fst result)) < 0.2
  /\ MapComponent.accumulatedDistance (Page.tracker (fst result)) < 0.1
  /\ (0.2 <= target ->
      Index.hasReachedTarget (Page.index (fst result)) = false
      /\ Index.firesTargetReached (snd result) = false).
Proof.
  intros Hmap Hprop started result.
  assert (Hinv : Spec.page_inv started).
  { split; [reflexivity|]. split; [cbn; lra|]. left.
    apply render_running; [exact Hmap | reflexivity]. }
  destruct (run_keeps_inv env Hmap Hprop events started Hinv)
    as [[Hrun [Hc Hacc]] [Ht Hq]].
  fold result in Hrun, Hc, Hacc, Ht, Hq.
  split; [exact Hc|]. split.
  - destruct Hacc as [E | [E Hlt]]; rewrite E; lra.
  - intros Htarget. apply Hq. exact Htarget.
Qed.

Lemma page_never_shows_a_fifth_of_a_mile_witness :
  let env := {| MapComponent.userMarker := true; MapComponent.map_ := true;
                MapComponent.onLocationUpdate := true |} in
  let st := {| Index.currentLocation :=
                 Some {| MapUtils.lat := 40; MapUtils.lng := -74 |};
               Index.routes := [];
               Index.activeRouteId := None;
               Index.isLoading := false;
               Index.showRoutePanel := true;
               Index.isPanelCollapsed := false;
               Index.isRunningMode := false;
               Index.targetDistance := 0;
               Index.currentDistance := 0;
               Index.runningDuration := 0;
               Index.hasReachedTarget := false;
               Index.timerRef := false;
               Index.randomDraws := 0 |} in
  let t := MapComponent.initializeMap MapComponent.initial 40 (-74) in
  let events := [Page.Position 40.001 (-74); Page.Tick;
                 Page.Position 40.002 (-74); Page.Position 40.003 (-74)] in
  MapComponent.map_ env = true
  /\ MapComponent.onLocationUpdate env = true
  /\ 0.2 <= 1
  /\ Index.hasReachedTarget
       (Page.index
          (fst (Page.run env (Page.render env (Index.startRun st 1) t)
                  events))) = false.
Proof.
  intros env st t events.
  assert (Htarget : 0.2 <= 1) by lra.
  split; [reflexivity|]. split; [reflexivity|]. split; [exact Htarget|].
  exact (proj1 (proj2 (proj2
           (page_never_shows_a_fifth_of_a_mile env st t 1 events
              eq_refl eq_refl)) Htarget)).
Defined.

(** X27. Stopping a run freezes the page: the interval is cleared and the
    position watch is cancelled, so whatever ticks and positions come
    after the stop change nothing and show nothing; the distance and the
    duration stay those announced by the stop. *)
Theorem stopped_run_is_frozen (env : MapComponent.Env) (p : Page.State)
    (events : list Page.Event) :
  let stopped := fst (Page.onStop env p) in
  Page.run env stopped events = (stopped, [])
  /\ snd (Page.onStop env p)
     = [Index.ToastInfo
          (Index.RunCompleted (Index.currentDistance (Page.index stopped))
             (Index.runningDuration (Page.index stopped)))].
Proof.
  cbv zeta. split; [|reflexivity].
  assert (Hfrozen : forall q : Page.State,
            Index.timerRef (Page.index q) = false ->
            MapComponent.watching (Page.tracker q) = false ->
            Page.run env q events = (q, [])).
  { induction events as [|e rest IH]; intros q Ht Hw; [reflexivity|].
    cbn [Page.run].
    assert (Hstep : Page.handle env q e = (q, [])).
    { destruct e as [|latitude longitude]; cbn [Page.handle].
      - unfold Page.onTick. rewrite Ht. reflexivity.
      - unfold Page.onPosition. rewrite Hw. reflexivity. }
    rewrite Hstep, (IH q Ht Hw). reflexivity. }
  apply Hfrozen.
  - reflexivity.
  - unfold Page.onStop, Index.handleStopRun, Page.render,
      MapComponent.trackingEffect.
    cbn [fst Page.tracker Index.isRunningMode negb].
    rewrite orb_true_r. reflexivity.
Qed.
